(* ===== verification/_CoqProject ===== *)
-Q . S2P
Prelude.v
Path.v
Fs.v
Domain.v
Repos.v
Partition.v
Template.v
Builder.v
Ready.v
StaticCopy.v
Effect.v
Progress.v
