(* ===== verification/Prelude.v ===== *)
(** * A verification development of the techcity site builder

    The program.  [src/techcity/services/builder/build.py] is the static
    site generator of the techcity project.  Its class [SiteBuilder] holds
    a fixed instant [now], an output directory [out], and the template and
    static-asset directories [templates] and [public] beside the module.
    [SiteBuilder.build] creates [out], instantiates the three read-only
    data repositories (events, groups, hackathons), runs five rendering
    passes in a fixed order ([render_index], [render_events],
    [render_groups], [render_hackathons], [render_palette]), copies the
    static tree with [copy_static], and prints the elapsed time.  Every
    page is written by the one primitive [render]: look the template up,
    open the output file for writing, render the context, write.  Any
    exception aborts the build and leaves what was written so far.
    [src/techcity/events/__init__.py] only declares four pydantic message
    classes; it has no behaviour.

    The library, in dependency order (verification/_CoqProject):
    - [Prelude] (this file): the state-and-error monad [st] in which the
      builder is written ([Ok]/[Err] both carry the state, because an
      aborted build keeps its partial output), its bind notation in
      [build_scope], the loop combinator [for_each] (a Python [for] over a
      list), the generic lemmas on them (among them the step of a loop
      that handles a given element, [for_each_Ok_visit]), the
      total-correctness triples [ok_spec] with their rules, the partial
      triples [on_ok] (what a run that returns did),
      [take_while]/[drop_while], and the hint database [build].
    - [Path]: [pathlib.PurePosixPath] joining, [path / "name"], as the
      code uses it: a string is split at '/', empty and "." parts are
      dropped, an absolute string replaces the base.
    - [Fs]: the file system the build writes, a [gmap] from absolute
      component lists to directories and files, with the operating
      system's resolution of a path (every intermediate component must be
      an existing directory, ".." goes up), and the primitives the code
      calls: [Path.mkdir(exist_ok=True)], [open(p, "w")] and [f.write],
      [shutil.copyfile], [os.walk]'s directory listing, [print].  Its
      invariant [wf] (every entry hangs below a directory) is preserved
      by every primitive, and so is the preorder [grows] (no entry
      removed, no entry changes between file and directory).
    - [Domain]: the records the builder reads ([Event], [Group],
      [Hackathon], instants and [timedelta]s) and the four message
      records of [src/techcity/events/__init__.py]; the first live outside
      [src/] and are modelled from the specification.
    - [Repos]: the repository interface the builder consumes, as type
      classes with their laws, and a list-backed implementation that
      discharges them (also from the specification).
    - [Partition]: the forward scan of [render_index] (lines 93-102) that
      splits events into "upcoming" and "recent" with an irreversible
      bucket switch, proved equal to a take-while/drop-while reference.
    - [Template]: the template context values and their types, the
      schema of each page template ([page_schema]: the variables it
      reads, which [Ready] asks the engine to render), the Jinja
      [Environment] as a type class ([compiles]: [get_template] parses
      the source and raises [TemplateSyntaxError]; [render_source]:
      [Template.render], which only a compiled source reaches),
      [SiteBuilder.render] and [tailwindify_html].
    - [Builder]: [SiteBuilder] itself: every pass with its context,
      [copy_static] and its walk, [build], and the module's entry point
      [build()] ([main_build]).
    - [Ready]: the invariant [ready] of the world (templates present and
      rendered by the engine on every context of their schema, entries
      of [out] of the kind the page layout needs, the static tree fitting
      that layout), and that every rendering pass returns from a ready
      world and keeps it ready, in the triples [ok_spec].
    - [StaticCopy]: the walk of [copy_static] against the tree it walks:
      the measure [dirs_below] that bounds it, the invariant that
      [public] stays as it was and that nothing but the copies changes,
      the walk's result place by place ([copy_lookup]); and the walks
      that overlap their own output (Sections [Nested] and [Chain]).
    - [Effect]: what a pass that returns wrote: a map [D] of pages and
      directories over the file system, which depends on the templates
      and the repositories only ([writes]).
    - [Progress]: the passes chained into [build], [build] run twice, the
      entry point, and builds whose [public] and [out] overlap.

    What the theorems show (C<n> is the claim's number).
    - Partition (C1-C7): the scan equals the reference split; every past
      event is "recent" and never "upcoming" whatever the input order;
      every "upcoming" event is at or after [now]; on input sorted newest
      first the split is exactly future/past; on input sorted oldest
      first (the order the specification assumes) any past event empties
      "upcoming"; no event is lost or reordered; the group shown beside
      an event on the index.
    - Template (C8-C10, C26, C27): [render] writes exactly the engine's
      text; a missing template or one that does not compile raises before
      the output is opened, and nothing is written; when the output
      cannot be opened it raises that [OSError] and nothing is written;
      when a compiled template fails while rendering, the output file is
      left truncated to the empty string.
    - Builder (C11-C16): which file [render_event] writes and with which
      context; what an event id ".." does (it overwrites
      [out/index.html]); that a joint event's group comes from
      [find_by(group_slug)] on the event page while the index shows no
      group; that an [out] that cannot be created aborts the build before
      any pass runs; that a missing [public] is skipped silently; and
      that a completed build leaves the output layout of the
      specification ([site_layout]) for every entity whose identifier is
      a simple name.
    - StaticCopy (C18, C19, C21, C24): when [public] and [out] do not
      overlap and the static tree fits [out], the walk terminates within
      its fuel; after it, every entry of [public] is at its place in [out]
      with the same bytes, and nothing else changes; with [out] two
      levels inside [public] the copy never completes, at any fuel.
    - Progress (C17, C20, C22, C23, C25): on a ready world whose [out],
      [templates] and [public] do not overlap, [build] returns without
      raising and leaves the world ready again; run a second time over
      its own output it returns and leaves every file as the first run
      left it (the idempotence of the specification).  With [public]
      equal to [out] no build completes, on any world; with [out] one
      level inside [public] every completed build changes the file
      system, so the build is never idempotent.  The entry point
      [build()] completes, with the site's layout, when [out] lies
      neither inside nor above the two directories beside the module.
    Each claim with hypotheses has a witness that applies it to a small
    concrete world ([BuilderExamples.w0] and its variants).

    Bounds and fuel.  [os.walk] is recursive over the static tree; the
    model walks with fuel [S (size fs)], one unit per directory level,
    and reports running out as the error [RecursionBound].  The fuel is
    enough whenever the walk does not grow the tree it walks: a directory
    has fewer directories below it than its parent ([dirs_below] in
    [StaticCopy]), and none has more than the file system has entries.
    When [out] lies two levels inside [public] the walk does grow that
    tree: C19 is proved for every fuel (the walk of each level lists a
    directory the level above created), so the bound is not what stops
    it; the real program recurses until the operating system refuses
    the path.  With [out] one level inside [public] the walk stops: the
    chain of directories it extends is shorter than the file system has
    entries ([chain_bounded]).

    Not modelled.  The Jinja engine and [tailwindify_html] are parameters
    (their code is not in [src/]); autoescaping is a property of the
    engine.  Symbolic links, permissions and file times are not modelled;
    repository calls are total functions.  The elapsed-time message keeps
    the difference of the two clock readings, not Python's float text.
    The real repositories' data loading is not modelled: the builder only
    consumes them through their interface.  Idempotence is stated of the
    file system; the printed lines of the second run are not compared
    (the elapsed time differs). *)

From stdpp Require Export base list option gmap strings.
From Stdlib Require Export ZArith Lia.

Declare Scope build_scope.
Delimit Scope build_scope with build.

Create HintDb build discriminated.

(** ** The state-and-error monad *)

(** The outcome of a step: a value and the new state, or an exception and
    the state reached when it was raised. *)
Inductive result (S E A : Type) : Type :=
  | Ok (a : A) (s : S)
  | Err (e : E) (s : S).
Arguments Ok {S E A} a s.
Arguments Err {S E A} e s.

Definition st (S E A : Type) : Type := S -> result S E A.

Section Monad.
Context {S E : Type}.

Definition ret {A} (a : A) : st S E A := fun s => Ok a s.

Definition bind {A B} (m : st S E A) (k : A -> st S E B) : st S E B :=
  fun s => match m s with
           | Ok a s' => k a s'
           | Err e s' => Err e s'
           end.

Definition throw {A} (e : E) : st S E A := fun s => Err e s.

Definition gets {A} (f : S -> A) : st S E A := fun s => Ok (f s) s.

Definition modify (f : S -> S) : st S E unit := fun s => Ok tt (f s).

(** [for x in l: f(x)] *)
Fixpoint for_each {A} (f : A -> st S E unit) (l : list A) : st S E unit :=
  match l with
  | [] => ret tt
  | x :: l' => bind (f x) (fun _ => for_each f l')
  end.

Definition state_of {A} (r : result S E A) : S :=
  match r with Ok _ s => s | Err _ s => s end.

Definition is_ok {A} (r : result S E A) : bool :=
  match r with Ok _ _ => true | Err _ _ => false end.
End Monad.

#[export] Instance st_ret {S E} : MRet (st S E) := @ret S E.
#[export] Instance st_bind {S E} : MBind (st S E) := fun A B k m => bind m k.

(** [for x in l: body] *)
Notation "'for!' x 'in' l 'do' body" := (for_each (fun x => body) l)
  (at level 10, x binder, l at level 100, body at level 200) : build_scope.
Open Scope build_scope.

(** ** [take_while] and [drop_while] *)

Fixpoint take_while {A} (p : A -> bool) (l : list A) : list A :=
  match l with
  | [] => []
  | x :: l' => if p x then x :: take_while p l' else []
  end.

Fixpoint drop_while {A} (p : A -> bool) (l : list A) : list A :=
  match l with
  | [] => []
  | x :: l' => if p x then drop_while p l' else l
  end.

(** ** Generic lemmas *)

Section MonadLemmas.
Context {S E : Type}.

Lemma bind_Ok {A B} (m : st S E A) (k : A -> st S E B) s a s' :
  m s = Ok a s' -> bind m k s = k a s'.
Proof. unfold bind. by intros ->. Qed.

Lemma bind_Ok_inv {A B} (m : st S E A) (k : A -> st S E B) s b s'' :
  bind m k s = Ok b s'' -> exists a s', m s = Ok a s' /\ k a s' = Ok b s''.
Proof. unfold bind. destruct (m s); [eauto | discriminate]. Qed.

(** A relation between the state before and after a computation, which
    holds whether it returns or raises. *)
Definition respects (R : relation S) {A} (m : st S E A) : Prop :=
  forall s, R s (state_of (m s)).

Context (R : relation S) `{!PreOrder R}.

Lemma respects_ret {A} (a : A) : respects R (ret a).
Proof. intros s. simpl. reflexivity. Qed.

Lemma respects_throw {A} e : respects R (@throw _ _ A e).
Proof. intros s. simpl. reflexivity. Qed.

Lemma respects_bind {A B} (m : st S E A) (k : A -> st S E B) :
  respects R m -> (forall a, respects R (k a)) -> respects R (bind m k).
Proof.
  intros Hm Hk s. unfold bind. specialize (Hm s).
  destruct (m s) as [a s'|e s']; simpl in *; [|done].
  by etrans; [|apply Hk].
Qed.

Lemma respects_for_each {A} (f : A -> st S E unit) l :
  (forall x, x ∈ l -> respects R (f x)) -> respects R (for_each f l).
Proof.
  induction l as [|x l IH]; intros Hf; simpl.
  - apply respects_ret.
  - apply respects_bind; [apply Hf; set_solver|].
    intros _. apply IH. intros y Hy. apply Hf. set_solver.
Qed.
End MonadLemmas.

(** An invariant as a preorder: [P s -> P s']. *)
Definition preserved {S} (P : S -> Prop) : relation S := fun s s' => P s -> P s'.

#[export] Instance preserved_preorder {S} (P : S -> Prop) : PreOrder (preserved P).
Proof. split; unfold preserved; [by intros ?|intros ??? H1 H2 ?; auto]. Qed.

Lemma for_each_Ok_inv {S E A} (f : A -> st S E unit) x l s u s' :
  for_each f (x :: l) s = Ok u s' ->
  exists s1, f x s = Ok tt s1 /\ for_each f l s1 = Ok u s'.
Proof.
  simpl. intros H. apply bind_Ok_inv in H as ([] & s1 & ? & ?). eauto.
Qed.

Lemma for_each_Ok_elem {S E A} (R : relation S) `{!PreOrder R}
      (f : A -> st S E unit) l s s' x :
  (forall y, respects R (f y)) -> for_each f l s = Ok tt s' -> x ∈ l ->
  exists s1 s2, f x s1 = Ok tt s2 /\ R s2 s'.
Proof.
  intros Hf. revert s. induction l as [|y l IH]; intros s H Hx; [set_solver|].
  apply for_each_Ok_inv in H as (s1 & H1 & H2).
  apply elem_of_cons in Hx as [->|Hx]; [|by eapply IH].
  exists s, s1. split; [done|].
  pose proof (respects_for_each R f l (fun z _ => Hf z) s1) as Hr. by rewrite H2 in Hr.
Qed.

(** The step of [for_each] that handles [x]: it starts from a state the
    steps before it reached and ends in one the steps after it continue. *)
Lemma for_each_Ok_visit {S E A} (R : relation S) `{!PreOrder R}
      (f : A -> st S E unit) l s s' x :
  (forall y, respects R (f y)) -> for_each f l s = Ok tt s' -> x ∈ l ->
  exists s1 s2, R s s1 /\ f x s1 = Ok tt s2 /\ R s2 s'.
Proof.
  intros Hf. revert s. induction l as [|y l IH]; intros s H Hx; [set_solver|].
  apply for_each_Ok_inv in H as (s1 & H1 & H2).
  assert (R s s1) as Hs1 by (specialize (Hf y s); by rewrite H1 in Hf).
  apply elem_of_cons in Hx as [->|Hx].
  - exists s, s1. split_and!; [done|done|].
    pose proof (respects_for_each R f l (fun z _ => Hf z) s1) as Hr. by rewrite H2 in Hr.
  - destruct (IH s1 H2 Hx) as (t1 & t2 & G & Ht & G'). exists t1, t2. split_and!; [by etrans|done|done].
Qed.

Lemma Ok_respects {S E A} (R : relation S) (m : st S E A) s a s' :
  respects R m -> m s = Ok a s' -> R s s'.
Proof. intros Hm H. specialize (Hm s). by rewrite H in Hm. Qed.

(** A decidable property that holds at [0] and fails at [N] has a last
    point where it holds. *)
Lemma last_holds (P : nat -> Prop) `{!forall n, Decision (P n)} N :
  P 0 -> ~ P N -> exists k, P k /\ ~ P (S k).
Proof.
  induction N as [|N IH]; intros H0 HN; [done|].
  destruct (decide (P N)) as [HP|HP]; [by exists N|by apply IH].
Qed.

(** Two preorders at once. *)
Definition both {S} (R1 R2 : relation S) : relation S := fun s s' => R1 s s' /\ R2 s s'.

#[export] Instance both_preorder {S} (R1 R2 : relation S) `{!PreOrder R1, !PreOrder R2} :
  PreOrder (both R1 R2).
Proof. split; [intros s; split; reflexivity|intros ??? [] []; split; by etrans]. Qed.

Lemma respects_both {S E A} (R1 R2 : relation S) (m : st S E A) :
  respects R1 m -> respects R2 m -> respects (both R1 R2) m.
Proof. intros H1 H2 s. split; [apply H1|apply H2]. Qed.

Lemma take_drop_while {A} (p : A -> bool) l :
  take_while p l ++ drop_while p l = l.
Proof. induction l as [|x l IH]; simpl; [done|]. destruct (p x); simpl; by f_equal. Qed.

Lemma take_while_all {A} (p : A -> bool) l x :
  x ∈ take_while p l -> p x = true.
Proof.
  induction l as [|y l IH]; simpl; [set_solver|].
  destruct (p y) eqn:Hy; [|set_solver].
  rewrite elem_of_cons. intros [->|H]; auto.
Qed.

Lemma drop_while_sub {A} (p : A -> bool) l x :
  x ∈ drop_while p l -> x ∈ l.
Proof. intros H. rewrite <- (take_drop_while p l). set_solver. Qed.

Lemma filter_all_true {A} (P : A -> Prop) `{!forall x, Decision (P x)} (l : list A) :
  (forall x, x ∈ l -> P x) -> filter P l = l.
Proof.
  induction l as [|x l IH]; intros Hl; [done|].
  rewrite filter_cons_True by (apply Hl; set_solver). f_equal. apply IH. intros y Hy. apply Hl. set_solver.
Qed.

Lemma filter_all_false {A} (P : A -> Prop) `{!forall x, Decision (P x)} (l : list A) :
  (forall x, x ∈ l -> ~ P x) -> filter P l = [].
Proof.
  induction l as [|x l IH]; intros Hl; [done|].
  rewrite filter_cons_False by (apply Hl; set_solver). apply IH. intros y Hy. apply Hl. set_solver.
Qed.

(** ** Total correctness

    [ok_spec P m Q]: from a state satisfying [P], [m] returns (it does not
    raise) and its value and final state satisfy [Q].  These are the
    triples in which the liveness of the build is proved. *)
Definition ok_spec {S E A} (P : S -> Prop) (m : st S E A) (Q : A -> S -> Prop) : Prop :=
  forall s, P s -> exists a s', m s = Ok a s' /\ Q a s'.

Section OkSpec.
Context {S E : Type}.

Lemma ok_spec_ret {A} (P : S -> Prop) (a : A) : ok_spec (E:=E) P (ret a) (fun _ => P).
Proof. intros s Hs. by exists a, s. Qed.

Lemma ok_spec_bind {A B} P Q R (m : st S E A) (k : A -> st S E B) :
  ok_spec P m Q -> (forall a, ok_spec (Q a) (k a) R) -> ok_spec P (bind m k) R.
Proof.
  intros Hm Hk s Hs. destruct (Hm s Hs) as (a & s' & E1 & HQ).
  destruct (Hk a s' HQ) as (b & s'' & E2 & HR). exists b, s''.
  by rewrite (bind_Ok _ _ _ _ _ E1).
Qed.

Lemma ok_spec_weaken {A} (P P' : S -> Prop) (m : st S E A) (Q Q' : A -> S -> Prop) :
  ok_spec P m Q -> (forall s, P' s -> P s) -> (forall a s, Q a s -> Q' a s) ->
  ok_spec P' m Q'.
Proof. intros Hm HP HQ s Hs. destruct (Hm s (HP s Hs)) as (a & s' & ? & ?). eauto. Qed.

(** A property that the relation [R] carries forward survives [m]. *)
Lemma ok_spec_frame {A} (R : relation S) (D : S -> Prop) P (m : st S E A) Q :
  ok_spec P m Q -> respects R m -> (forall s s', R s s' -> D s -> D s') ->
  ok_spec (fun s => P s /\ D s) m (fun a s => Q a s /\ D s).
Proof.
  intros Hm HR HD s [Hs Ds]. destruct (Hm s Hs) as (a & s' & E1 & HQ).
  exists a, s'. split; [done|]. split; [done|]. specialize (HR s). rewrite E1 in HR.
  by apply (HD s).
Qed.

Lemma ok_spec_for_each {A} (I : S -> Prop) (f : A -> st S E unit) l :
  (forall x, x ∈ l -> ok_spec I (f x) (fun _ => I)) ->
  ok_spec I (for_each f l) (fun _ => I).
Proof.
  induction l as [|x l IH]; intros Hf; simpl; [apply ok_spec_ret|].
  apply (ok_spec_bind _ (fun _ => I)); [apply Hf; set_solver|].
  intros _. apply IH. intros y Hy. apply Hf. set_solver.
Qed.

(** A loop whose invariant grows with the prefix of the list done. *)
Lemma ok_spec_for_each_prefix {A} (I : list A -> S -> Prop) (f : A -> st S E unit) l :
  (forall l1 x l2, l = l1 ++ x :: l2 -> ok_spec (I l1) (f x) (fun _ => I (l1 ++ [x]))) ->
  ok_spec (I []) (for_each f l) (fun _ => I l).
Proof.
  intros Hf. cut (forall l0 l', l = l0 ++ l' ->
                    ok_spec (I l0) (for_each f l') (fun _ => I (l0 ++ l'))).
  { intros H. apply (H [] l eq_refl). }
  intros l0 l'. revert l0. induction l' as [|x l' IH]; intros l0 El; simpl.
  - rewrite app_nil_r. apply ok_spec_ret.
  - apply (ok_spec_bind _ (fun _ => I (l0 ++ [x]))); [by apply (Hf l0 x l')|].
    intros _. rewrite (app_assoc l0 [x] l' : l0 ++ x :: l' = (l0 ++ [x]) ++ l').
    apply IH. by rewrite <- app_assoc.
Qed.

End OkSpec.

(** ** What a returning computation did

    [on_ok P R m]: from a state in [P], a run of [m] that returns relates
    its two states by [R] and ends in [P] again.  Nothing is said of runs
    that raise: this is the partial half that [ok_spec] completes. *)
Definition on_ok {S E A} (P : S -> Prop) (R : S -> S -> Prop) (m : st S E A) : Prop :=
  forall s a s', P s -> m s = Ok a s' -> R s s' /\ P s'.

Section OnOk.
Context {S E : Type} (P : S -> Prop).

Lemma on_ok_ret {A} (R : S -> S -> Prop) (a : A) :
  (forall s, R s s) -> on_ok (E:=E) P R (ret a).
Proof. intros HR s b s' Hs [= _ <-]. auto. Qed.

Lemma on_ok_bind {A B} (R1 R2 R : S -> S -> Prop) (m : st S E A) (k : A -> st S E B) :
  on_ok P R1 m -> (forall a, on_ok P R2 (k a)) ->
  (forall s1 s2 s3, R1 s1 s2 -> R2 s2 s3 -> R s1 s3) -> on_ok P R (bind m k).
Proof.
  intros Hm Hk HR s b s'' Hs Hr. apply bind_Ok_inv in Hr as (a & s' & E1 & E2).
  destruct (Hm _ _ _ Hs E1) as [H1 Hs']. destruct (Hk a _ _ _ Hs' E2) as [H2 ?]. eauto.
Qed.

Lemma on_ok_weaken {A} (R R' : S -> S -> Prop) (m : st S E A) :
  on_ok P R m -> (forall s s', R s s' -> R' s s') -> on_ok P R' m.
Proof. intros Hm HR s a s' Hs Hr. destruct (Hm _ _ _ Hs Hr). auto. Qed.

(** A loop whose body relates its states by [Rx x]; the relations of the
    iterations compose in order. *)
Fixpoint rel_seq {A} (Rx : A -> S -> S -> Prop) (l : list A) (s s' : S) : Prop :=
  match l with
  | [] => s = s'
  | x :: l' => exists s1, Rx x s s1 /\ rel_seq Rx l' s1 s'
  end.

Lemma on_ok_for_each {A} (f : A -> st S E unit) (Rx : A -> S -> S -> Prop) l :
  (forall x, x ∈ l -> on_ok P (Rx x) (f x)) -> on_ok P (rel_seq Rx l) (for_each f l).
Proof.
  induction l as [|x l IH]; intros Hf s a s' Hs Hr; simpl in *.
  - injection Hr as _ <-. auto.
  - apply bind_Ok_inv in Hr as ([] & s1 & E1 & E2).
    destruct (Hf x ltac:(set_solver) _ _ _ Hs E1) as [H1 Hs1].
    destruct (IH ltac:(set_solver) _ _ _ Hs1 E2) as [H2 ?]. eauto.
Qed.
End OnOk.

#[export] Hint Resolve respects_ret respects_throw respects_bind
  respects_for_each : build.
#[export] Hint Resolve take_while_all drop_while_sub : build.

(** Destruct every successful bind in a hypothesis. *)
Ltac inv_ok :=
  repeat match goal with
  | H : mbind _ _ _ = Ok _ _ |- _ =>
      let a := fresh "a" in let s := fresh "s" in
      let H1 := fresh "H" in let H2 := fresh "H" in
      apply bind_Ok_inv in H as (a & s & H1 & H2); cbv beta zeta in H2
  | H : bind _ _ _ = Ok _ _ |- _ =>
      let a := fresh "a" in let s := fresh "s" in
      let H1 := fresh "H" in let H2 := fresh "H" in
      apply bind_Ok_inv in H as (a & s & H1 & H2); cbv beta zeta in H2
  | H : Ok _ _ = Ok _ _ |- _ => injection H as <- <-
  | a : unit |- _ => destruct a
  end.

(** Discharge a decidable proposition on closed data by evaluation. *)
Ltac decide_by_eval := apply (bool_decide_unpack _); vm_compute; reflexivity.
