(* ===== verification/Path.v ===== *)
(** * Path: [pathlib.PurePosixPath] joining as [build.py] uses it

    Every output path of the builder is built with [/]:
    [self.out / "index.html"], [events_dir / event.id],
    [groups_dir / group.slug / "events"].  A path is the list of its
    components from the root.  Joining a string splits it at '/', drops
    the empty and "." parts (pathlib normalises "a//b" and "a/./b"), and
    an absolute string (one that starts with '/') replaces the base.
    ".." is kept as a component: pathlib does not resolve it; the
    operating system does, which [Fs] models. *)

From S2P Require Import Prelude.
From Stdlib Require Import Ascii.

Abbreviation path := (list string).

(** Split a string at every '/': "a/b" is ["a"; "b"], "" is [""]. *)
Fixpoint split_slash (s : string) : list string :=
  match s with
  | EmptyString => [""]
  | String c rest =>
      let parts := split_slash rest in
      if Ascii.eqb c "/"%char then "" :: parts
      else match parts with
           | p :: ps => String c p :: ps
           | [] => [String c ""]
           end
  end.

Definition is_absolute (s : string) : bool :=
  match s with
  | String c _ => Ascii.eqb c "/"%char
  | EmptyString => false
  end.

(** The components pathlib keeps from a string. *)
Definition parts (s : string) : path :=
  filter (fun c => c <> "" /\ c <> ".") (split_slash s).

(** [p / s] *)
Definition join (p : path) (s : string) : path :=
  if is_absolute s then parts s else p ++ parts s.

Notation "p /ₚ s" := (join p s) (at level 40, left associativity) : build_scope.

(** A name that pathlib keeps as exactly one component that names a child:
    not empty, not ".", not "..", without '/'. *)
Definition simple_name (s : string) : Prop :=
  s <> "" /\ s <> "." /\ s <> ".." /\ "/"%char ∉ String.list_ascii_of_string s.

#[export] Instance simple_name_dec s : Decision (simple_name s).
Proof. unfold simple_name. apply _. Defined.

(** ** Lemmas *)

Lemma split_slash_no_slash s :
  "/"%char ∉ String.list_ascii_of_string s -> split_slash s = [s].
Proof.
  induction s as [|c s IH]; simpl; [done|].
  rewrite not_elem_of_cons. intros [Hc Hs]. rewrite IH by done.
  destruct (Ascii.eqb_spec c "/"%char); [|done]. subst. by destruct Hc.
Qed.

Lemma simple_name_not_absolute s : simple_name s -> is_absolute s = false.
Proof.
  intros (_ & _ & _ & Hs). destruct s as [|c s]; [done|]. simpl in *.
  destruct (Ascii.eqb_spec c "/"%char); [|done]. subst. set_solver.
Qed.

Lemma parts_simple s : simple_name s -> parts s = [s].
Proof.
  intros Hs. pose proof Hs as (H1 & H2 & _ & H4). unfold parts.
  rewrite split_slash_no_slash by done.
  rewrite filter_cons_True; [done|auto].
Qed.

(** Joining a simple name appends exactly that component. *)
Lemma join_simple p s : simple_name s -> p /ₚ s = p ++ [s].
Proof.
  intros Hs. unfold join. rewrite simple_name_not_absolute, parts_simple by done.
  done.
Qed.

#[export] Hint Resolve join_simple : build.
