(* ===== verification/Fs.v ===== *)
(** * Fs: the file system and standard output the build acts on

    The world is a finite map from absolute component lists to nodes
    (directories and files with their text) and the list of lines printed
    so far.  The root [[]] is always a directory and is not stored.
    The operating system resolves a path component by component: every
    component but the last must name an existing directory (otherwise
    [FileNotFoundError] or [NotADirectoryError]), and ".." goes to the
    parent.  On top of that resolution are the calls [build.py] makes:
    [Path.mkdir(exist_ok=True)] (lines 48, 79, 120, 124, 139, 155, 172,
    182, 194), [open(out_path, "w")] and [f.write] (70-71),
    [shutil.copyfile] (83), the [os.scandir] listing under [os.walk] (75),
    and [print].  The exceptions any of them, or the template engine, can
    raise are the constructors of [error]. *)

From S2P Require Import Prelude Path.

Inductive node : Type :=
  | Dir
  | File (contents : string).

#[export] Instance node_eq_dec : EqDecision node.
Proof. solve_decision. Defined.

Inductive os_error : Type :=
  | FileNotFoundError (p : path)
  | FileExistsError (p : path)
  | IsADirectoryError (p : path)
  | NotADirectoryError (p : path)
  | SameFileError (p : path)
  | RecursionBound (p : path).

Inductive error : Type :=
  | OSError (e : os_error)
  | TemplateNotFound (name : string)
  | TemplateSyntaxError (name : string)
  | TemplateError (name : string).

(** A printed line; the last line of [build] prints the elapsed time,
    kept as the difference of the two clock readings. *)
Inductive line : Type :=
  | Text (s : string)
  | Elapsed (delta : Z).

Record world : Type := mk_world {
  fs : gmap path node;
  stdout : list line
}.

Abbreviation M := (st world error).

Definition set_fs (w : world) (m : gmap path node) : world :=
  mk_world m (stdout w).

Definition node_at (m : gmap path node) (q : path) : option node :=
  match q with [] => Some Dir | _ => m !! q end.

(** ** Path resolution *)

(** Walk the directory components [comps] from the directory [cur]. *)
Fixpoint resolve_dirs (m : gmap path node) (cur comps : path) : os_error + path :=
  match comps with
  | [] => inr cur
  | c :: rest =>
      if decide (c = "..") then resolve_dirs m (removelast cur) rest
      else let nxt := cur ++ [c] in
           match node_at m nxt with
           | Some Dir => resolve_dirs m nxt rest
           | Some (File _) => inl (NotADirectoryError nxt)
           | None => inl (FileNotFoundError nxt)
           end
  end.

(** The entry a path designates: its parent resolved as directories, then
    its last component (or the parent's parent for a final ".."). *)
Definition locate (m : gmap path node) (p : path) : os_error + path :=
  match p with
  | [] => inr []
  | _ =>
      match resolve_dirs m [] (removelast p) with
      | inl e => inl e
      | inr cur =>
          let l := default "" (last p) in
          if decide (l = "..") then inr (removelast cur) else inr (cur ++ [l])
      end
  end.

(** ** The primitives *)

(** [path.mkdir(exist_ok=True)] *)
Definition mkdir (p : path) : M unit := fun w =>
  match locate (fs w) p with
  | inl e => Err (OSError e) w
  | inr q =>
      match node_at (fs w) q with
      | Some Dir => Ok tt w
      | Some (File _) => Err (OSError (FileExistsError q)) w
      | None => Ok tt (set_fs w (<[q:=Dir]> (fs w)))
      end
  end.

(** [open(p, "w")]: create or truncate; the handle is the resolved entry. *)
Definition open_w (p : path) : M path := fun w =>
  match locate (fs w) p with
  | inl e => Err (OSError e) w
  | inr q =>
      match node_at (fs w) q with
      | Some Dir => Err (OSError (IsADirectoryError q)) w
      | _ => Ok q (set_fs w (<[q:=File ""]> (fs w)))
      end
  end.

(** [f.write(s)] on a handle just opened: the file's text becomes [s].  A
    handle whose entry is no longer a file writes to an unlinked inode,
    which nothing can observe. *)
Definition write_handle (q : path) (s : string) : M unit := fun w =>
  match fs w !! q with
  | Some (File _) => Ok tt (set_fs w (<[q:=File s]> (fs w)))
  | _ => Ok tt w
  end.

(** Reading a whole file, as [shutil.copyfile] does with its source. *)
Definition read_file (p : path) : M string := fun w =>
  match locate (fs w) p with
  | inl e => Err (OSError e) w
  | inr q =>
      match node_at (fs w) q with
      | Some (File c) => Ok c w
      | Some Dir => Err (OSError (IsADirectoryError q)) w
      | None => Err (OSError (FileNotFoundError q)) w
      end
  end.

(** [shutil.copyfile(src, dst)]: refuse a source and destination that are
    one existing file, read the source, open the destination for writing,
    write the text. *)
Definition copyfile (src dst : path) : M unit := fun w =>
  match locate (fs w) src, locate (fs w) dst with
  | inr qs, inr qd =>
      if decide (qs = qd /\ is_Some (node_at (fs w) qs))
      then Err (OSError (SameFileError qs)) w
      else (c ← read_file src; h ← open_w dst; write_handle h c) w
  | _, _ => (c ← read_file src; h ← open_w dst; write_handle h c) w
  end.

(** The name of [k] when it is a direct child of [q]. *)
Definition child_name (q k : path) : option string :=
  if decide (length k = S (length q) /\ take (length q) k = q) then last k else None.

(** [os.scandir(top)] as [os.walk] uses it: [None] when it raises (the
    walk then skips [top]), otherwise the subdirectory names and the other
    names. *)
Definition scandir (m : gmap path node) (top : path) : option (list string * list string) :=
  match locate m top with
  | inl _ => None
  | inr q =>
      match node_at m q with
      | Some Dir =>
          let entries := omap (fun '(k, n) => (fun nm => (nm, n)) <$> child_name q k)
                              (map_to_list m) in
          Some ((fun e => e.1) <$> filter (fun e => e.2 = Dir) entries,
                (fun e => e.1) <$> filter (fun e => e.2 <> Dir) entries)
      | _ => None
      end
  end.

(** [print(s)] *)
Definition print (s : string) : M unit := fun w =>
  Ok tt (mk_world (fs w) (stdout w ++ [Text s])).

Definition print_elapsed (delta : Z) : M unit := fun w =>
  Ok tt (mk_world (fs w) (stdout w ++ [Elapsed delta])).

(** ** The invariant: every entry hangs below a directory *)

Definition wf (m : gmap path node) : Prop :=
  forall k n, m !! k = Some n ->
    k <> [] /\ node_at m (removelast k) = Some Dir /\ ".." ∉ k.

Definition wf_world (w : world) : Prop := wf (fs w).

(** ** Lemmas on lookups and resolution *)

Lemma node_at_insert m q n k :
  q <> [] -> node_at (<[q:=n]> m) k = if decide (k = q) then Some n else node_at m k.
Proof.
  intros Hq. destruct k as [|c k]; simpl.
  - by rewrite decide_False by congruence.
  - rewrite lookup_insert. by repeat case_decide; simplify_eq.
Qed.

Lemma removelast_not_in (k : path) x : x ∉ k -> x ∉ removelast k.
Proof.
  intros Hx Hin. apply Hx. induction k as [|a k' _] using rev_ind; [done|].
  rewrite removelast_last in Hin. set_solver.
Qed.

Lemma wf_parent m k n :
  wf m -> node_at m k = Some n -> k <> [] -> node_at m (removelast k) = Some Dir.
Proof. intros Hwf. destruct k as [|c k]; [done|]. intros H _. by apply Hwf in H as (_ & ? & _). Qed.

Lemma removelast_neq (k : path) : k <> [] -> removelast k <> k.
Proof.
  induction k as [|a k' _] using rev_ind; [done|]. intros _.
  rewrite removelast_last. intros E. apply (f_equal length) in E.
  rewrite length_app in E. simpl in E. lia.
Qed.

(** Every proper prefix of an entry is a directory. *)
Lemma wf_ancestor m a b n :
  wf m -> node_at m (a ++ b) = Some n -> b <> [] -> node_at m a = Some Dir.
Proof.
  intros Hwf. revert n. induction b as [|x b IH] using rev_ind; [done|].
  intros n Hn _. rewrite app_assoc in Hn.
  assert (node_at m (a ++ b) = Some Dir) as Hp.
  { apply wf_parent in Hn; [|done|by destruct (a ++ b)].
    by rewrite removelast_last in Hn. }
  destruct b as [|y b]; [by rewrite app_nil_r in Hp|]. by eapply (IH Dir).
Qed.

Lemma wf_parent_dir m q :
  wf m -> node_at m q = Some Dir -> node_at m (removelast q) = Some Dir.
Proof. intros Hwf. destruct q as [|c q]; [done|]. intros H. by apply Hwf in H as (_ & ? & _). Qed.

Lemma resolve_dirs_dir m cur comps q :
  wf m -> node_at m cur = Some Dir -> ".." ∉ cur ->
  resolve_dirs m cur comps = inr q -> node_at m q = Some Dir /\ ".." ∉ q.
Proof.
  intros Hwf. revert cur. induction comps as [|c comps IH]; intros cur Hc Hn; simpl.
  - by intros [= <-].
  - case_decide.
    + apply IH; [by apply wf_parent_dir|by apply removelast_not_in].
    + destruct (node_at m (cur ++ [c])) as [[]|] eqn:E; try discriminate.
      apply IH; [done|set_solver].
Qed.

Lemma locate_wf m p q :
  wf m -> locate m p = inr q ->
  q = [] \/ (node_at m (removelast q) = Some Dir /\ ".." ∉ q).
Proof.
  intros Hwf. unfold locate. destruct p as [|c p]; [by intros [= <-]; left|].
  destruct (resolve_dirs m [] _) as [e|cur] eqn:R; [discriminate|].
  apply resolve_dirs_dir in R as [Hd Hn]; [|done|done|set_solver].
  case_decide; intros [= <-].
  - destruct cur as [|x cur]; [by left|]. right. split.
    + by apply wf_parent_dir, wf_parent_dir.
    + by apply removelast_not_in.
  - right. rewrite removelast_last. split; [done|]. set_solver.
Qed.

Lemma wf_insert m q n :
  wf m -> q <> [] -> node_at m (removelast q) = Some Dir -> ".." ∉ q ->
  m !! q <> Some Dir \/ n = Dir -> wf (<[q:=n]> m).
Proof.
  intros Hwf Hq Hp Hn Hno k n'. rewrite lookup_insert. case_decide as Hk.
  - intros [= <-]. subst k. rewrite node_at_insert by done.
    case_decide as E; [|done]. by apply removelast_neq in E.
  - intros Hk'. destruct (Hwf k n' Hk') as (Hne & Hpk & Hnk). split; [done|]. split; [|done].
    rewrite node_at_insert by done. case_decide as E; [|done]. subst q.
    destruct Hno as [Hno| ->]; [|done]. exfalso. apply Hno.
    destruct (removelast k) as [|c r] eqn:R; [done|]. done.
Qed.

Lemma wf_locate_insert m p q n :
  wf m -> locate m p = inr q -> q <> [] ->
  m !! q <> Some Dir \/ n = Dir -> wf (<[q:=n]> m).
Proof.
  intros Hwf Hl Hq Hno. destruct (locate_wf m p q Hwf Hl) as [->|[Hp Hn]]; [done|].
  by apply wf_insert.
Qed.

Lemma resolve_dirs_ok m cur r :
  wf m -> node_at m (cur ++ r) = Some Dir -> ".." ∉ r ->
  resolve_dirs m cur r = inr (cur ++ r).
Proof.
  intros Hwf. revert cur. induction r as [|c r IH]; intros cur Hd Hn; simpl.
  - by rewrite app_nil_r.
  - rewrite decide_False by set_solver.
    assert (node_at m (cur ++ [c]) = Some Dir) as Hc.
    { destruct r as [|y r]; [done|].
      eapply (wf_ancestor _ _ (y :: r)); [done|by rewrite <- app_assoc|done]. }
    rewrite Hc, IH; [by rewrite <- app_assoc|by rewrite <- app_assoc|set_solver].
Qed.

(** A child of an existing directory resolves to itself. *)
Lemma locate_child m p c :
  wf m -> node_at m p = Some Dir -> ".." ∉ p -> c <> ".." ->
  locate m (p ++ [c]) = inr (p ++ [c]).
Proof.
  intros Hwf Hd Hn Hc. unfold locate. destruct (p ++ [c]) eqn:E; [by destruct p|].
  rewrite <- E, removelast_last, last_snoc.
  rewrite (resolve_dirs_ok m [] p) by done. simpl. by rewrite decide_False.
Qed.

(** ** The primitives preserve [wf] *)

Lemma set_fs_wf w m : wf m -> wf_world (set_fs w m).
Proof. done. Qed.

Lemma mkdir_wf p : respects (preserved wf_world) (mkdir p).
Proof.
  intros w Hw. unfold mkdir. destruct (locate _ p) as [e|q] eqn:L; [done|].
  destruct (node_at _ q) as [[]|] eqn:N; try done. apply set_fs_wf.
  eapply wf_locate_insert; [done|done| |by right]. by intros ->.
Qed.

Lemma open_w_wf p : respects (preserved wf_world) (open_w p).
Proof.
  intros w Hw. unfold open_w. destruct (locate _ p) as [e|q] eqn:L; [done|].
  destruct (node_at _ q) as [[]|] eqn:N; try done; apply set_fs_wf;
    (eapply wf_locate_insert; [done|done| |left]);
    try (by intros ->); destruct q; simpl in N; congruence.
Qed.

Lemma write_handle_wf q s : respects (preserved wf_world) (write_handle q s).
Proof.
  intros w Hw. unfold write_handle. destruct (fs w !! q) as [[]|] eqn:N; try done.
  apply set_fs_wf. destruct (Hw q _ N) as (Hq & Hp & Hn).
  apply wf_insert; [done|done|done|done|]. left. congruence.
Qed.

Lemma read_file_state p w : state_of (read_file p w) = w.
Proof. unfold read_file. by repeat case_match. Qed.

Lemma read_file_wf p : respects (preserved wf_world) (read_file p).
Proof. intros w. by rewrite read_file_state. Qed.

Lemma print_wf s : respects (preserved wf_world) (print s).
Proof. intros w Hw. exact Hw. Qed.

Lemma print_elapsed_wf d : respects (preserved wf_world) (print_elapsed d).
Proof. intros w Hw. exact Hw. Qed.

#[export] Hint Resolve mkdir_wf open_w_wf write_handle_wf read_file_wf
  print_wf print_elapsed_wf : build.

Lemma copyfile_wf src dst : respects (preserved wf_world) (copyfile src dst).
Proof.
  intros w. unfold copyfile.
  assert (respects (preserved wf_world)
            (c ← read_file src; h ← open_w dst; write_handle h c)) as H
    by (unfold mbind, st_bind; eauto 6 with build typeclass_instances).
  repeat case_match; first [apply H | by intros ?].
Qed.

#[export] Hint Resolve copyfile_wf : build.

#[export] Instance wf_dec m : Decision (wf m).
Proof.
  change (Decision (map_Forall
    (fun k (_ : node) => k <> [] /\ node_at m (removelast k) = Some Dir /\ ".." ∉ k) m)).
  apply _.
Defined.

(** ** Entries are never removed and never change kind *)

Definition is_dir (n : node) : bool := match n with Dir => true | File _ => false end.

Definition grows (w w' : world) : Prop :=
  forall k n, fs w !! k = Some n -> exists n', fs w' !! k = Some n' /\ is_dir n' = is_dir n.

#[export] Instance grows_preorder : PreOrder grows.
Proof.
  split.
  - intros w k n H. eauto.
  - intros w1 w2 w3 H12 H23 k n H. destruct (H12 k n H) as (n2 & H2 & E2).
    destruct (H23 k n2 H2) as (n3 & H3 & E3). exists n3. split; [done|congruence].
Qed.

Lemma grows_insert w k n :
  (forall n0, fs w !! k = Some n0 -> is_dir n0 = is_dir n) ->
  grows w (set_fs w (<[k:=n]> (fs w))).
Proof.
  intros Hk k' n' H. simpl. rewrite lookup_insert. case_decide; subst; [|eauto].
  exists n. split; [done|]. symmetry. by apply Hk.
Qed.

Lemma grows_lookup_dir w w' k : grows w w' -> fs w !! k = Some Dir -> fs w' !! k = Some Dir.
Proof. intros G H. destruct (G _ _ H) as ([|c] & H' & E); [done|discriminate]. Qed.

Lemma mkdir_grows p : respects grows (mkdir p).
Proof.
  intros w. unfold mkdir. destruct (locate _ p) as [|q]; simpl; [reflexivity|].
  destruct (node_at _ q) as [[]|] eqn:N; simpl; try reflexivity.
  apply grows_insert. intros n0 H. destruct q; simpl in N; congruence.
Qed.

Lemma open_w_grows p : respects grows (open_w p).
Proof.
  intros w. unfold open_w. destruct (locate _ p) as [|q]; simpl; [reflexivity|].
  destruct (node_at _ q) as [[]|] eqn:N; simpl; try reflexivity;
    apply grows_insert; intros [] H; try done; destruct q; simpl in N; congruence.
Qed.

Lemma write_handle_grows q s : respects grows (write_handle q s).
Proof.
  intros w. unfold write_handle. destruct (fs w !! q) as [[]|] eqn:N; simpl; try reflexivity.
  apply grows_insert. intros n0 H. rewrite N in H. by injection H as <-.
Qed.

Lemma read_file_grows p : respects grows (read_file p).
Proof. intros w. rewrite read_file_state. reflexivity. Qed.

Lemma print_grows s : respects grows (print s).
Proof. intros w k n H. eauto. Qed.

Lemma print_elapsed_grows d : respects grows (print_elapsed d).
Proof. intros w k n H. eauto. Qed.

#[export] Hint Resolve mkdir_grows open_w_grows write_handle_grows read_file_grows
  print_grows print_elapsed_grows : build.

Lemma copyfile_grows src dst : respects grows (copyfile src dst).
Proof.
  intros w. unfold copyfile.
  assert (respects grows (c ← read_file src; h ← open_w dst; write_handle h c)) as H
    by (unfold mbind, st_bind; eauto 6 with build typeclass_instances).
  repeat case_match; first [apply H | reflexivity].
Qed.

#[export] Hint Resolve copyfile_grows : build.

(** ** Successful calls on paths without ".." *)

Lemma resolve_dirs_plain m cur comps q :
  ".." ∉ comps -> resolve_dirs m cur comps = inr q -> q = cur ++ comps.
Proof.
  revert cur. induction comps as [|c comps IH]; intros cur Hn; simpl.
  - intros [= <-]. by rewrite app_nil_r.
  - rewrite decide_False by set_solver.
    destruct (node_at m (cur ++ [c])) as [[]|]; try discriminate.
    intros R. rewrite (IH _ ltac:(set_solver) R). by rewrite <- app_assoc.
Qed.

Lemma locate_snoc m p l :
  locate m (p ++ [l]) =
  match resolve_dirs m [] p with
  | inl e => inl e
  | inr cur => if decide (l = "..") then inr (removelast cur) else inr (cur ++ [l])
  end.
Proof.
  unfold locate. destruct (p ++ [l]) eqn:E; [by destruct p|].
  rewrite <- E, removelast_last, last_snoc. done.
Qed.

Lemma locate_plain m p q : ".." ∉ p -> locate m p = inr q -> q = p.
Proof.
  induction p as [|l init _] using rev_ind; [by intros _ [= <-]|]. intros Hn.
  rewrite locate_snoc. destruct (resolve_dirs m [] init) as [|cur] eqn:R; [done|].
  apply resolve_dirs_plain in R; [|set_solver]. subst cur.
  rewrite decide_False by set_solver. by intros [= <-].
Qed.

(** A [mkdir] of a plain path that returns has made [p] a directory and
    changed nothing else. *)
Lemma mkdir_Ok_inv p w w' :
  p <> [] -> ".." ∉ p -> mkdir p w = Ok tt w' -> fs w' = <[p:=Dir]> (fs w).
Proof.
  intros Hp Hn. unfold mkdir. destruct (locate (fs w) p) as [|q] eqn:L; [discriminate|].
  apply locate_plain in L as ->; [|done].
  destruct p as [|c p]; [done|]. simpl.
  destruct (fs w !! (c :: p)) as [[]|] eqn:E; intros H; try discriminate;
    injection H as <-; [by rewrite insert_id|done].
Qed.
