(* ===== verification/Domain.v ===== *)
(** * Domain: the records the builder reads

    [techcity.models.Event], [Group] and [Hackathon] are not part of
    [src/]; they are modelled from the specification's data model.  An
    instant is a [datetime] in UTC as microseconds since the epoch, so
    [event.when < self.now] is [Z.lt]; a [timedelta] is a number of
    microseconds.  [old_delta] is line 19 of [build.py].  Module [Messages]
    holds the four pydantic message classes of
    [src/techcity/events/__init__.py], which declare fields and nothing
    else. *)

From S2P Require Import Prelude.

Abbreviation instant := Z.

Definition microseconds_per_day : Z := 86400 * 1000000.

(** [datetime.timedelta(days=d)] *)
Definition timedelta_days (d : Z) : Z := d * microseconds_per_day.

(** [old_delta = datetime.timedelta(days=50 * 365)] *)
Definition old_delta : Z := timedelta_days (50 * 365).

Module Event.
Record t : Type := mk {
  id : string;
  when : instant;
  description : string;
  joint_with : option string;
  group_slug : string
}.

#[global] Instance eq_dec : EqDecision t.
Proof. solve_decision. Defined.
End Event.

Module Group.
Record t : Type := mk {
  slug : string;
  name : string;
  attrs : list (string * string)
}.

#[global] Instance eq_dec : EqDecision t.
Proof. solve_decision. Defined.
End Group.

Module Hackathon.
Record t : Type := mk {
  slug : string;
  name : string
}.

#[global] Instance eq_dec : EqDecision t.
Proof. solve_decision. Defined.
End Hackathon.

(** Python truthiness of an optional string: [None] and [""] are false. *)
Definition truthy (o : option string) : bool :=
  match o with
  | Some s => bool_decide (s <> "")
  | None => false
  end.

(** [event.when < self.now] *)
Definition is_past (now : instant) (e : Event.t) : bool := (Event.when e <? now)%Z.

(** [src/techcity/events/__init__.py]: the commands and the integration
    event of the application's message bus, pydantic models with no
    behaviour of their own. *)
Module Messages.
(** [BroadcastTriggered], lines 10-11. *)
Record BroadcastTriggered : Type := mk_BroadcastTriggered {}.
(** [BuildTriggered], lines 14-15. *)
Record BuildTriggered : Type := mk_BuildTriggered {}.
(** [FetchTriggered], lines 18-21. *)
Record FetchTriggered : Type := mk_FetchTriggered { cached : bool }.
(** [EventPublished], lines 27-30. *)
Record EventPublished : Type := mk_EventPublished { event : Event.t }.
End Messages.
