(* ===== verification/Repos.v ===== *)
(** * Repos: the repository interface the builder consumes

    [EventRepository], [GroupRepository] and [HackathonRepository] live
    outside [src/]; the builder only calls [all], [find_by],
    [filter_around] and [filter_group].  Each is a type class of its
    operations; the laws the specification states of [find_by] are a
    separate class, and [ListStore] is a list-backed implementation that
    discharges them, used by the concrete runs. *)

From S2P Require Import Prelude Domain.

Class EventRepository : Type := {
  events_all : list Event.t;
  filter_around : instant -> list Event.t;
  (** [filter_group(slug, now)] is [past = None]; [past=old_delta] is
      [Some old_delta]. *)
  filter_group : string -> instant -> option Z -> list Event.t
}.

Class GroupRepository : Type := {
  groups_all : list Group.t;
  find_by : string -> option Group.t
}.

Class HackathonRepository : Type := {
  hackathons_all : list Hackathon.t
}.

(** [find_by(slug)] returns the group of that slug, one of [all()], or
    [None]. *)
Class GroupRepositoryLaws `{GroupRepository} : Prop := {
  find_by_slug : forall s g, find_by s = Some g -> Group.slug g = s;
  find_by_all : forall s g, find_by s = Some g -> g ∈ groups_all
}.

Module ListStore.
Record t : Type := mk {
  events : list Event.t;
  groups : list Group.t;
  hackathons : list Hackathon.t;
  default_past : Z;
  future : Z
}.

Section Instances.
Context (s : t).

#[export] Instance event_repo : EventRepository := {|
  events_all := events s;
  filter_around now :=
    filter (fun e => (now - default_past s <= Event.when e <= now + future s)%Z)
           (events s);
  filter_group slug now past :=
    filter (fun e => Event.group_slug e = slug /\
                     (now - default (default_past s) past <= Event.when e)%Z)
           (events s)
|}.

#[export] Instance group_repo : GroupRepository := {|
  groups_all := groups s;
  find_by slug := snd <$> list_find (fun g => Group.slug g = slug) (groups s)
|}.

#[export] Instance hackathon_repo : HackathonRepository := {|
  hackathons_all := hackathons s
|}.

#[export] Instance group_repo_laws : GroupRepositoryLaws.
Proof.
  split; intros sl g; simpl;
    destruct (list_find _ _) as [[i g']|] eqn:F; intros [= <-];
    apply list_find_Some in F as (Hi & Hg & _); [done|].
  by eapply list_elem_of_lookup_2.
Qed.
End Instances.
End ListStore.
