(* ===== verification/Partition.v ===== *)
(** * Partition: the forward scan of [SiteBuilder.render_index]

    Lines 93-102 of [build.py] walk [event_repo.filter_around(self.now)]
    once with a variable [events_with_group] that aliases the list
    [upcoming_events_with_group] until the first event with
    [event.when < self.now], and [recent_events_with_group] from then on
    (the switch is never undone).  Each event is appended to the aliased
    list together with its group: [None] for a joint event (a truthy
    [joint_with]), [group_repo.find_by(event.group_slug)] otherwise.

    The aliasing is modelled by the record [scan]: both lists and the
    bucket [current] that [events_with_group] points to.  The reference
    [split_spec] cuts the input at its first past event with
    [take_while]/[drop_while]. *)

From S2P Require Import Prelude Domain Repos.
From Stdlib Require Import Sorting.Sorted.

#[local] Arguments is_past : simpl never.

Inductive bucket : Type := Upcoming | Recent.

Record scan : Type := mk_scan {
  upcoming : list (Event.t * option Group.t);
  recent : list (Event.t * option Group.t);
  current : bucket
}.

Section Scan.
Context `{GroupRepository} (now : instant).

(** Lines 99-102: the pair appended for [event]. *)
Definition event_with_group (e : Event.t) : Event.t * option Group.t :=
  if truthy (Event.joint_with e) then (e, None)
  else (e, find_by (Event.group_slug e)).

(** One iteration of the loop body, lines 97-102. *)
Definition scan_step (sc : scan) (e : Event.t) : scan :=
  let cur := if is_past now e then Recent else current sc in
  match cur with
  | Upcoming => mk_scan (upcoming sc ++ [event_with_group e]) (recent sc) Upcoming
  | Recent => mk_scan (upcoming sc) (recent sc ++ [event_with_group e]) Recent
  end.

(** Lines 93-102: both lists start empty, [events_with_group] starts as
    the upcoming list. *)
Definition scan_events (evs : list Event.t) : scan :=
  fold_left scan_step evs (mk_scan [] [] Upcoming).

(** The reference: cut at the first past event. *)
Definition not_past (e : Event.t) : bool := negb (is_past now e).

Definition split_spec (evs : list Event.t)
  : list (Event.t * option Group.t) * list (Event.t * option Group.t) :=
  (event_with_group <$> take_while not_past evs,
   event_with_group <$> drop_while not_past evs).

(** ** Lemmas *)

Lemma scan_step_past sc e :
  is_past now e = true ->
  scan_step sc e = mk_scan (upcoming sc) (recent sc ++ [event_with_group e]) Recent.
Proof. intros He. unfold scan_step. by rewrite He. Qed.

Lemma scan_step_not_past sc e :
  is_past now e = false ->
  scan_step sc e = match current sc with
                   | Upcoming => mk_scan (upcoming sc ++ [event_with_group e]) (recent sc) Upcoming
                   | Recent => mk_scan (upcoming sc) (recent sc ++ [event_with_group e]) Recent
                   end.
Proof. intros He. unfold scan_step. by rewrite He. Qed.

Lemma not_past_eq e : not_past e = negb (is_past now e).
Proof. done. Qed.

Lemma scan_from_recent evs u r :
  fold_left scan_step evs (mk_scan u r Recent)
  = mk_scan u (r ++ (event_with_group <$> evs)) Recent.
Proof.
  revert r. induction evs as [|e evs IH]; intros r; simpl.
  - by rewrite app_nil_r.
  - destruct (is_past now e) eqn:He;
      rewrite ?scan_step_past, ?scan_step_not_past by done;
      simpl; rewrite IH, <- app_assoc; done.
Qed.

Lemma scan_from_upcoming evs u r :
  upcoming (fold_left scan_step evs (mk_scan u r Upcoming))
    = u ++ (event_with_group <$> take_while not_past evs) /\
  recent (fold_left scan_step evs (mk_scan u r Upcoming))
    = r ++ (event_with_group <$> drop_while not_past evs).
Proof.
  revert u r. induction evs as [|e evs IH]; intros u r; simpl.
  - by rewrite !app_nil_r.
  - rewrite not_past_eq. destruct (is_past now e) eqn:He; simpl.
    + rewrite scan_step_past by done. simpl. rewrite scan_from_recent. simpl.
      by rewrite app_nil_r, <- app_assoc.
    + rewrite scan_step_not_past by done. simpl.
      destruct (IH (u ++ [event_with_group e]) r) as [-> ->].
      by rewrite <- app_assoc.
Qed.

Lemma event_with_group_fst e : (event_with_group e).1 = e.
Proof. unfold event_with_group. by destruct (truthy _). Qed.

Lemma elem_of_event_with_group p (evs : list Event.t) :
  p ∈ event_with_group <$> evs -> p = event_with_group p.1 /\ p.1 ∈ evs.
Proof.
  intros (e & -> & He)%list_elem_of_fmap. by rewrite event_with_group_fst.
Qed.

(** Newest-first input: once an event is past, every later one is. *)
Lemma past_closed_desc evs :
  StronglySorted (fun a b => (Event.when b <= Event.when a)%Z) evs ->
  drop_while not_past evs = filter (fun e => is_past now e) evs /\
  take_while not_past evs = filter (fun e => ~ is_past now e) evs.
Proof.
  induction 1 as [|e evs Hs IH Hall]; [done|]. simpl.
  rewrite not_past_eq. destruct (is_past now e) eqn:He; simpl.
  - assert (forall x, x ∈ evs -> is_past now x) as Hp.
    { intros x Hx. rewrite Forall_forall in Hall. apply Hall in Hx.
      unfold is_past in *. apply Is_true_true_2.
      apply Z.ltb_lt in He. apply Z.ltb_lt. lia. }
    rewrite filter_cons_True, filter_cons_False by (rewrite He; auto).
    rewrite filter_all_true, filter_all_false; [done| |]; intros x Hx;
      specialize (Hp x Hx); destruct (is_past now x); simpl in *; tauto.
  - rewrite filter_cons_False, filter_cons_True by (rewrite He; auto).
    destruct IH as [-> ->]. done.
Qed.

Lemma scan_events_split evs :
  upcoming (scan_events evs) = (split_spec evs).1 /\
  recent (scan_events evs) = (split_spec evs).2.
Proof. apply (scan_from_upcoming evs [] []). Qed.

Lemma take_while_not_past e evs : e ∈ take_while not_past evs -> ~ is_past now e.
Proof.
  intros He%take_while_all. unfold not_past in He.
  destruct (is_past now e); simpl in *; [discriminate|tauto].
Qed.

(** ** Properties of the scan *)

(** C1: the single forward scan with an irreversible bucket switch computes
    exactly the reference split: "upcoming" is the events before the first
    past one, "recent" is that event and all after it, each paired with
    its group. *)
Theorem scan_events_spec evs :
  (upcoming (scan_events evs), recent (scan_events evs)) = split_spec evs.
Proof. destruct (scan_events_split evs) as [-> ->]. by destruct (split_spec evs). Qed.

(** C2: whatever the order of the input, an event whose [when] is before
    [now] is rendered in "recent" (with its group) and never in
    "upcoming". *)
Theorem past_event_recent evs e :
  e ∈ evs -> is_past now e ->
  event_with_group e ∈ recent (scan_events evs) /\
  e ∉ (fun p => p.1) <$> upcoming (scan_events evs).
Proof.
  intros Hin Hp. destruct (scan_events_split evs) as [-> ->]. simpl. split.
  - apply list_elem_of_fmap_2. rewrite <- (take_drop_while not_past evs) in Hin.
    apply elem_of_app in Hin as [Hin|]; [|done].
    by apply take_while_not_past in Hin.
  - rewrite <- list_fmap_compose.
    intros (x & Hx & Hxin)%list_elem_of_fmap. unfold compose in Hx.
    rewrite event_with_group_fst in Hx. subst x.
    by apply take_while_not_past in Hxin.
Qed.

(** C3: every event rendered as upcoming is at or after [now]. *)
Theorem upcoming_not_past evs p :
  p ∈ upcoming (scan_events evs) -> (now <= Event.when p.1)%Z.
Proof.
  destruct (scan_events_split evs) as [-> _]. simpl.
  intros (Hp & Hin)%elem_of_event_with_group. apply take_while_not_past in Hin.
  unfold is_past in Hin. destruct (Event.when p.1 <? now)%Z eqn:E; [done|].
  apply Z.ltb_ge in E. lia.
Qed.

(** C4: on input sorted newest first, "upcoming" is exactly the events at
    or after [now] and "recent" exactly the past ones, in input order. *)
Theorem scan_events_desc evs :
  StronglySorted (fun a b => (Event.when b <= Event.when a)%Z) evs ->
  upcoming (scan_events evs) = event_with_group <$> filter (fun e => ~ is_past now e) evs /\
  recent (scan_events evs) = event_with_group <$> filter (fun e => is_past now e) evs.
Proof.
  intros Hs. destruct (past_closed_desc evs Hs) as [Hd Ht].
  destruct (scan_events_split evs) as [-> ->]. simpl. by rewrite Hd, Ht.
Qed.

(** C5: on input sorted oldest first, the order the specification says
    [filter_around] returns, one past event is enough to put every event,
    future ones included, in "recent": "upcoming" is empty. *)
Theorem scan_events_asc_no_upcoming evs :
  StronglySorted (fun a b => (Event.when a <= Event.when b)%Z) evs ->
  (exists e, e ∈ evs /\ is_past now e) ->
  upcoming (scan_events evs) = [].
Proof.
  intros Hs (e & Hin & Hp). destruct (scan_events_split evs) as [-> _]. simpl.
  destruct Hs as [|h evs' _ Hall]; [set_solver|].
  assert (is_past now h) as Hh.
  { apply elem_of_cons in Hin as [->|Hin]; [done|].
    rewrite Forall_forall in Hall. apply Hall in Hin. unfold is_past in *.
    apply Is_true_true_2. apply Is_true_true_1, Z.ltb_lt in Hp. apply Z.ltb_lt. lia. }
  simpl. rewrite not_past_eq. by destruct (is_past now h).
Qed.

(** C6: no event is lost, duplicated or reordered: the events of
    "upcoming" followed by those of "recent" are the input. *)
Theorem scan_events_order evs :
  (fun p => p.1) <$> (upcoming (scan_events evs) ++ recent (scan_events evs)) = evs.
Proof.
  destruct (scan_events_split evs) as [-> ->]. simpl.
  rewrite <- fmap_app, <- list_fmap_compose.
  rewrite (list_fmap_ext _ id); [by rewrite list_fmap_id, take_drop_while|].
  intros i x _. apply event_with_group_fst.
Qed.

(** C7: the group shown beside an event on the index is absent exactly for
    a joint event; otherwise it is [find_by(event.group_slug)], which by
    the repository's law has that slug. *)
Theorem scan_events_group `{!GroupRepositoryLaws} evs e og :
  (e, og) ∈ upcoming (scan_events evs) ++ recent (scan_events evs) ->
  (truthy (Event.joint_with e) = true -> og = None) /\
  (truthy (Event.joint_with e) = false -> og = find_by (Event.group_slug e)) /\
  (forall g, og = Some g -> Group.slug g = Event.group_slug e).
Proof.
  destruct (scan_events_split evs) as [-> ->]. simpl. rewrite <- fmap_app.
  intros [Hp _]%elem_of_event_with_group. simpl in Hp.
  unfold event_with_group in Hp. destruct (truthy _); simplify_eq; split_and!; try done.
  intros g Hg. by apply find_by_slug.
Qed.
End Scan.

(** ** Concrete runs *)

Module PartitionExamples.
Definition g1 : Group.t := Group.mk "g1" "Group One" [].
Definition e_future : Event.t := Event.mk "e2" 200 "later" None "g1".
Definition e_past : Event.t := Event.mk "e1" 50 "earlier" None "g1".
Definition e_joint : Event.t := Event.mk "e3" 150 "joint" (Some "g2") "g1".
Definition store : ListStore.t := ListStore.mk [e_future; e_past] [g1] [] 100 100.
#[local] Existing Instance ListStore.group_repo.
#[local] Existing Instance ListStore.group_repo_laws.
Definition demo_groups : GroupRepository := ListStore.group_repo store.
#[local] Existing Instance demo_groups.

Example scan_desc_run :
  scan_events 100 [e_joint; e_future; e_past]
  = mk_scan [(e_joint, None); (e_future, Some g1)] [(e_past, Some g1)] Recent.
Proof. reflexivity. Qed.

Example scan_asc_run :
  scan_events 100 [e_past; e_future]
  = mk_scan [] [(e_past, Some g1); (e_future, Some g1)] Recent.
Proof. reflexivity. Qed.

Lemma past_event_recent_witness :
  event_with_group e_past ∈ recent (scan_events 100 [e_future; e_past]) /\
  e_past ∉ (fun p => p.1) <$> upcoming (scan_events 100 [e_future; e_past]).
Proof.
  apply past_event_recent.
  - apply list_elem_of_In. simpl. auto.
  - vm_compute. exact I.
Defined.

Lemma upcoming_not_past_witness :
  (100 <= Event.when (e_future, Some g1).1)%Z.
Proof.
  apply (upcoming_not_past 100 [e_future; e_past]).
  vm_compute. apply list_elem_of_In. simpl. auto.
Defined.

Lemma scan_events_desc_witness :
  upcoming (scan_events 100 [e_future; e_past])
    = event_with_group <$> filter (fun e => ~ is_past 100 e) [e_future; e_past] /\
  recent (scan_events 100 [e_future; e_past])
    = event_with_group <$> filter (fun e => is_past 100 e) [e_future; e_past].
Proof.
  apply scan_events_desc.
  repeat constructor; simpl; lia.
Defined.

Lemma scan_events_asc_no_upcoming_witness :
  upcoming (scan_events 100 [e_past; e_future]) = [].
Proof.
  apply scan_events_asc_no_upcoming.
  - repeat constructor; simpl; lia.
  - exists e_past. split; [apply list_elem_of_In; simpl; auto|vm_compute; exact I].
Defined.

Lemma scan_events_group_witness :
  (truthy (Event.joint_with e_joint) = true -> None = @None Group.t) /\
  (truthy (Event.joint_with e_joint) = false -> None = find_by (Event.group_slug e_joint)) /\
  (forall g, None = Some g -> Group.slug g = Event.group_slug e_joint).
Proof.
  apply (scan_events_group 100 [e_joint; e_future; e_past]).
  vm_compute. apply list_elem_of_In. simpl. auto.
Defined.
End PartitionExamples.
