(* ===== verification/Template.v ===== *)
(** * Template: the context values, the engine, and [SiteBuilder.render]

    [render] (lines 68-71 of [build.py]) looks the template up with
    [self.environment.get_template(template_name)], then opens [out_path]
    for writing, then renders the template against the context and writes
    the text.  [get_template] loads and compiles the source, so a missing
    template ([TemplateNotFound]) and one that does not parse
    ([TemplateSyntaxError]) raise before the output is opened; the
    opening comes before the rendering, so when a compiled template
    raises while rendering, the output file has already been truncated.

    Jinja's [FileSystemLoader] reads [templates/<name>] from the file
    system; its engine (parsing, autoescaping, evaluation) is not in
    [src/] and is the class [TemplateEngine]: whether a source compiles,
    and a function from the source text and the context to the rendered
    text, or [None] when rendering raises; a source that renders is one
    that compiles.  [tailwindify_html] (from [techcity.core.frontend]) is the
    class [HtmlFormatter].  The templates themselves are not in [src/];
    the variables each one reads, with their types, are its schema
    ([page_schema]), the structured parameter object per page type of the
    specification's design notes. *)

From S2P Require Import Prelude Path Fs Domain.

(** The values the passes put in a context. *)
Inductive value : Type :=
  | VPairs (ps : list (Event.t * option Group.t))
  | VGroups (gs : list Group.t)
  | VHackathons (hs : list Hackathon.t)
  | VInstant (t : instant)
  | VEvents (es : list Event.t)
  | VEvent (e : Event.t)
  | VGroup (g : Group.t)
  | VOptGroup (og : option Group.t)
  | VHackathon (h : Hackathon.t)
  | VMarkup (s : string).

#[export] Instance value_eq_dec : EqDecision value.
Proof. solve_decision. Defined.

(** A context is the keyword arguments unpacked into [template.render], in
    the order the dict literal gives them. *)
Abbreviation context := (list (string * value)).

(** The type of a context value: the constructor it is built with. *)
Inductive vtype : Type :=
  | TPairs | TGroups | THackathons | TInstant | TEvents | TEvent | TGroup | TOptGroup
  | THackathon | TMarkup.

#[export] Instance vtype_eq_dec : EqDecision vtype.
Proof. solve_decision. Defined.

Definition type_of (v : value) : vtype :=
  match v with
  | VPairs _ => TPairs | VGroups _ => TGroups | VHackathons _ => THackathons
  | VInstant _ => TInstant | VEvents _ => TEvents | VEvent _ => TEvent
  | VGroup _ => TGroup | VOptGroup _ => TOptGroup | VHackathon _ => THackathon
  | VMarkup _ => TMarkup
  end.

(** A schema: the variables a template reads, with their types. *)
Abbreviation schema := (list (string * vtype)).

Definition context_type (ctx : context) : schema :=
  map (fun kv => (kv.1, type_of kv.2)) ctx.

(** The variables each template of [templates/] reads, the "structured
    parameter object per page type" of the design notes: [index.html] the
    two event buckets, the groups, the hackathons and [now]; [event.html]
    the formatted description, the event and its optional group; and so
    on.  A name that is not a page template has no schema. *)
Definition page_schema (name : string) : option schema :=
  if String.eqb name "index.html" then
    Some [("upcoming_events_with_group", TPairs); ("recent_events_with_group", TPairs);
          ("groups", TGroups); ("hackathons", THackathons); ("now", TInstant)]
  else if String.eqb name "event.html" then
    Some [("description", TMarkup); ("event", TEvent); ("group", TOptGroup)]
  else if String.eqb name "group.html" then
    Some [("events", TEvents); ("group", TGroup); ("now", TInstant)]
  else if String.eqb name "group_events.html" then
    Some [("events", TEvents); ("group", TGroup)]
  else if String.eqb name "hackathon.html" then Some [("hackathon", THackathon)]
  else if String.eqb name "palette.html" then
    Some [("groups", TGroups); ("hackathons", THackathons)]
  else None.

(** [ctx] has the schema of template [name]. *)
Definition typed_context (name : string) (ctx : context) : Prop :=
  page_schema name = Some (context_type ctx).

(** Jinja's [Environment]: [get_template] parses and compiles the source
    ([compiles]; a [TemplateSyntaxError] is raised there), and [render]
    evaluates a compiled template against a context ([render_source],
    [None] when it raises).  Only a source that compiles renders. *)
Class TemplateEngine : Type := {
  compiles : string -> bool;
  render_source : string -> context -> option string;
  render_compiles : forall src ctx text, render_source src ctx = Some text -> compiles src = true
}.

Class HtmlFormatter : Type := {
  tailwindify_html : string -> string
}.

Section Render.
Context {engine : TemplateEngine}.

(** The text of [templates/<name>] if it is a file. *)
Definition template_source (m : gmap path node) (templates : path) (name : string)
    : option string :=
  match locate m (templates /ₚ name) with
  | inr q => match node_at m q with Some (File src) => Some src | _ => None end
  | inl _ => None
  end.

(** [self.environment.get_template(name)] with the loader rooted at
    [templates]: [TemplateNotFound] without the file, [TemplateSyntaxError]
    when its source does not compile, the compiled template otherwise. *)
Definition get_template (templates : path) (name : string) : M string := fun w =>
  match template_source (fs w) templates name with
  | Some src => if compiles src then Ok src w else Err (TemplateSyntaxError name) w
  | None => Err (TemplateNotFound name) w
  end.

(** [SiteBuilder.render(template_name, context, out_path)] *)
Definition render (templates : path) (template_name : string) (ctx : context)
    (out_path : path) : M unit :=
  src ← get_template templates template_name;
  f ← open_w out_path;
  match render_source src ctx with
  | Some text => write_handle f text
  | None => throw (TemplateError template_name)
  end.

(** ** Behaviour of [render] *)

Lemma open_w_Ok w p q :
  locate (fs w) p = inr q -> node_at (fs w) q <> Some Dir ->
  open_w p w = Ok q (set_fs w (<[q:=File ""]> (fs w))).
Proof. intros Hl Hd. unfold open_w. rewrite Hl. by destruct (node_at _ q) as [[]|]. Qed.

(** The successful run of [render], shared by the page lemmas. *)
Lemma render_Ok_write templates name ctx out_path w src q text :
  template_source (fs w) templates name = Some src ->
  locate (fs w) out_path = inr q -> node_at (fs w) q <> Some Dir ->
  render_source src ctx = Some text ->
  render templates name ctx out_path w = Ok tt (set_fs w (<[q:=File text]> (fs w))).
Proof.
  intros Ht Hl Hd Hr. unfold render, mbind, st_bind, bind at 1, get_template.
  rewrite Ht, (render_compiles _ _ _ Hr). unfold bind. rewrite (open_w_Ok w out_path q) by done.
  rewrite Hr. unfold write_handle. simpl. rewrite lookup_insert_eq.
  by rewrite insert_insert_eq.
Qed.

(** C8: with the template present and the output path resolving to an
    entry that is not a directory, [render] succeeds and its only effect
    is that this entry becomes a file holding exactly the engine's text. *)
Theorem render_writes templates name ctx out_path w src q text :
  template_source (fs w) templates name = Some src ->
  locate (fs w) out_path = inr q -> node_at (fs w) q <> Some Dir ->
  render_source src ctx = Some text ->
  render templates name ctx out_path w = Ok tt (set_fs w (<[q:=File text]> (fs w))).
Proof. apply render_Ok_write. Qed.

(** C9: a missing template raises [TemplateNotFound] before the output
    file is opened: nothing is written. *)
Theorem render_template_missing templates name ctx out_path w :
  template_source (fs w) templates name = None ->
  render templates name ctx out_path w = Err (TemplateNotFound name) w.
Proof. intros Ht. unfold render, mbind, st_bind, bind, get_template. by rewrite Ht. Qed.

(** C27: a template that does not compile raises [TemplateSyntaxError]
    from [get_template], before the output file is opened: nothing is
    written, whatever the context and the output path. *)
Theorem render_syntax_error templates name ctx out_path w src :
  template_source (fs w) templates name = Some src -> compiles src = false ->
  render templates name ctx out_path w = Err (TemplateSyntaxError name) w.
Proof. intros Ht Hc. unfold render, mbind, st_bind, bind, get_template. by rewrite Ht, Hc. Qed.

(** C10: when a template that compiles raises while rendering, the
    exception propagates after the output file was opened: the file is
    left truncated to "". *)
Theorem render_engine_error templates name ctx out_path w src q :
  template_source (fs w) templates name = Some src -> compiles src = true ->
  locate (fs w) out_path = inr q -> node_at (fs w) q <> Some Dir ->
  render_source src ctx = None ->
  render templates name ctx out_path w
    = Err (TemplateError name) (set_fs w (<[q:=File ""]> (fs w))).
Proof.
  intros Ht Hc Hl Hd Hr. unfold render, mbind, st_bind, bind at 1, get_template.
  rewrite Ht, Hc. unfold bind. rewrite (open_w_Ok w out_path q) by done. by rewrite Hr.
Qed.

(** C26: when the output file cannot be opened, [render] raises the
    [OSError] of [open] after loading and compiling the template and
    before rendering:
    a path whose directories do not resolve gives the resolution error,
    a path that names a directory [IsADirectoryError]; in both cases the
    file system is unchanged. *)
Theorem render_open_error templates name ctx out_path w src :
  template_source (fs w) templates name = Some src -> compiles src = true ->
  (forall e, locate (fs w) out_path = inl e ->
     render templates name ctx out_path w = Err (OSError e) w) /\
  (forall q, locate (fs w) out_path = inr q -> node_at (fs w) q = Some Dir ->
     render templates name ctx out_path w = Err (OSError (IsADirectoryError q)) w).
Proof.
  intros Ht Hc. split; [intros e He|intros q Hq Hd];
    unfold render, mbind, st_bind, bind, get_template, open_w; rewrite Ht, Hc; cbv beta iota;
    rewrite ?He, ?Hq, ?Hd; done.
Qed.

Lemma get_template_wf templates name : respects (preserved wf_world) (get_template templates name).
Proof.
  intros w Hw. unfold get_template. by destruct (template_source _ _ _); [destruct (compiles _)|].
Qed.

Lemma render_wf templates name ctx out_path :
  respects (preserved wf_world) (render templates name ctx out_path).
Proof.
  unfold render, mbind, st_bind. apply respects_bind; [apply _|apply get_template_wf|].
  intros src. apply respects_bind; [apply _|apply open_w_wf|]. intros f.
  destruct (render_source src ctx); [apply write_handle_wf|apply respects_throw; apply _].
Qed.
Lemma get_template_grows templates name : respects grows (get_template templates name).
Proof.
  intros w. unfold get_template. destruct (template_source _ _ _); [destruct (compiles _)|]; reflexivity.
Qed.

Lemma render_grows templates name ctx out_path :
  respects grows (render templates name ctx out_path).
Proof.
  unfold render, mbind, st_bind. apply respects_bind; [apply _|apply get_template_grows|].
  intros src. apply respects_bind; [apply _|apply open_w_grows|]. intros f.
  destruct (render_source src ctx); [apply write_handle_grows|apply respects_throw; apply _].
Qed.

(** A successful [render] to a path without ".." leaves a file there. *)
(** A [render] that returns wrote the engine's text at [p] and nothing
    else. *)
Lemma render_Ok_inv templates name ctx p w w' :
  ".." ∉ p -> render templates name ctx p w = Ok tt w' ->
  exists src text, template_source (fs w) templates name = Some src /\
    render_source src ctx = Some text /\ fs w' = <[p:=File text]> (fs w).
Proof.
  intros Hn H. unfold render, mbind, st_bind, bind, get_template in H.
  destruct (template_source _ _ _) as [src|]; [|discriminate].
  destruct (compiles src); [|discriminate].
  unfold open_w in H. destruct (locate (fs w) p) as [|q] eqn:L; [discriminate|].
  apply locate_plain in L as ->; [|done].
  destruct (node_at (fs w) p) as [[]|] eqn:N; try discriminate;
    (destruct p as [|c0 p0]; [simpl in N; congruence|]);
    destruct (render_source src ctx) as [text|] eqn:Rs; try discriminate;
    unfold write_handle in H; simpl in H; rewrite lookup_insert_eq in H;
    injection H as <-; exists src, text; split_and!; try done; by rewrite insert_insert_eq.
Qed.

Lemma render_Ok_file templates name ctx p w w' :
  ".." ∉ p -> render templates name ctx p w = Ok tt w' ->
  exists c, fs w' !! p = Some (File c).
Proof.
  intros Hn H. destruct (render_Ok_inv _ _ _ _ _ _ Hn H) as (src & text & _ & _ & ->).
  rewrite lookup_insert_eq. eauto.
Qed.
End Render.

#[export] Hint Resolve get_template_wf render_wf get_template_grows render_grows : build.

Module TemplateExamples.
#[local] Program Instance demo_engine : TemplateEngine :=
  {| compiles src := bool_decide (src <> "{%");
     render_source src ctx := if decide (src = "boom" \/ src = "{%") then None else Some (src +:+ "!") |}.
Next Obligation.
  intros src ctx text. cbv beta. case_decide as Hn; [discriminate|].
  intros _. apply bool_decide_eq_true. tauto.
Qed.

Definition m0 : gmap path node :=
  list_to_map [(["tpl"], Dir); (["tpl"; "page.html"], File "T");
               (["tpl"; "bad.html"], File "boom"); (["tpl"; "broken.html"], File "{%")].
Definition w0 : world := mk_world m0 [].

Lemma render_writes_witness :
  render ["tpl"] "page.html" [] ["out.html"] w0
    = Ok tt (set_fs w0 (<[["out.html"]:=File "T!"]> (fs w0))).
Proof.
  apply (render_writes _ _ _ _ _ "T"); vm_compute; first [reflexivity | discriminate].
Defined.

Lemma render_template_missing_witness :
  render ["tpl"] "missing.html" [] ["out.html"] w0 = Err (TemplateNotFound "missing.html") w0.
Proof. apply render_template_missing. vm_compute. reflexivity. Defined.

Lemma render_engine_error_witness :
  render ["tpl"] "bad.html" [] ["out.html"] w0
    = Err (TemplateError "bad.html") (set_fs w0 (<[["out.html"]:=File ""]> (fs w0))).
Proof.
  apply (render_engine_error _ _ _ _ _ "boom"); vm_compute; first [reflexivity | discriminate].
Defined.
Lemma render_open_error_witness :
  render ["tpl"] "page.html" [] ["nodir"; "out.html"] w0
    = Err (OSError (FileNotFoundError ["nodir"])) w0 /\
  render ["tpl"] "page.html" [] ["tpl"] w0 = Err (OSError (IsADirectoryError ["tpl"])) w0.
Proof.
  destruct (render_open_error ["tpl"] "page.html" [] ["nodir"; "out.html"] w0 "T")
    as [H1 _]; [vm_compute; reflexivity..|].
  destruct (render_open_error ["tpl"] "page.html" [] ["tpl"] w0 "T")
    as [_ H2]; [vm_compute; reflexivity..|].
  split; [apply H1|apply H2]; vm_compute; reflexivity.
Defined.

Lemma render_syntax_error_witness :
  render ["tpl"] "broken.html" [] ["out.html"] w0 = Err (TemplateSyntaxError "broken.html") w0.
Proof. apply (render_syntax_error _ _ _ _ _ "{%"); vm_compute; reflexivity. Defined.
End TemplateExamples.
