(* ===== verification/Builder.v ===== *)
(** * Builder: [SiteBuilder] and its passes

    [SiteBuilder.__init__] (lines 32-44) keeps [now] and [out] and puts
    [templates] and [public] beside the module; [build] (46-66) runs the
    passes in order.  Each pass is one definition below, with the lines it
    translates; the repositories, the engine and [tailwindify_html] are the
    type classes of [Repos] and [Template], in the context of the section.
    [copy_static] walks [public] as [os.walk] does (top-down, a directory
    listed when the walk reaches it) with the fuel of the header.
    Section [PassLemmas] proves that every pass preserves [Fs.wf] and
    respects [Fs.grows]; Section [Layout] collects the page each pass
    leaves and chains them through the later passes to [site_layout]. *)

From S2P Require Import Prelude Path Fs Domain Repos Partition Template.

Record SiteBuilder : Type := mk_builder {
  now : instant;
  out : path;
  templates : path;
  public : path
}.

(** [SiteBuilder(now, out)] in the directory [service_path] of
    [build.py]. *)
Definition new_site_builder (now : instant) (out service_path : path) : SiteBuilder :=
  mk_builder now out (service_path /ₚ "templates") (service_path /ₚ "public").

Section Passes.
Context {engine : TemplateEngine} {formatter : HtmlFormatter}
        {event_repo : EventRepository} {group_repo : GroupRepository}
        {hackathon_repo : HackathonRepository}.
Context (sb : SiteBuilder).

Definition render_at (name : string) (ctx : context) (out_path : path) : M unit :=
  render (templates sb) name ctx out_path.

(** [render_index], lines 85-111. *)
Definition index_context : context :=
  let sc := scan_events (now sb) (filter_around (now sb)) in
  [("upcoming_events_with_group", VPairs (reverse (upcoming sc)));
   ("recent_events_with_group", VPairs (recent sc));
   ("groups", VGroups groups_all);
   ("hackathons", VHackathons hackathons_all);
   ("now", VInstant (now sb))].

Definition render_index : M unit :=
  print "Rendering index";;
  render_at "index.html" index_context (out sb /ₚ "index.html").

(** The body of the loop of [render_events], lines 123-131. *)
Definition event_context (e : Event.t) : context :=
  [("description", VMarkup (tailwindify_html ("<div>" +:+ Event.description e +:+ "</div>")));
   ("event", VEvent e);
   ("group", VOptGroup (find_by (Event.group_slug e)))].

Definition render_event (events_dir : path) (e : Event.t) : M unit :=
  let event_dir := events_dir /ₚ Event.id e in
  mkdir event_dir;;
  render_at "event.html" (event_context e) (event_dir /ₚ "index.html").

(** [render_events], lines 113-131. *)
Definition render_events : M unit :=
  print "Rendering events";;
  let events_dir := out sb /ₚ "events" in
  mkdir events_dir;;
  for_each (render_event events_dir) events_all.

(** The context of [render_group], lines 157-161. *)
Definition group_context (group : Group.t) (events : list Event.t) : context :=
  [("events", VEvents events); ("group", VGroup group); ("now", VInstant (now sb))].

(** [render_group], lines 147-162. *)
Definition render_group (group : Group.t) (events : list Event.t) (groups_dir : path)
    : M unit :=
  print ("Rendering group: " +:+ Group.name group);;
  let group_dir := groups_dir /ₚ Group.slug group in
  mkdir group_dir;;
  render_at "group.html" (group_context group events) (group_dir /ₚ "index.html").

(** The context of [render_group_events], lines 174-177. *)
Definition group_events_context (group : Group.t) (events : list Event.t) : context :=
  [("events", VEvents events); ("group", VGroup group)].

(** [render_group_events], lines 164-178. *)
Definition render_group_events (group : Group.t) (events : list Event.t)
    (groups_dir : path) : M unit :=
  print ("Rendering group events: " +:+ Group.name group);;
  let events_dir := groups_dir /ₚ Group.slug group /ₚ "events" in
  mkdir events_dir;;
  render_at "group_events.html" (group_events_context group events)
    (events_dir /ₚ "index.html").

(** [render_groups], lines 133-145. *)
Definition render_groups : M unit :=
  let groups_dir := out sb /ₚ "groups" in
  mkdir groups_dir;;
  for_each (fun group =>
    render_group group (filter_group (Group.slug group) (now sb) None) groups_dir;;
    render_group_events group
      (filter_group (Group.slug group) (now sb) (Some old_delta)) groups_dir)
    groups_all.

(** The context of [render_hackathon], lines 196-198. *)
Definition hackathon_context (hackathon : Hackathon.t) : context :=
  [("hackathon", VHackathon hackathon)].

(** [render_hackathon], lines 187-199. *)
Definition render_hackathon (hackathon : Hackathon.t) (hackathons_dir : path) : M unit :=
  print ("Rendering hackathon: " +:+ Hackathon.name hackathon);;
  let hackathon_dir := hackathons_dir /ₚ Hackathon.slug hackathon in
  mkdir hackathon_dir;;
  render_at "hackathon.html" (hackathon_context hackathon) (hackathon_dir /ₚ "index.html").

(** [render_hackathons], lines 180-185. *)
Definition render_hackathons : M unit :=
  let hackathons_dir := out sb /ₚ "hackathons" in
  mkdir hackathons_dir;;
  for_each (fun h => render_hackathon h hackathons_dir) hackathons_all.

(** The context of [render_palette], lines 214-217. *)
Definition palette_context : context :=
  [("groups", VGroups groups_all); ("hackathons", VHackathons hackathons_all)].

(** [render_palette], lines 201-220: written into the template
    directory, not into [out]. *)
Definition render_palette : M unit :=
  render_at "palette.html" palette_context
    (templates sb /ₚ "palette-rendered.html").

(** The walk of [copy_static], lines 75-83: list [dirpath], create
    [out / relpath], copy its files, then walk its subdirectories. *)
Fixpoint walk_copy (fuel : nat) (dirpath rel : path) : M unit :=
  match fuel with
  | O => throw (OSError (RecursionBound dirpath))
  | S fuel' => fun w =>
      match scandir (fs w) dirpath with
      | None => Ok tt w
      | Some (dirs, filenames) =>
          (let outpath := out sb ++ rel in
           mkdir outpath;;
           for_each (fun filename =>
             copyfile (dirpath ++ [filename]) (outpath ++ [filename])) filenames;;
           for_each (fun d => walk_copy fuel' (dirpath ++ [d]) (rel ++ [d])) dirs) w
      end
  end.

(** [copy_static], lines 73-83. *)
Definition copy_static : M unit :=
  print "Copying static files from `public` to `out`";;
  ((fun w => walk_copy (S (size (fs w))) (public sb) [] w) : M unit).

(** [build], lines 46-66; [end_time] is the second clock reading. *)
Definition build (end_time : instant) : M unit :=
  print "Generating content to `out` directory";;
  mkdir (out sb);;
  render_index;;
  render_events;;
  render_groups;;
  render_hackathons;;
  render_palette;;
  copy_static;;
  print_elapsed (end_time - now sb).
End Passes.

Section Main.
Context {engine : TemplateEngine} {formatter : HtmlFormatter}
        {event_repo : EventRepository} {group_repo : GroupRepository}
        {hackathon_repo : HackathonRepository}.

(** The module-level [build()], lines 22-26: [now] is the clock reading
    at the start, [out] is [techcity.constants.out], and the builder's
    directory is [service_path]; [end_time] is the reading
    [SiteBuilder.build] takes at its end. *)
Definition main_build (clock end_time : instant) (out_dir service_path : path) : M unit :=
  build (new_site_builder clock out_dir service_path) end_time.
End Main.

(** ** Lemmas *)

Lemma resolve_dirs_app m cur a b :
  resolve_dirs m cur (a ++ b) =
  match resolve_dirs m cur a with inl e => inl e | inr c => resolve_dirs m c b end.
Proof.
  revert cur. induction a as [|x a IH]; intros cur; simpl; [done|].
  case_decide; [apply IH|]. by destruct (node_at m (cur ++ [x])) as [[]|].
Qed.

Lemma mkdir_existing p q w :
  locate (fs w) p = inr q -> node_at (fs w) q = Some Dir -> mkdir p w = Ok tt w.
Proof. intros Hl Hd. unfold mkdir. by rewrite Hl, Hd. Qed.

Lemma resolve_dirs_insert_fresh m k n cur comps q :
  m !! k = None -> resolve_dirs m cur comps = inr q ->
  resolve_dirs (<[k:=n]> m) cur comps = inr q.
Proof.
  intros Hk. revert cur. induction comps as [|c comps IH]; intros cur; simpl; [done|].
  case_decide; [apply IH|].
  destruct (node_at m (cur ++ [c])) as [[]|] eqn:E; try discriminate.
  intros R. assert (node_at (<[k:=n]> m) (cur ++ [c]) = Some Dir) as ->; [|by apply IH].
  destruct (cur ++ [c]) as [|x l] eqn:El; [by destruct cur|]. simpl in *.
  rewrite lookup_insert_ne; [done|]. intros ->. congruence.
Qed.

Lemma locate_insert_fresh m k n p q :
  m !! k = None -> locate m p = inr q -> locate (<[k:=n]> m) p = inr q.
Proof.
  intros Hk. unfold locate. destruct p; [done|].
  destruct (resolve_dirs m [] _) eqn:R; [done|].
  by rewrite (resolve_dirs_insert_fresh m k n _ _ _ Hk R).
Qed.

Lemma template_source_insert_fresh `{TemplateEngine} m k n t name src :
  m !! k = None -> template_source m t name = Some src ->
  template_source (<[k:=n]> m) t name = Some src.
Proof.
  intros Hk. unfold template_source.
  destruct (locate m _) as [|q] eqn:L; [done|].
  rewrite (locate_insert_fresh m k n _ q Hk L).
  destruct q as [|x q]; simpl; [done|].
  destruct (m !! (x :: q)) as [[]|] eqn:E; try done.
  rewrite lookup_insert_ne; [by rewrite E|]. intros ->. congruence.
Qed.

(** Creating [p / c] below an existing directory [p]: the entry becomes a
    directory and nothing else changes. *)
Lemma mkdir_child w p c :
  wf_world w -> node_at (fs w) p = Some Dir -> ".." ∉ p -> simple_name c ->
  (forall t, fs w !! (p ++ [c]) <> Some (File t)) ->
  mkdir (p /ₚ c) w = Ok tt (set_fs w (<[p ++ [c]:=Dir]> (fs w))).
Proof.
  intros Hw Hd Hn Hc Hf. rewrite join_simple by done. unfold mkdir.
  rewrite locate_child by (try done; by destruct Hc as (_ & _ & ? & _)).
  destruct (p ++ [c]) as [|x l] eqn:E; [by destruct p|]. simpl.
  destruct (fs w !! (x :: l)) as [[|t]|] eqn:F; [|by destruct (Hf t)|done].
  unfold set_fs. rewrite insert_id by done. by destruct w.
Qed.

Lemma index_html_simple : simple_name "index.html".
Proof. apply (bool_decide_unpack _). vm_compute. reflexivity. Qed.

Lemma events_simple : simple_name "events".
Proof. apply (bool_decide_unpack _). vm_compute. reflexivity. Qed.

Lemma join_dotdot p : p /ₚ ".." = p ++ [".."].
Proof. reflexivity. Qed.

Lemma groups_simple : simple_name "groups".
Proof. apply (bool_decide_unpack _). vm_compute. reflexivity. Qed.

Lemma hackathons_simple : simple_name "hackathons".
Proof. apply (bool_decide_unpack _). vm_compute. reflexivity. Qed.

Lemma palette_rendered_simple : simple_name "palette-rendered.html".
Proof. apply (bool_decide_unpack _). vm_compute. reflexivity. Qed.

#[export] Hint Resolve index_html_simple events_simple groups_simple hackathons_simple
  palette_rendered_simple : build.

(** [p] names a file in [w]. *)
Definition has_file (w : world) (p : path) : Prop := exists c, fs w !! p = Some (File c).

Lemma has_file_grows w w' p : grows w w' -> has_file w p -> has_file w' p.
Proof. intros G [c H]. destruct (G _ _ H) as ([|c'] & H' & E); [discriminate E|by exists c']. Qed.

Lemma Ok_grows {A} (m : M A) w a w' : respects grows m -> m w = Ok a w' -> grows w w'.
Proof. intros Hm H. specialize (Hm w). by rewrite H in Hm. Qed.

Lemma simple_not_dotdot s : simple_name s -> s <> "..".
Proof. by intros (_ & _ & ? & _). Qed.

#[export] Hint Resolve simple_not_dotdot : build.

Section PassLemmas.
Context {engine : TemplateEngine} {formatter : HtmlFormatter}
        {event_repo : EventRepository} {group_repo : GroupRepository}
        {hackathon_repo : HackathonRepository}.
Context (sb : SiteBuilder).

(** The walk respects every preorder that [mkdir] and [copyfile]
    respect, whatever its fuel. *)
Lemma walk_copy_respects (R : relation world) `{!PreOrder R} :
  (forall p, respects R (mkdir p)) -> (forall src dst, respects R (copyfile src dst)) ->
  forall fuel dirpath rel, respects R (walk_copy sb fuel dirpath rel).
Proof.
  intros Hm Hc fuel. induction (lt_wf fuel) as [fuel _ IH]. intros dirpath rel.
  destruct fuel as [|fuel']; simpl; [apply respects_throw, _|].
  intros w. destruct (scandir (fs w) dirpath) as [[dirs files]|]; [|reflexivity].
  revert w. unfold mbind, st_bind.
  repeat first [ apply respects_bind; [apply _| |] | apply respects_for_each; [apply _|]
               | apply IH; lia | done | intros ? ].
Qed.

Lemma walk_copy_wf fuel dirpath rel :
  respects (preserved wf_world) (walk_copy sb fuel dirpath rel).
Proof. apply walk_copy_respects; [apply _|apply mkdir_wf|apply copyfile_wf]. Qed.

Lemma render_at_wf name ctx p : respects (preserved wf_world) (render_at sb name ctx p).
Proof. apply render_wf. Qed.

#[local] Hint Resolve walk_copy_wf render_at_wf : build.

Lemma walk_copy_grows fuel dirpath rel : respects grows (walk_copy sb fuel dirpath rel).
Proof. apply walk_copy_respects; [apply _|apply mkdir_grows|apply copyfile_grows]. Qed.

Lemma render_at_grows name ctx p : respects grows (render_at sb name ctx p).
Proof. apply render_grows. Qed.

#[local] Hint Resolve walk_copy_grows render_at_grows : build.

Ltac pass_wf :=
  unfold mbind, st_bind;
  repeat first [ apply respects_bind; [apply _| |]
               | apply respects_for_each; [apply _|]
               | solve [eauto with build typeclass_instances]
               | intros ? ].

Lemma render_index_wf : respects (preserved wf_world) (render_index sb).
Proof. unfold render_index. pass_wf. Qed.

Lemma render_events_wf : respects (preserved wf_world) (render_events sb).
Proof. unfold render_events, render_event. pass_wf. Qed.

Lemma render_groups_wf : respects (preserved wf_world) (render_groups sb).
Proof. unfold render_groups, render_group, render_group_events. pass_wf. Qed.

Lemma render_hackathons_wf : respects (preserved wf_world) (render_hackathons sb).
Proof. unfold render_hackathons, render_hackathon. pass_wf. Qed.

Lemma render_palette_wf : respects (preserved wf_world) (render_palette sb).
Proof. apply render_at_wf. Qed.

Lemma copy_static_wf : respects (preserved wf_world) (copy_static sb).
Proof.
  unfold copy_static, mbind, st_bind. apply respects_bind; [apply _|apply print_wf|].
  intros _ w. apply walk_copy_wf.
Qed.

Lemma render_index_grows : respects grows (render_index sb).
Proof. unfold render_index. pass_wf. Qed.

Lemma render_event_grows d e : respects grows (render_event sb d e).
Proof. unfold render_event. pass_wf. Qed.

Lemma render_events_grows : respects grows (render_events sb).
Proof. unfold render_events, render_event. pass_wf. Qed.

Lemma render_group_grows g evs d : respects grows (render_group sb g evs d).
Proof. unfold render_group. pass_wf. Qed.

Lemma render_group_events_grows g evs d : respects grows (render_group_events sb g evs d).
Proof. unfold render_group_events. pass_wf. Qed.

Lemma render_groups_grows : respects grows (render_groups sb).
Proof. unfold render_groups, render_group, render_group_events. pass_wf. Qed.

Lemma render_hackathon_grows h d : respects grows (render_hackathon sb h d).
Proof. unfold render_hackathon. pass_wf. Qed.

Lemma render_hackathons_grows : respects grows (render_hackathons sb).
Proof. unfold render_hackathons, render_hackathon. pass_wf. Qed.

Lemma render_palette_grows : respects grows (render_palette sb).
Proof. apply render_at_grows. Qed.

Lemma copy_static_grows : respects grows (copy_static sb).
Proof.
  unfold copy_static, mbind, st_bind. apply respects_bind; [apply _|apply print_grows|].
  intros _ w. apply walk_copy_grows.
Qed.

#[local] Hint Resolve render_index_wf render_events_wf render_groups_wf
  render_hackathons_wf render_palette_wf copy_static_wf : build.

(** Whether it completes or aborts, [build] keeps the file system well
    formed. *)
Lemma build_wf end_time : respects (preserved wf_world) (build sb end_time).
Proof. unfold build. pass_wf. Qed.

(** C11: for an event whose id is a simple name, below an existing
    [events] directory, [render_event] creates [events/<id>] (or keeps
    it) and writes [events/<id>/index.html] with the engine's text for
    the event's context; nothing else changes. *)
Theorem render_event_page e events_dir w src text :
  wf_world w -> node_at (fs w) events_dir = Some Dir -> ".." ∉ events_dir ->
  simple_name (Event.id e) ->
  (forall t, fs w !! (events_dir ++ [Event.id e]) <> Some (File t)) ->
  fs w !! (events_dir ++ [Event.id e; "index.html"]) <> Some Dir ->
  template_source (fs w) (templates sb) "event.html" = Some src ->
  render_source src (event_context e) = Some text ->
  render_event sb events_dir e w =
    Ok tt (mk_world (<[events_dir ++ [Event.id e; "index.html"] := File text]>
                      (<[events_dir ++ [Event.id e] := Dir]> (fs w))) (stdout w)).
Proof.
  intros Hw Hd Hn Hid Hf Hnd Ht Hr.
  set (d := events_dir ++ [Event.id e]).
  assert (d <> []) as Hdne by (subst d; by destruct events_dir).
  unfold render_event, mbind, st_bind, bind at 1.
  rewrite mkdir_child by done. fold d.
  set (w1 := set_fs w (<[d:=Dir]> (fs w))).
  assert (wf_world w1) as Hw1.
  { pose proof (mkdir_wf (events_dir /ₚ Event.id e) w Hw) as Hw'.
    by rewrite mkdir_child in Hw'. }
  assert (node_at (fs w1) d = Some Dir) as Hd1.
  { simpl. rewrite node_at_insert by done. by rewrite decide_True. }
  assert (".." ∉ d) as Hn1 by (destruct Hid as (_ & _ & ? & _); set_solver).
  rewrite join_simple, join_simple by auto with build.
  unfold render_at. rewrite (render_Ok_write _ _ _ _ w1 src (d ++ ["index.html"]) text).
  - subst w1. unfold set_fs. simpl. subst d. by rewrite <- app_assoc.
  - subst w1. simpl. destruct (fs w !! d) as [[|t]|] eqn:F.
    + by rewrite insert_id.
    + by destruct (Hf t).
    + by apply template_source_insert_fresh.
  - apply locate_child; auto; discriminate.
  - simpl. rewrite node_at_insert by done. rewrite decide_False.
    + subst d. rewrite <- app_assoc. simpl. destruct events_dir; exact Hnd.
    + intros E. apply (f_equal length) in E. rewrite length_app in E. simpl in E. lia.
  - done.
Qed.

(** C13: the index and the event page disagree on a joint event: the
    index shows no group, while [render_events] still calls
    [find_by(event.group_slug)] and renders whatever group it returns. *)
Theorem joint_event_group_disagree e g :
  truthy (Event.joint_with e) = true -> find_by (Event.group_slug e) = Some g ->
  event_with_group e = (e, None) /\ ("group", VOptGroup (Some g)) ∈ event_context e.
Proof.
  intros Hj Hg. unfold event_with_group, event_context. rewrite Hj, Hg.
  split; [done|]. set_solver.
Qed.

(** C14: when [out] cannot be created ([out]'s parent is missing or is a
    file), [build] raises that error right after its first message: no
    pass runs and nothing is written. *)
Theorem build_out_unreachable end_time w e :
  locate (fs w) (out sb) = inl e ->
  build sb end_time w
    = Err (OSError e) (mk_world (fs w) (stdout w ++ [Text "Generating content to `out` directory"])).
Proof. intros Hl. unfold build, mbind, st_bind, bind, print, mkdir. simpl. by rewrite Hl. Qed.

(** C15: [os.walk] swallows the error of listing its top: when [public]
    is missing (or not a directory) [copy_static] prints its message and
    copies nothing. *)
Theorem copy_static_no_public w :
  scandir (fs w) (public sb) = None ->
  copy_static sb w
    = Ok tt (mk_world (fs w) (stdout w ++ [Text "Copying static files from `public` to `out`"])).
Proof. intros Hs. unfold copy_static, mbind, st_bind, bind, print. simpl. by rewrite Hs. Qed.

(** C12: an event whose id is ".." is not confined to [events/]: pathlib
    keeps ".." as a component, the operating system resolves
    [events/../index.html] to [index.html] at the root of [out], and
    [render_event] overwrites the index page with the event page. *)
Theorem render_event_dotdot e w src text :
  wf_world w -> node_at (fs w) (out sb) = Some Dir -> ".." ∉ out sb ->
  fs w !! (out sb ++ ["events"]) = Some Dir -> Event.id e = ".." ->
  node_at (fs w) (out sb ++ ["index.html"]) <> Some Dir ->
  template_source (fs w) (templates sb) "event.html" = Some src ->
  render_source src (event_context e) = Some text ->
  render_event sb (out sb /ₚ "events") e w
    = Ok tt (set_fs w (<[out sb ++ ["index.html"] := File text]> (fs w))).
Proof.
  intros Hw Hd Hn He Hid Hi Ht Hr. rewrite join_simple by auto with build.
  assert (resolve_dirs (fs w) [] (out sb ++ ["events"]) = inr (out sb ++ ["events"])) as R.
  { apply (resolve_dirs_ok _ [] (out sb ++ ["events"])); [done| |set_solver]. simpl. by destruct (out sb). }
  unfold render_event, mbind, st_bind, bind at 1. rewrite Hid, join_dotdot.
  rewrite (mkdir_existing _ (out sb)); last done.
  2:{ by rewrite locate_snoc, R, decide_True, removelast_last. }
  rewrite join_simple by auto with build. unfold render_at.
  apply (render_Ok_write _ _ _ _ w src); [done| |done|done].
  rewrite locate_snoc, resolve_dirs_app, R. simpl.
  by rewrite removelast_last.
Qed.
End PassLemmas.

Section Layout.
Context {engine : TemplateEngine} {formatter : HtmlFormatter}
        {event_repo : EventRepository} {group_repo : GroupRepository}
        {hackathon_repo : HackathonRepository}.
Context (sb : SiteBuilder).

Lemma render_at_file name ctx p w w' :
  ".." ∉ p -> render_at sb name ctx p w = Ok tt w' -> has_file w' p.
Proof. apply render_Ok_file. Qed.

Ltac grab_render Hr :=
  match goal with H : render_at _ _ _ _ _ = Ok _ _ |- _ => rename H into Hr end.

Lemma render_event_file d e w w' :
  ".." ∉ d -> simple_name (Event.id e) -> render_event sb d e w = Ok tt w' ->
  has_file w' (d ++ [Event.id e; "index.html"]).
Proof.
  intros Hd Hid H. unfold render_event, mbind, st_bind in H. inv_ok. grab_render Hr.
  rewrite !join_simple in Hr by auto with build.
  apply render_at_file in Hr; [by rewrite <- app_assoc in Hr|].
  pose proof (simple_not_dotdot _ Hid). set_solver.
Qed.

Lemma render_group_file g evs d w w' :
  ".." ∉ d -> simple_name (Group.slug g) -> render_group sb g evs d w = Ok tt w' ->
  has_file w' (d ++ [Group.slug g; "index.html"]).
Proof.
  intros Hd Hs H. unfold render_group, mbind, st_bind in H. inv_ok. grab_render Hr.
  rewrite !join_simple in Hr by auto with build.
  apply render_at_file in Hr; [by rewrite <- app_assoc in Hr|].
  pose proof (simple_not_dotdot _ Hs). set_solver.
Qed.

Lemma render_group_events_file g evs d w w' :
  ".." ∉ d -> simple_name (Group.slug g) -> render_group_events sb g evs d w = Ok tt w' ->
  has_file w' (d ++ [Group.slug g; "events"; "index.html"]).
Proof.
  intros Hd Hs H. unfold render_group_events, mbind, st_bind in H. inv_ok. grab_render Hr.
  rewrite !join_simple in Hr by auto with build.
  apply render_at_file in Hr; [by rewrite <- !app_assoc in Hr|].
  pose proof (simple_not_dotdot _ Hs). set_solver.
Qed.

Lemma render_hackathon_file h d w w' :
  ".." ∉ d -> simple_name (Hackathon.slug h) -> render_hackathon sb h d w = Ok tt w' ->
  has_file w' (d ++ [Hackathon.slug h; "index.html"]).
Proof.
  intros Hd Hs H. unfold render_hackathon, mbind, st_bind in H. inv_ok. grab_render Hr.
  rewrite !join_simple in Hr by auto with build.
  apply render_at_file in Hr; [by rewrite <- app_assoc in Hr|].
  pose proof (simple_not_dotdot _ Hs). set_solver.
Qed.

(** The output layout of the specification (section 6), for the
    entities whose identifier is a simple name. *)
Definition site_layout (w' : world) : Prop :=
  has_file w' (out sb ++ ["index.html"]) /\
  (forall e, e ∈ events_all -> simple_name (Event.id e) ->
     has_file w' (out sb ++ ["events"; Event.id e; "index.html"])) /\
  (forall g, g ∈ groups_all -> simple_name (Group.slug g) ->
     has_file w' (out sb ++ ["groups"; Group.slug g; "index.html"]) /\
     has_file w' (out sb ++ ["groups"; Group.slug g; "events"; "index.html"])) /\
  (forall h, h ∈ hackathons_all -> simple_name (Hackathon.slug h) ->
     has_file w' (out sb ++ ["hackathons"; Hackathon.slug h; "index.html"])) /\
  has_file w' (templates sb ++ ["palette-rendered.html"]).

Hypothesis Hout : ".." ∉ out sb.

Lemma render_index_file w w' :
  render_index sb w = Ok tt w' -> has_file w' (out sb ++ ["index.html"]).
Proof.
  intros H. unfold render_index, mbind, st_bind in H. inv_ok. grab_render Hr.
  rewrite join_simple in Hr by auto with build. apply render_at_file in Hr; [done|set_solver].
Qed.

Lemma render_palette_file w w' :
  ".." ∉ templates sb -> render_palette sb w = Ok tt w' ->
  has_file w' (templates sb ++ ["palette-rendered.html"]).
Proof.
  intros Ht H. unfold render_palette in H. grab_render Hr.
  rewrite join_simple in Hr by auto with build. apply render_at_file in Hr; [done|set_solver].
Qed.

Lemma render_events_files w w' e :
  render_events sb w = Ok tt w' -> e ∈ events_all -> simple_name (Event.id e) ->
  has_file w' (out sb ++ ["events"; Event.id e; "index.html"]).
Proof.
  intros H He Hid. unfold render_events, mbind, st_bind in H. inv_ok.
  match goal with Hf : for_each _ _ _ = Ok _ _ |- _ => rename Hf into Hf' end.
  rewrite join_simple in Hf' by auto with build.
  destruct (for_each_Ok_elem grows _ _ _ _ e (fun x => render_event_grows sb _ x) Hf' He)
      as (s1 & s2 & Hr & G).
  apply render_event_file in Hr; [|set_solver|done].
  rewrite <- app_assoc in Hr. by apply (has_file_grows s2).
Qed.

Lemma render_groups_files w w' g :
  render_groups sb w = Ok tt w' -> g ∈ groups_all -> simple_name (Group.slug g) ->
  has_file w' (out sb ++ ["groups"; Group.slug g; "index.html"]) /\
  has_file w' (out sb ++ ["groups"; Group.slug g; "events"; "index.html"]).
Proof.
  intros H Hg Hs. unfold render_groups, mbind, st_bind in H. inv_ok.
  assert (forall y, respects grows (fun w =>
    bind (render_group sb y (filter_group (Group.slug y) (now sb) None) (out sb /ₚ "groups"))
      (fun _ => render_group_events sb y
                  (filter_group (Group.slug y) (now sb) (Some old_delta)) (out sb /ₚ "groups")) w))
    as Hb.
  { intros y. apply respects_bind; [apply _|apply render_group_grows|].
    intros _. apply render_group_events_grows. }
  match goal with Hf : for_each _ _ _ = Ok _ _ |- _ =>
    destruct (for_each_Ok_elem grows _ _ _ _ g Hb Hf Hg) as (s1 & s2 & Hr & G) end.
  cbv beta in Hr. inv_ok. rewrite join_simple in * by auto with build.
  repeat match goal with a : () |- _ => destruct a end.
  match goal with
  | H1 : render_group _ _ _ _ _ = Ok _ ?m, H2 : render_group_events _ _ _ _ ?m = Ok _ _ |- _ =>
      pose proof (Ok_grows _ _ _ _ (render_group_events_grows sb _ _ _) H2) as G2;
      apply render_group_file in H1; [|set_solver|done];
      apply render_group_events_file in H2; [|set_solver|done]
  end.
  rewrite <- !app_assoc in *. split; (eapply has_file_grows; [|eassumption]).
  - etrans; eassumption.
  - done.
Qed.

Lemma render_hackathons_files w w' h :
  render_hackathons sb w = Ok tt w' -> h ∈ hackathons_all -> simple_name (Hackathon.slug h) ->
  has_file w' (out sb ++ ["hackathons"; Hackathon.slug h; "index.html"]).
Proof.
  intros H Hh Hs. unfold render_hackathons, mbind, st_bind in H. inv_ok.
  match goal with Hf : for_each _ _ _ = Ok _ _ |- _ =>
    rewrite join_simple in Hf by auto with build;
    destruct (for_each_Ok_elem grows _ _ _ _ h (fun y => render_hackathon_grows sb y _) Hf Hh)
      as (s1 & s2 & Hr & G) end.
  apply render_hackathon_file in Hr; [|set_solver|done].
  rewrite <- app_assoc in Hr. by apply (has_file_grows s2).
Qed.

Ltac grows_chain :=
  match goal with
  | |- grows ?a ?a => reflexivity
  | H : grows ?a ?b |- grows ?a ?c => etrans; [exact H|grows_chain]
  end.

Ltac lift_file :=
  eapply has_file_grows; [|eassumption]; grows_chain.

Lemma build_Ok_layout end_time w w' :
  ".." ∉ templates sb -> build sb end_time w = Ok tt w' -> site_layout w'.
Proof.
  intros Ht H. unfold build, mbind, st_bind in H. inv_ok.
  repeat match goal with
  | Hx : render_index sb _ = Ok _ _ |- _ =>
      pose proof (Ok_grows _ _ _ _ (render_index_grows sb) Hx);
      apply render_index_file in Hx
  | Hx : render_events sb _ = Ok _ _ |- _ =>
      pose proof (Ok_grows _ _ _ _ (render_events_grows sb) Hx);
      pose proof (fun x => render_events_files _ _ x Hx) as Hev; clear Hx
  | Hx : render_groups sb _ = Ok _ _ |- _ =>
      pose proof (Ok_grows _ _ _ _ (render_groups_grows sb) Hx);
      pose proof (fun x => render_groups_files _ _ x Hx) as Hgr; clear Hx
  | Hx : render_hackathons sb _ = Ok _ _ |- _ =>
      pose proof (Ok_grows _ _ _ _ (render_hackathons_grows sb) Hx);
      pose proof (fun x => render_hackathons_files _ _ x Hx) as Hhk; clear Hx
  | Hx : render_palette sb _ = Ok _ _ |- _ =>
      pose proof (Ok_grows _ _ _ _ (render_palette_grows sb) Hx);
      apply (render_palette_file _ _ Ht) in Hx
  | Hx : copy_static sb _ = Ok _ _ |- _ =>
      pose proof (Ok_grows _ _ _ _ (copy_static_grows sb) Hx); clear Hx
  | Hx : print_elapsed _ _ = Ok _ _ |- _ =>
      pose proof (Ok_grows _ _ _ _ (print_elapsed_grows _) Hx); clear Hx
  end.
  unfold site_layout. split_and!; [lift_file| | | |lift_file].
  - intros e He Hid. pose proof (Hev e He Hid). lift_file.
  - intros g Hg Hs. destruct (Hgr g Hg Hs). split; lift_file.
  - intros h Hh Hs. pose proof (Hhk h Hh Hs). lift_file.
Qed.

(** C16: the layout the specification gives for a completed build:
    [index.html] at the root of [out], one page per event, two per group,
    one per hackathon (for the ones whose identifier is a simple name) and
    the palette beside the templates; later passes and the static copy
    never remove or replace a page by a directory. *)
Theorem build_layout end_time w w' :
  ".." ∉ templates sb -> build sb end_time w = Ok tt w' -> site_layout w'.
Proof. apply build_Ok_layout. Qed.
End Layout.

(** ** Concrete runs *)

Module BuilderExamples.
#[local] Program Instance demo_engine : TemplateEngine :=
  {| compiles src := bool_decide (src <> "{%");
     render_source src ctx := if decide (src = "boom" \/ src = "{%") then None else Some (src +:+ "!") |}.
Next Obligation.
  intros src ctx text. cbv beta. case_decide as Hn; [discriminate|].
  intros _. apply bool_decide_eq_true. tauto.
Qed.
#[local] Instance demo_formatter : HtmlFormatter := {| tailwindify_html s := s |}.

Definition g1 : Group.t := Group.mk "g1" "Group One" [].
Definition e1 : Event.t := Event.mk "e1" 50 "first" None "g1".
Definition e_joint : Event.t := Event.mk "e2" 150 "joint" (Some "other") "g1".
Definition e_dotdot : Event.t := Event.mk ".." 160 "escaping" None "g1".
Definition store : ListStore.t :=
  ListStore.mk [e_joint; e1] [g1] [Hackathon.mk "h1" "Hack"] 100 100.
Definition demo_events : EventRepository := ListStore.event_repo store.
Definition demo_groups : GroupRepository := ListStore.group_repo store.
Definition demo_hackathons : HackathonRepository := ListStore.hackathon_repo store.
#[local] Existing Instances demo_events demo_groups demo_hackathons.

Definition tdir : path := ["srv"; "templates"].
Definition fs0 : gmap path node := list_to_map [
  (["srv"], Dir); (tdir, Dir); (["srv"; "public"], Dir);
  (["srv"; "public"; "css"], Dir); (["srv"; "public"; "css"; "a.css"], File "css");
  (tdir ++ ["index.html"], File "I"); (tdir ++ ["event.html"], File "E");
  (tdir ++ ["group.html"], File "G"); (tdir ++ ["group_events.html"], File "GE");
  (tdir ++ ["hackathon.html"], File "H"); (tdir ++ ["palette.html"], File "P")].
Definition sb : SiteBuilder := new_site_builder 100 ["srv"; "out"] ["srv"].
Definition w0 : world := mk_world fs0 [].
(** The world after [out] and [out/events] exist. *)
Definition w1 : world :=
  mk_world (<[["srv"; "out"; "events"]:=Dir]> (<[["srv"; "out"]:=Dir]> fs0)) [].

(** The whole build on a small site: every page, the palette beside the
    templates, the static file mirrored, the printed lines. *)
Example build_run :
  (fun r => match r with
            | Ok _ w => Some (fs w !! ["srv"; "out"; "events"; "e1"; "index.html"],
                              fs w !! ["srv"; "out"; "groups"; "g1"; "events"; "index.html"],
                              fs w !! ["srv"; "templates"; "palette-rendered.html"],
                              fs w !! ["srv"; "out"; "css"; "a.css"],
                              stdout w)
            | Err _ _ => None
            end) (build sb 130 w0)
  = Some (Some (File "E!"), Some (File "GE!"), Some (File "P!"), Some (File "css"),
          [Text "Generating content to `out` directory"; Text "Rendering index";
           Text "Rendering events"; Text "Rendering group: Group One";
           Text "Rendering group events: Group One"; Text "Rendering hackathon: Hack";
           Text "Copying static files from `public` to `out`"; Elapsed 30]).
Proof. vm_compute. reflexivity. Qed.

Lemma render_event_page_witness :
  render_event sb ["srv"; "out"; "events"] e1 w1 =
    Ok tt (mk_world (<[["srv"; "out"; "events"] ++ ["e1"; "index.html"] := File "E!"]>
                      (<[["srv"; "out"; "events"] ++ ["e1"] := Dir]> (fs w1))) (stdout w1)).
Proof.
  apply (render_event_page sb e1 ["srv"; "out"; "events"] w1 "E" "E!").
  - decide_by_eval.
  - vm_compute. reflexivity.
  - decide_by_eval.
  - decide_by_eval.
  - intros t. vm_compute. discriminate.
  - vm_compute. discriminate.
  - vm_compute. reflexivity.
  - vm_compute. reflexivity.
Defined.

Lemma render_event_dotdot_witness :
  render_event sb (out sb /ₚ "events") e_dotdot w1
    = Ok tt (set_fs w1 (<[out sb ++ ["index.html"] := File "E!"]> (fs w1))).
Proof.
  apply (render_event_dotdot sb e_dotdot w1 "E" "E!").
  - decide_by_eval.
  - vm_compute. reflexivity.
  - decide_by_eval.
  - vm_compute. reflexivity.
  - reflexivity.
  - vm_compute. discriminate.
  - vm_compute. reflexivity.
  - vm_compute. reflexivity.
Defined.

Lemma joint_event_group_disagree_witness :
  event_with_group e_joint = (e_joint, None) /\
  ("group", VOptGroup (Some g1)) ∈ event_context e_joint.
Proof. apply joint_event_group_disagree; vm_compute; reflexivity. Defined.

Lemma build_out_unreachable_witness :
  build (new_site_builder 100 ["nowhere"; "out"] ["srv"]) 130 w0
    = Err (OSError (FileNotFoundError ["nowhere"]))
          (mk_world (fs w0) (stdout w0 ++ [Text "Generating content to `out` directory"])).
Proof. apply build_out_unreachable. vm_compute. reflexivity. Defined.

Lemma copy_static_no_public_witness :
  copy_static (new_site_builder 100 ["srv"; "out"] ["nowhere"]) w0
    = Ok tt (mk_world (fs w0) (stdout w0 ++ [Text "Copying static files from `public` to `out`"])).
Proof. apply copy_static_no_public. vm_compute. reflexivity. Defined.

Definition w_built : world := state_of (build sb 130 w0).

Lemma build_layout_witness : site_layout sb w_built.
Proof.
  apply (build_layout sb ltac:(decide_by_eval) 130 w0).
  - decide_by_eval.
  - vm_compute. reflexivity.
Defined.
End BuilderExamples.
