(* ===== verification/Ready.v ===== *)
(** * Ready: the state in which every rendering pass returns

    The passes of [Builder] raise only when a path they need is missing
    or has the wrong kind: a template that is not a file, an output
    directory that is a file, a page whose path is a directory.  This file
    states when none of that happens ([ready]) and proves, in the
    total-correctness triples [ok_spec] of [Prelude], that each step and
    each pass then returns and keeps [ready].

    The output tree below [out] has fixed slots: [dir_slot] lists the
    directories the passes create ([events], [events/<id>], [groups],
    [groups/<slug>], [groups/<slug>/events], [hackathons],
    [hackathons/<slug>]) and [file_slot] the pages they write.  The
    invariant [conforms] says that an entry already in a slot has the
    slot's kind; it holds of an empty or missing [out] and of the output
    of an earlier build.  [static_fit] says the same of the places the
    static copy will write. *)

From S2P Require Import Prelude Path Fs Domain Repos Partition Template Builder.

(** The directories the passes create below [out]. *)
Definition dir_slot (rel : path) : bool :=
  match rel with
  | [a] | [a; _] => bool_decide (a = "events" \/ a = "groups" \/ a = "hackathons")
  | [a; _; c] => bool_decide (a = "groups" /\ c = "events")
  | _ => false
  end.

(** The pages the passes write below [out]. *)
Definition file_slot (rel : path) : bool :=
  match rel with
  | [a] => bool_decide (a = "index.html")
  | [a; _; c] => bool_decide ((a = "events" \/ a = "groups" \/ a = "hackathons") /\ c = "index.html")
  | [a; _; c; d] => bool_decide (a = "groups" /\ c = "events" /\ d = "index.html")
  | _ => false
  end.

(** [P rel n] holds of every entry [o ++ rel] of [m]. *)
Definition below (o : path) (m : gmap path node) (P : path -> node -> Prop) : Prop :=
  map_Forall (fun k n => take (length o) k = o -> P (drop (length o) k) n) m.

#[export] Instance below_dec o m P `{!forall rel n, Decision (P rel n)} :
  Decision (below o m P).
Proof. unfold below. apply _. Defined.

(** Every entry below [o] that sits in a slot has the slot's kind. *)
Definition slot_kind (rel : path) (n : node) : Prop :=
  (dir_slot rel -> n = Dir) /\ (file_slot rel -> n <> Dir).

Definition conforms (o : path) (m : gmap path node) : Prop := below o m slot_kind.

(** Disequalities of paths of different lengths. *)
Ltac len_neq :=
  let E := fresh in intros E; apply (f_equal length) in E; rewrite ?length_app in E;
  simpl in E; lia.

(** ** Lemmas on slots *)

Lemma slot_disjoint rel : dir_slot rel -> file_slot rel -> False.
Proof.
  destruct rel as [|a [|b [|c [|d [|? ?]]]]]; simpl; try done;
    rewrite ?bool_decide_spec; intros; destruct_and?; destruct_or?; simplify_eq.
Qed.

Lemma take_drop_app (o rel : path) : take (length o) (o ++ rel) = o /\ drop (length o) (o ++ rel) = rel.
Proof. by rewrite take_app_length, drop_app_length. Qed.

Lemma below_lookup o m P rel n : below o m P -> m !! (o ++ rel) = Some n -> P rel n.
Proof.
  intros Hc Hk. destruct (take_drop_app o rel) as [Ht Hd].
  pose proof (Hc _ _ Hk Ht) as H. by rewrite Hd in H.
Qed.

Lemma below_insert o m P k n :
  below o m P -> (forall rel, k = o ++ rel -> P rel n) -> below o (<[k:=n]> m) P.
Proof.
  intros Hc Hk. apply map_Forall_insert_2; [|done]. intros Ht.
  apply Hk. rewrite <- (take_drop (length o) k) at 1. by rewrite Ht.
Qed.

Lemma below_insert_outside o m P k n :
  below o m P -> ~ o `prefix_of` k -> below o (<[k:=n]> m) P.
Proof. intros Hc Hk. apply below_insert; [done|]. intros rel ->. by destruct Hk; exists rel. Qed.

#[export] Hint Resolve below_insert_outside : build.

Lemma below_impl o m (P Q : path -> node -> Prop) :
  below o m P -> (forall rel n, m !! (o ++ rel) = Some n -> P rel n -> Q rel n) -> below o m Q.
Proof.
  intros Hb HPQ k n Hk Ht. specialize (Hb k n Hk Ht). apply (HPQ _ n); [|done].
  rewrite <- Hk. f_equal. rewrite <- (take_drop (length o) k) at 2. by rewrite Ht.
Qed.

Lemma below_intro o m (P : path -> node -> Prop) :
  (forall rel n, m !! (o ++ rel) = Some n -> P rel n) -> below o m P.
Proof.
  intros H k n Hk Ht. apply H.
  rewrite <- Hk. f_equal. rewrite <- (take_drop (length o) k) at 2. by rewrite Ht.
Qed.

Lemma prefix_app_ne (o k rel : path) : ~ o `prefix_of` k -> o ++ rel <> k.
Proof. intros Hk E. apply Hk. by exists rel. Qed.

#[export] Hint Resolve prefix_app_ne : build.

Lemma node_at_snoc m (p : path) c : node_at m (p ++ [c]) = m !! (p ++ [c]).
Proof. by destruct p. Qed.

Lemma wf_insert_child m p c n :
  wf m -> node_at m p = Some Dir -> ".." ∉ p -> c <> ".." ->
  m !! (p ++ [c]) <> Some Dir \/ n = Dir -> wf (<[p ++ [c]:=n]> m).
Proof.
  intros Hwf Hd Hn Hc Hk. apply wf_insert; [done|by destruct p| |set_solver|done].
  by rewrite removelast_last.
Qed.

(** ** [out] and [public] apart *)

Lemma public_not_prefix_out sb rel :
  ~ public sb `prefix_of` out sb -> ~ out sb `prefix_of` public sb ->
  ~ public sb `prefix_of` out sb ++ rel.
Proof.
  intros Hpo Hop Hp. destruct (prefix_weak_total (public sb) (out sb) (out sb ++ rel)) as [|];
    [done|by exists rel|done|done].
Qed.

Lemma out_nonempty sb : ~ out sb `prefix_of` public sb -> out sb <> [].
Proof. intros Hop E. apply Hop. rewrite E. apply prefix_nil. Qed.

(** ** The state the passes need *)

Section Ready.
Context {engine : TemplateEngine} (sb : SiteBuilder).

(** The templates the passes load. *)
Definition template_names : list string :=
  ["index.html"; "event.html"; "group.html"; "group_events.html"; "hackathon.html";
   "palette.html"].

Definition palette_out : path := templates sb ++ ["palette-rendered.html"].

(** Every template the passes load is a file, and the engine renders it
    without raising on every context of the template's schema (and may
    raise on any other: the contract of a strict engine). *)
Definition templates_ok (m : gmap path node) : Prop :=
  forall name, name ∈ template_names -> exists src,
    m !! (templates sb ++ [name]) = Some (File src) /\
    forall ctx, typed_context name ctx -> is_Some (render_source src ctx).

(** The static tree fits the output tree: a directory of [public] has no
    file at its place in [out] and is not a page, a file of [public] has
    no directory at its place and is not a slot directory. *)
Definition static_fit (m : gmap path node) (rel : path) (n : node) : Prop :=
  rel <> [] ->
  (n = Dir -> file_slot rel = false /\ forall t, m !! (out sb ++ rel) <> Some (File t)) /\
  (n <> Dir -> dir_slot rel = false /\ m !! (out sb ++ rel) <> Some Dir).

#[export] Instance no_file_dec (m : gmap path node) p : Decision (forall t, m !! p <> Some (File t)).
Proof.
  destruct (m !! p) as [[|t]|] eqn:E.
  - left. intros t. discriminate.
  - right. intros H. by apply (H t).
  - left. intros t. discriminate.
Defined.

#[export] Instance static_fit_dec m rel n : Decision (static_fit m rel n).
Proof. unfold static_fit. apply _. Defined.

Definition ready (m : gmap path node) : Prop :=
  wf m /\ conforms (out sb) m /\ templates_ok m /\ m !! palette_out <> Some Dir /\
  below (public sb) m (static_fit m).

Lemma template_names_simple name : name ∈ template_names -> simple_name name.
Proof.
  assert (Forall simple_name template_names) as H by decide_by_eval.
  rewrite Forall_forall in H. apply H.
Qed.

Lemma template_source_file m name src :
  wf m -> ".." ∉ templates sb -> simple_name name ->
  m !! (templates sb ++ [name]) = Some (File src) ->
  template_source m (templates sb) name = Some src.
Proof.
  intros Hwf Hn Hs Hf. unfold template_source. rewrite join_simple by done.
  assert (node_at m (templates sb ++ [name]) = Some (File src)) as Hf'
    by (by destruct (templates sb)).
  pose proof (wf_parent _ _ _ Hwf Hf' ltac:(by destruct (templates sb))) as Hd.
  rewrite removelast_last in Hd.
  rewrite locate_child by auto with build. by rewrite Hf'.
Qed.

Lemma template_source_lookup m name src :
  ".." ∉ templates sb -> simple_name name ->
  template_source m (templates sb) name = Some src -> m !! (templates sb ++ [name]) = Some (File src).
Proof.
  intros Hn Hs. pose proof (simple_not_dotdot _ Hs). unfold template_source. rewrite join_simple by done.
  destruct (locate m _) as [|q] eqn:L; [done|]. apply locate_plain in L as ->; [|set_solver].
  rewrite node_at_snoc. by destruct (m !! _) as [[|t]|]; intros [= ->].
Qed.

(** A write outside [public] keeps the static tree fitting when a place of
    the static tree gets the kind of its source. *)
Lemma static_insert m k n :
  below (public sb) m (static_fit m) -> ~ public sb `prefix_of` k ->
  (forall rel n0, k = out sb ++ rel -> rel <> [] -> m !! (public sb ++ rel) = Some n0 ->
     is_dir n = is_dir n0) ->
  below (public sb) (<[k:=n]> m) (static_fit (<[k:=n]> m)).
Proof.
  intros Hs Hkpub Hkst.
  apply below_insert_outside; [|done]. eapply below_impl; [exact Hs|].
  intros rel n0 Hl Hf Hne. specialize (Hf Hne). rewrite !lookup_insert.
  case_decide as E; [|done]. subst k.
  pose proof (Hkst rel n0 eq_refl Hne Hl) as Hd.
  split; intros Hn0; (split; [apply Hf, Hn0|]).
  + intros t Hn'. injection Hn' as ->. subst n0. discriminate Hd.
  + intros Hn'. injection Hn' as ->. by destruct n0.
Qed.

(** One entry written by a pass or by the copy keeps [ready] when it is
    well placed: a slot gets its kind, the templates and the palette are
    not hit, the static tree is not touched, and a place of the static
    tree in [out] gets the kind of its source. *)
Lemma ready_insert m k n :
  ready m -> wf (<[k:=n]> m) ->
  (forall rel, k = out sb ++ rel -> slot_kind rel n) ->
  (forall name, name ∈ template_names -> k <> templates sb ++ [name]) ->
  (k = palette_out -> n <> Dir) ->
  ~ public sb `prefix_of` k ->
  (forall rel n0, k = out sb ++ rel -> rel <> [] -> m !! (public sb ++ rel) = Some n0 ->
     is_dir n = is_dir n0) ->
  ready (<[k:=n]> m).
Proof.
  intros (Hwf & Hc & Ht & Hp & Hs) Hwf' Hk Hkt Hkp Hkpub Hkst.
  split_and!; [done|by apply below_insert| | |].
  - intros name Hn. destruct (Ht name Hn) as (src & E & R). exists src.
    rewrite lookup_insert_ne; [done|]. intros ->. by apply (Hkt name).
  - unfold palette_out in *. rewrite lookup_insert.
    case_decide; [subst; by intros [= ?]; apply Hkp|done].
  - by apply static_insert.
Qed.

(** [ready], and the directories [ds] exist. *)
Definition ready_with (ds : list path) (w : world) : Prop :=
  ready (fs w) /\ Forall (fun d => node_at (fs w) d = Some Dir) ds.

End Ready.

Lemma grows_dir w w' d : grows w w' -> node_at (fs w) d = Some Dir -> node_at (fs w') d = Some Dir.
Proof.
  intros G. destruct d as [|c d]; [done|]. simpl. intros H.
  destruct (G _ _ H) as (n' & H' & E). rewrite H'. by destruct n'.
Qed.

Lemma dirs_at_grows w w' ds :
  grows w w' -> Forall (fun d => node_at (fs w) d = Some Dir) ds ->
  Forall (fun d => node_at (fs w') d = Some Dir) ds.
Proof. intros G H. eapply Forall_impl; [exact H|]. intros d. by apply grows_dir. Qed.

(** ** Each step of a pass returns *)

(** Side conditions of the step lemmas: slots, template names,
    membership, paths without "..". *)
Ltac slot :=
  match goal with
  | |- Is_true (dir_slot _) => vm_compute; exact I
  | |- Is_true (file_slot _) => vm_compute; exact I
  end.
Ltac tname := match goal with |- _ ∈ template_names => unfold template_names; set_solver end.
Ltac notin :=
  match goal with
  | |- _ ∉ _ =>
      rewrite ?not_elem_of_app, ?not_elem_of_cons; repeat split;
      first [ apply not_elem_of_nil | done | by apply not_eq_sym | set_solver ]
  end.
Ltac memb :=
  match goal with
  | |- _ ∈ _ :: _ => first [ apply list_elem_of_here | apply list_elem_of_further; memb ]
  | |- _ ∈ _ => done
  end.
Ltac typed := match goal with |- typed_context _ _ => reflexivity end.

Ltac side := first [ done | memb | notin | slot | tname | typed | by rewrite <- !app_assoc
                   | by rewrite app_nil_r | solve [auto with build] ].

Section Live.
Context {engine : TemplateEngine} {formatter : HtmlFormatter}
        {event_repo : EventRepository} {group_repo : GroupRepository}
        {hackathon_repo : HackathonRepository}.
Context (sb : SiteBuilder).

Hypothesis Hout_n : ".." ∉ out sb.
Hypothesis Htpl_n : ".." ∉ templates sb.
Hypothesis Hout_tpl : forall name, name ∈ "palette-rendered.html" :: template_names ->
  ~ out sb `prefix_of` templates sb ++ [name].
Hypothesis Hpub_out : ~ public sb `prefix_of` out sb.
Hypothesis Hout_pub : ~ out sb `prefix_of` public sb.

(** A write into [out] is well placed when it respects the slots and,
    at a place of the static tree, the kind of its source. *)
Lemma ready_insert_out m rel n :
  ready sb m -> wf (<[out sb ++ rel:=n]> m) -> slot_kind rel n ->
  (forall n0, rel <> [] -> m !! (public sb ++ rel) = Some n0 -> is_dir n = is_dir n0) ->
  ready sb (<[out sb ++ rel:=n]> m).
Proof.
  intros Hr Hwf Hk Hs. apply ready_insert; [done|done| | | |apply (public_not_prefix_out sb _ Hpub_out Hout_pub)|].
  - intros rel' E. apply app_inv_head in E. by subst.
  - intros name Hn. apply prefix_app_ne, Hout_tpl. set_solver.
  - unfold palette_out. intros E. exfalso. revert E. apply prefix_app_ne, Hout_tpl. set_solver.
  - intros rel' n0 E. apply app_inv_head in E. subst. by apply Hs.
Qed.

(** In a ready state a slot of [out] is written with its kind. *)
Lemma ready_insert_slot m rel n :
  ready sb m -> wf (<[out sb ++ rel:=n]> m) ->
  (dir_slot rel /\ n = Dir) \/ (file_slot rel /\ is_dir n = false) ->
  ready sb (<[out sb ++ rel:=n]> m).
Proof.
  intros Hr Hwf Hn. apply ready_insert_out; [done|done| |].
  - destruct Hn as [[Hsl En]|[Hsl Hd]]; split; intros Hsl'; subst;
      first [done | exfalso; by apply (slot_disjoint rel) | by intros E; subst].
  - intros n0 Hne Hl. destruct Hr as (_ & _ & _ & _ & Hs).
    pose proof (below_lookup _ _ _ _ _ Hs Hl Hne) as [HD HF].
    destruct Hn as [[Hsl ->]|[Hsl Hd]].
    + destruct (decide (n0 = Dir)) as [->|Hn0]; [done|].
      destruct (HF Hn0) as [E _]. by rewrite E in Hsl.
    + destruct (decide (n0 = Dir)) as [->|Hn0]; [|by destruct n0, n].
      destruct (HD eq_refl) as [E _]. by rewrite E in Hsl.
Qed.

Lemma mkdir_slot_ok p rel0 c ds :
  p = out sb ++ rel0 -> ".." ∉ rel0 -> simple_name c -> dir_slot (rel0 ++ [c]) -> p ∈ ds ->
  ok_spec (ready_with sb ds) (mkdir (p ++ [c])) (fun _ => ready_with sb ((p ++ [c]) :: ds)).
Proof.
  intros -> Hn Hc Hsl Hp w [Hr Hds]. pose proof Hr as (Hwf & Hcf & _).
  assert (".." ∉ out sb ++ rel0) by set_solver.
  assert (node_at (fs w) (out sb ++ rel0) = Some Dir) as Hd by (by apply (proj1 (Forall_forall _ _) Hds)).
  assert (forall t, fs w !! ((out sb ++ rel0) ++ [c]) <> Some (File t)) as Hnf.
  { intros t Ht. rewrite <- app_assoc in Ht.
    by destruct (below_lookup _ _ _ _ _ Hcf Ht) as [HD _]; specialize (HD Hsl). }
  pose proof (mkdir_child w _ c Hwf Hd ltac:(done) Hc Hnf) as E.
  rewrite join_simple in E by done.
  eexists _, _. split; [exact E|]. split; [|constructor].
  - simpl. rewrite <- app_assoc. apply ready_insert_slot; [done| |by left].
    rewrite app_assoc. apply wf_insert_child; auto with build.
  - simpl. rewrite node_at_insert by (by destruct (out sb ++ rel0)). by rewrite decide_True.
  - eapply dirs_at_grows; [|exact Hds]. exact (Ok_grows _ _ _ _ (mkdir_grows _) E).
Qed.

Lemma render_page_ok p rel0 c name ctx ds :
  p = out sb ++ rel0 -> ".." ∉ rel0 -> simple_name c -> file_slot (rel0 ++ [c]) ->
  name ∈ template_names -> typed_context name ctx -> p ∈ ds ->
  ok_spec (ready_with sb ds) (render (templates sb) name ctx (p ++ [c])) (fun _ => ready_with sb ds).
Proof.
  intros -> Hn Hc Hsl Hname Hty Hp w [Hr Hds]. pose proof Hr as (Hwf & Hcf & Ht & _).
  destruct (Ht name Hname) as (src & Hsrc & Hok). destruct (Hok ctx Hty) as [text Htext].
  assert (".." ∉ out sb ++ rel0) by set_solver.
  assert (node_at (fs w) (out sb ++ rel0) = Some Dir) as Hd by (by apply (proj1 (Forall_forall _ _) Hds)).
  assert (node_at (fs w) ((out sb ++ rel0) ++ [c]) <> Some Dir) as Hnd.
  { rewrite node_at_snoc, <- app_assoc. intros E.
    by destruct (below_lookup _ _ _ _ _ Hcf E) as [_ HF]; apply (HF Hsl). }
  assert (template_source (fs w) (templates sb) name = Some src) as Hts
    by (apply template_source_file; auto using template_names_simple).
  pose proof (render_Ok_write (templates sb) name ctx _ w src ((out sb ++ rel0) ++ [c]) text
    Hts ltac:(apply locate_child; auto with build) Hnd Htext) as E.
  eexists _, _. split; [exact E|]. split.
  - simpl. rewrite <- app_assoc. apply ready_insert_slot; [done| |by right].
    rewrite app_assoc. apply wf_insert_child; auto with build.
    left. by rewrite <- node_at_snoc.
  - eapply dirs_at_grows; [|exact Hds]. exact (Ok_grows _ _ _ _ (render_grows _ _ _ _) E).
Qed.

Lemma print_ok ds s : ok_spec (ready_with sb ds) (print s) (fun _ => ready_with sb ds).
Proof. intros w Hw. by exists tt, (mk_world (fs w) (stdout w ++ [Text s])). Qed.

Lemma ready_with_tail d ds w : ready_with sb (d :: ds) w -> ready_with sb ds w.
Proof. intros [Hr Hds]. split; [done|]. by apply Forall_cons in Hds as [_ ?]. Qed.

Lemma ok_spec_tail {A} P (m : M A) d ds :
  ok_spec P m (fun _ => ready_with sb (d :: ds)) -> ok_spec P m (fun _ => ready_with sb ds).
Proof. intros H. eapply ok_spec_weaken; [exact H|done|]. intros ??. apply ready_with_tail. Qed.

Hypothesis Hev : forall e, e ∈ events_all -> simple_name (Event.id e).
Hypothesis Hgr : forall g, g ∈ groups_all -> simple_name (Group.slug g).
Hypothesis Hhk : forall h, h ∈ hackathons_all -> simple_name (Hackathon.slug h).

Lemma render_index_ok ds :
  out sb ∈ ds -> ok_spec (ready_with sb ds) (render_index sb) (fun _ => ready_with sb ds).
Proof.
  intros Ho. unfold render_index, render_at, mbind, st_bind.
  eapply ok_spec_bind; [apply print_ok|intros []].
  rewrite join_simple by auto with build.
  eapply (render_page_ok _ []); side.
Qed.

Lemma render_event_ok e ds :
  e ∈ events_all -> out sb ++ ["events"] ∈ ds ->
  ok_spec (ready_with sb ds) (render_event sb (out sb /ₚ "events") e) (fun _ => ready_with sb ds).
Proof.
  intros He Hd. pose proof (Hev e He) as Hs. unfold render_event, render_at, mbind, st_bind.
  cbv beta zeta. rewrite !join_simple by auto with build.
  eapply ok_spec_bind; [eapply (mkdir_slot_ok _ ["events"]); side|intros []].
  eapply ok_spec_tail.
  pose proof (simple_not_dotdot _ Hs).
  eapply (render_page_ok _ ["events"; Event.id e]); side.
Qed.

Lemma render_events_ok ds :
  out sb ∈ ds ->
  ok_spec (ready_with sb ds) (render_events sb) (fun _ => ready_with sb ((out sb ++ ["events"]) :: ds)).
Proof.
  intros Ho. unfold render_events, mbind, st_bind.
  eapply ok_spec_bind; [apply print_ok|intros []]. cbv beta zeta.
  rewrite join_simple by auto with build.
  eapply ok_spec_bind;
    [eapply (mkdir_slot_ok _ []); side|intros []].
  apply ok_spec_for_each. intros e He.
  rewrite <- join_simple by auto with build. apply render_event_ok; [done|set_solver].
Qed.

Lemma render_group_ok g evs ds :
  g ∈ groups_all -> out sb ++ ["groups"] ∈ ds ->
  ok_spec (ready_with sb ds) (render_group sb g evs (out sb /ₚ "groups"))
    (fun _ => ready_with sb (((out sb ++ ["groups"]) ++ [Group.slug g]) :: ds)).
Proof.
  intros Hg Hd. pose proof (Hgr g Hg) as Hs. pose proof (simple_not_dotdot _ Hs).
  unfold render_group, render_at, mbind, st_bind. cbv beta zeta.
  eapply ok_spec_bind; [apply print_ok|intros []]. rewrite !join_simple by auto with build.
  eapply ok_spec_bind; [eapply (mkdir_slot_ok _ ["groups"]); side|intros []].
  eapply (render_page_ok _ ["groups"; Group.slug g]); side.
Qed.

Lemma render_group_events_ok g evs ds :
  g ∈ groups_all -> (out sb ++ ["groups"]) ++ [Group.slug g] ∈ ds ->
  ok_spec (ready_with sb ds) (render_group_events sb g evs (out sb /ₚ "groups"))
    (fun _ => ready_with sb ds).
Proof.
  intros Hg Hd. pose proof (Hgr g Hg) as Hs. pose proof (simple_not_dotdot _ Hs).
  unfold render_group_events, render_at, mbind, st_bind. cbv beta zeta.
  eapply ok_spec_bind; [apply print_ok|intros []]. rewrite !join_simple by auto with build.
  eapply ok_spec_bind; [eapply (mkdir_slot_ok _ ["groups"; Group.slug g]); side|intros []].
  eapply ok_spec_tail.
  eapply (render_page_ok _ ["groups"; Group.slug g; "events"]); side.
Qed.

Lemma render_groups_ok ds :
  out sb ∈ ds ->
  ok_spec (ready_with sb ds) (render_groups sb) (fun _ => ready_with sb ((out sb ++ ["groups"]) :: ds)).
Proof.
  intros Ho. unfold render_groups, mbind, st_bind. cbv beta zeta.
  rewrite join_simple at 1 by auto with build.
  eapply ok_spec_bind; [eapply (mkdir_slot_ok _ []); side|intros []].
  apply ok_spec_for_each. intros g Hg.
  eapply ok_spec_bind; [apply render_group_ok; side|intros []].
  eapply ok_spec_tail. apply render_group_events_ok; side.
Qed.

Lemma render_hackathon_ok h ds :
  h ∈ hackathons_all -> out sb ++ ["hackathons"] ∈ ds ->
  ok_spec (ready_with sb ds) (render_hackathon sb h (out sb /ₚ "hackathons")) (fun _ => ready_with sb ds).
Proof.
  intros Hh Hd. pose proof (Hhk h Hh) as Hs. pose proof (simple_not_dotdot _ Hs).
  unfold render_hackathon, render_at, mbind, st_bind. cbv beta zeta.
  eapply ok_spec_bind; [apply print_ok|intros []]. rewrite !join_simple by auto with build.
  eapply ok_spec_bind; [eapply (mkdir_slot_ok _ ["hackathons"]); side|intros []].
  eapply ok_spec_tail.
  eapply (render_page_ok _ ["hackathons"; Hackathon.slug h]); side.
Qed.

Lemma render_hackathons_ok ds :
  out sb ∈ ds ->
  ok_spec (ready_with sb ds) (render_hackathons sb)
    (fun _ => ready_with sb ((out sb ++ ["hackathons"]) :: ds)).
Proof.
  intros Ho. unfold render_hackathons, mbind, st_bind. cbv beta zeta.
  rewrite join_simple at 1 by auto with build.
  eapply ok_spec_bind; [eapply (mkdir_slot_ok _ []); side|intros []].
  apply ok_spec_for_each. intros h Hh. apply render_hackathon_ok; side.
Qed.

Hypothesis Hpub_pal : ~ public sb `prefix_of` palette_out sb.

Lemma palette_not_template : "palette-rendered.html" ∉ template_names.
Proof. decide_by_eval. Qed.

Lemma render_palette_ok ds :
  ok_spec (ready_with sb ds) (render_palette sb) (fun _ => ready_with sb ds).
Proof.
  intros w [Hr Hds]. pose proof Hr as (Hwf & Hcf & Ht & Hp & Hs).
  unfold render_palette, render_at. rewrite join_simple by auto with build.
  destruct (Ht "palette.html" ltac:(tname)) as (src & Hsrc & Hok).
  destruct (Hok palette_context ltac:(typed)) as [text Htext].
  assert (node_at (fs w) (templates sb) = Some Dir) as Hd.
  { assert (node_at (fs w) (templates sb ++ ["palette.html"]) = Some (File src)) as Hf
      by (by rewrite node_at_snoc).
    pose proof (wf_parent _ _ _ Hwf Hf ltac:(by destruct (templates sb))) as Hd.
    by rewrite removelast_last in Hd. }
  assert (template_source (fs w) (templates sb) "palette.html" = Some src) as Hts
    by (apply template_source_file; [done|done|apply template_names_simple; tname|done]).
  assert (node_at (fs w) (templates sb ++ ["palette-rendered.html"]) <> Some Dir) as Hnd
    by (by rewrite node_at_snoc).
  pose proof (render_Ok_write (templates sb) "palette.html" _
    (templates sb ++ ["palette-rendered.html"]) w src (templates sb ++ ["palette-rendered.html"]) text
    Hts ltac:(apply locate_child; auto with build) Hnd Htext) as E.
  eexists _, _. split; [exact E|]. split.
  - pose proof (Hout_tpl "palette-rendered.html" ltac:(set_solver)) as Hpo.
    apply ready_insert; [done| | | | |done|].
    + apply wf_insert_child; auto with build.
    + intros rel Er. exfalso. apply Hpo. by exists rel.
    + intros name Hn Er. apply app_inv_head in Er. injection Er as <-.
      by apply palette_not_template.
    + done.
    + intros rel n0 Er. exfalso. apply Hpo. by exists rel.
  - eapply dirs_at_grows; [|exact Hds]. exact (Ok_grows _ _ _ _ (render_grows _ _ _ _) E).
Qed.

End Live.
