(* ===== verification/StaticCopy.v ===== *)
(** * StaticCopy: [copy_static] terminates and mirrors [public]

    [copy_static] (lines 73-83) walks [public] top-down as [os.walk] does
    and, for each directory [public/r] it reaches, creates [out/r] and
    copies the files of [public/r] into it.  The model of the walk in
    [Builder] has fuel [S (size fs)].  This file proves that the fuel is
    enough when [public] and [out] do not overlap ([dirs_below] decreases
    along the walk and is bounded by the size of the file system), that
    the walk then raises nothing, and that afterwards [out] holds a copy
    of every entry of [public] and nothing else has changed.  Sections
    [Nested] and [Chain] follow the walk when [out] lies inside [public]:
    two levels inside, no fuel is enough; one level inside, each walk
    lengthens the chain [public/a/a/...] by one directory. *)

From S2P Require Import Prelude Path Fs Domain Repos Partition Template Builder Ready.

(** ** The primitives of the static copy *)

Lemma child_name_Some q k nm : child_name q k = Some nm -> k = q ++ [nm].
Proof.
  unfold child_name. case_decide as H; [|done]. destruct H as [Hl Ht]. intros Hk.
  rewrite <- (take_drop (length q) k), Ht. f_equal.
  assert (length (drop (length q) k) = 1) as Hd by (rewrite length_drop; lia).
  destruct (drop (length q) k) as [|x [|y r]] eqn:E; simpl in Hd; try lia.
  rewrite <- (take_drop (length q) k), E, Ht, last_snoc in Hk. by injection Hk as ->.
Qed.

(** What a successful listing of [p] returns: subdirectory names and
    file names of children of [p]. *)
Lemma scandir_Some m p dirs files :
  ".." ∉ p -> scandir m p = Some (dirs, files) ->
  node_at m p = Some Dir /\
  (forall d, d ∈ dirs -> m !! (p ++ [d]) = Some Dir) /\
  (forall f, f ∈ files -> exists c, m !! (p ++ [f]) = Some (File c)).
Proof.
  intros Hn. unfold scandir. destruct (locate m p) as [|q] eqn:L; [done|].
  apply locate_plain in L as ->; [|done].
  destruct (node_at m p) as [[]|] eqn:Hp; [|done|done]. intros [= <- <-].
  assert (forall nm n, (nm, n) ∈ omap (fun '(k, n) => (fun nm => (nm, n)) <$> child_name p k)
            (map_to_list m) -> m !! (p ++ [nm]) = Some n) as Hent.
  { intros nm n Hin. apply list_elem_of_omap in Hin as ([k n'] & Hk & Hc).
    destruct (child_name p k) as [x|] eqn:Hx; [|done]. injection Hc as -> ->.
    apply child_name_Some in Hx as ->. by apply elem_of_map_to_list in Hk. }
  split_and!; [done| |].
  - intros d Hd. apply list_elem_of_fmap in Hd as ([nm n] & -> & Hf).
    apply list_elem_of_filter in Hf as [Hdir Hin]. simpl in *. subst n. by apply Hent.
  - intros f Hf. apply list_elem_of_fmap in Hf as ([nm n] & -> & Hf).
    apply list_elem_of_filter in Hf as [Hdir Hin]. simpl in *. destruct n as [|c]; [done|].
    exists c. by apply Hent.
Qed.

Lemma child_name_snoc q x : child_name q (q ++ [x]) = Some x.
Proof.
  unfold child_name. rewrite decide_True; [by rewrite last_snoc|].
  rewrite length_app, take_app_length. simpl. split; [lia|done].
Qed.

(** The listing is complete: every child of [p] is listed, among the
    subdirectories when it is a directory and among the files otherwise. *)
Lemma scandir_complete m p dirs files x n :
  ".." ∉ p -> scandir m p = Some (dirs, files) -> m !! (p ++ [x]) = Some n ->
  (n = Dir -> x ∈ dirs) /\ (n <> Dir -> x ∈ files).
Proof.
  intros Hn. unfold scandir. destruct (locate m p) as [|q] eqn:L; [done|].
  apply locate_plain in L as ->; [|done].
  destruct (node_at m p) as [[]|]; [|done|done]. intros [= <- <-] Hx.
  assert ((x, n) ∈ omap (fun '(k, n) => (fun nm => (nm, n)) <$> child_name p k) (map_to_list m))
    as Hin.
  { apply list_elem_of_omap. exists (p ++ [x], n).
    split; [by apply elem_of_map_to_list|]. by rewrite child_name_snoc. }
  split; intros Hk; apply list_elem_of_fmap; exists (x, n); (split; [done|]);
    apply list_elem_of_filter; by split.
Qed.

(** A path without ".." whose parent is a directory resolves to itself. *)
Lemma locate_self m p :
  wf m -> p <> [] -> node_at m (removelast p) = Some Dir -> ".." ∉ p -> locate m p = inr p.
Proof.
  intros Hwf Hp Hd Hn. rewrite (app_removelast_last "" Hp) in *.
  rewrite removelast_last in Hd. apply locate_child; [done|done|set_solver|].
  intros E. apply Hn. rewrite <- E. set_solver.
Qed.

Lemma scandir_dir m p :
  wf m -> ".." ∉ p -> node_at m p = Some Dir -> exists dirs files, scandir m p = Some (dirs, files).
Proof.
  intros Hwf Hn Hd. unfold scandir.
  assert (locate m p = inr p) as ->.
  { destruct p as [|c p']; [done|]. apply locate_self; [done|done| |done].
    by apply wf_parent_dir. }
  rewrite Hd. eauto.
Qed.

Lemma mkdir_self w p :
  wf_world w -> p <> [] -> node_at (fs w) (removelast p) = Some Dir -> ".." ∉ p ->
  (forall t, fs w !! p <> Some (File t)) ->
  mkdir p w = Ok tt (set_fs w (<[p:=Dir]> (fs w))).
Proof.
  intros Hw Hp Hd Hn Hf. unfold mkdir. rewrite locate_self by done.
  destruct p as [|x l]; [done|]. simpl.
  destruct (fs w !! (x :: l)) as [[|t]|] eqn:F; [|by destruct (Hf t)|done].
  unfold set_fs. rewrite insert_id by done. by destruct w.
Qed.

(** [shutil.copyfile] between two distinct resolved files. *)
Lemma copyfile_Ok w src dst c :
  locate (fs w) src = inr src -> locate (fs w) dst = inr dst -> src <> dst ->
  src <> [] -> fs w !! src = Some (File c) -> dst <> [] -> fs w !! dst <> Some Dir ->
  copyfile src dst w = Ok tt (set_fs w (<[dst:=File c]> (fs w))).
Proof.
  intros Ls Ld Hne Hs Hc Hd Hnd. unfold copyfile. rewrite Ls, Ld.
  rewrite decide_False by naive_solver.
  unfold mbind, st_bind, bind, read_file. rewrite Ls.
  destruct src as [|x s]; [done|]. simpl. rewrite Hc.
  unfold open_w. rewrite Ld. destruct dst as [|y d]; [done|]. simpl.
  destruct (fs w !! (y :: d)) as [[]|] eqn:E; [done| |];
    unfold write_handle; simpl; rewrite lookup_insert_eq, insert_insert_eq; done.
Qed.

(** ** The fuel of the walk

    [dirs_below m p] counts the directories strictly below [p].  A
    subdirectory has fewer than its parent, and no directory has more
    than the file system has entries, which is why the fuel
    [S (size fs)] of [copy_static] is enough. *)
Definition strictly_below (p : path) (kn : path * node) : Prop :=
  kn.2 = Dir /\ p `prefix_of` kn.1 /\ kn.1 <> p.

#[export] Instance strictly_below_dec p kn : Decision (strictly_below p kn).
Proof. unfold strictly_below. apply _. Defined.

Definition dirs_below (m : gmap path node) (p : path) : nat :=
  size (filter (strictly_below p) m).

Lemma dirs_below_size m p : dirs_below m p <= size m.
Proof. apply map_subseteq_size, map_filter_subseteq. Qed.

Lemma dirs_below_child m p d :
  m !! (p ++ [d]) = Some Dir -> dirs_below m (p ++ [d]) < dirs_below m p.
Proof.
  intros Hd. apply map_subset_size. split.
  - apply map_filter_subseteq_ext. intros k n _ (Hn & [r E] & Hne). unfold strictly_below. simpl in *. subst k.
    split_and!; [done| |].
    + exists ([d] ++ r). by rewrite app_assoc.
    + intros E. apply (f_equal length) in E. rewrite !length_app in E. simpl in E. lia.
  - intros Hsub. eapply map_subseteq_spec in Hsub.
    + apply map_lookup_filter_Some in Hsub as [_ (_ & _ & Hne)]. by apply Hne.
    + apply map_lookup_filter_Some. split; [done|]. split_and!; [done|by exists [d]|].
      intros E. simpl in E. apply (f_equal length) in E. rewrite length_app in E. simpl in E. lia.
Qed.

Section Copy.
Context {engine : TemplateEngine} {formatter : HtmlFormatter}
        {event_repo : EventRepository} {group_repo : GroupRepository}
        {hackathon_repo : HackathonRepository}.
Context (sb : SiteBuilder).

Hypothesis Hout_n : ".." ∉ out sb.
Hypothesis Hpub_out : ~ public sb `prefix_of` out sb.
Hypothesis Hout_pub : ~ out sb `prefix_of` public sb.


Hypothesis Hpub_n : ".." ∉ public sb.

(** The places the walk writes: [out] itself and [out/rel] for every
    entry [public/rel] of [m1]. *)
Definition copy_target (m1 : gmap path node) (k : path) : Prop :=
  exists rel, k = out sb ++ rel /\ (rel = [] \/ is_Some (m1 !! (public sb ++ rel))).

(** The state of the walk: well formed, [public] as it was when the walk
    started ([m1]), the static tree still fitting, [out] a directory, and
    every place the walk does not write as it was. *)
Definition walk_inv (m1 m : gmap path node) : Prop :=
  wf m /\ (forall r, m !! (public sb ++ r) = m1 !! (public sb ++ r)) /\
  below (public sb) m (static_fit sb m) /\ node_at m (out sb) = Some Dir /\
  (forall k, ~ copy_target m1 k -> m !! k = m1 !! k).

Lemma walk_inv_insert m1 m rel n :
  walk_inv m1 m -> wf (<[out sb ++ rel:=n]> m) -> (rel = [] -> n = Dir) ->
  (rel = [] \/ is_Some (m1 !! (public sb ++ rel))) ->
  (forall n0, rel <> [] -> m !! (public sb ++ rel) = Some n0 -> is_dir n = is_dir n0) ->
  walk_inv m1 (<[out sb ++ rel:=n]> m).
Proof.
  intros (Hwf & Hsame & Hfit & Hout & Hfr) Hwf' Hroot Htg Hst. split_and!; [done| | | |].
  - intros r. rewrite lookup_insert_ne; [done|]. intros E.
    apply (public_not_prefix_out sb rel Hpub_out Hout_pub). rewrite E. by exists r.
  - apply static_insert; [done|apply (public_not_prefix_out sb _ Hpub_out Hout_pub)|].
    intros rel' n0 E. apply app_inv_head in E. subst rel'. by apply Hst.
  - rewrite node_at_insert by (pose proof (out_nonempty sb Hout_pub); by destruct (out sb)).
    case_decide as E; [|done]. rewrite <- (app_nil_r (out sb)) in E at 1.
    apply app_inv_head in E. by rewrite (Hroot (eq_sym E)).
  - intros k Hk. rewrite lookup_insert_ne; [by apply Hfr|]. intros <-. apply Hk. by exists rel.
Qed.

(** [out/y] holds what [public/y] held in [m1] (for [y] below the top:
    [out] itself is a directory whatever [public] is). *)
Definition mirrors (m1 m : gmap path node) (y : path) : Prop :=
  y <> [] -> forall n, m1 !! (public sb ++ y) = Some n -> m !! (out sb ++ y) = Some n.

(** What the file system holds at [k] after the walk from [m1]: [out] is
    a directory, [out/rel] what [public/rel] held, every other place
    what it held. *)
Definition copy_lookup (m1 : gmap path node) (k : path) : option node :=
  if decide (out sb `prefix_of` k) then
    let rel := drop (length (out sb)) k in
    if decide (rel = []) then Some Dir
    else match m1 !! (public sb ++ rel) with Some n => Some n | None => m1 !! k end
  else m1 !! k.

(** The state of the walk with the paths [S] already mirrored and the
    directory [d] existing. *)
Definition walk_mir (m1 : gmap path node) (S : path -> Prop) (d : path) (w : world) : Prop :=
  walk_inv m1 (fs w) /\ node_at (fs w) d = Some Dir /\ forall y, S y -> mirrors m1 (fs w) y.

(** Every write of the walk puts at [out/x] what [public/x] holds: it
    keeps every mirrored path mirrored, and mirrors [x]. *)
Lemma mirrors_insert m1 m y x n :
  mirrors m1 m y -> (x <> [] -> m1 !! (public sb ++ x) = Some n) ->
  mirrors m1 (<[out sb ++ x:=n]> m) y.
Proof.
  intros Hm Hx Hy n0 Hl. rewrite lookup_insert. case_decide as E; [|by apply Hm].
  apply app_inv_head in E. subst x. rewrite (Hx Hy) in Hl. by injection Hl as ->.
Qed.

Lemma mirrors_insert_self m1 m x n :
  (x <> [] -> m1 !! (public sb ++ x) = Some n) -> mirrors m1 (<[out sb ++ x:=n]> m) x.
Proof.
  intros Hx Hy n0 Hl. rewrite lookup_insert_eq. rewrite (Hx Hy) in Hl. by injection Hl as ->.
Qed.

Lemma mirrors_insert_all m1 m (S : path -> Prop) x n :
  (forall y, S y -> mirrors m1 m y) -> (x <> [] -> m1 !! (public sb ++ x) = Some n) ->
  forall y, S y \/ y = x -> mirrors m1 (<[out sb ++ x:=n]> m) y.
Proof.
  intros Hm Hx y [Hy| ->]; [apply mirrors_insert; auto|by apply mirrors_insert_self].
Qed.

(** [shutil.copyfile(public/r/f, out/r/f)] for a file [f] of the static
    tree: it returns, and [out/r/f] becomes a copy. *)
Lemma copy_file_ok m1 r f c S :
  ".." ∉ r -> m1 !! (public sb ++ r ++ [f]) = Some (File c) ->
  ok_spec (walk_mir m1 S (out sb ++ r))
    (copyfile ((public sb ++ r) ++ [f]) ((out sb ++ r) ++ [f]))
    (fun _ => walk_mir m1 (fun y => S y \/ y = r ++ [f]) (out sb ++ r)).
Proof.
  intros Hr Hf0 w (Hinv & Hd & Hm). pose proof Hinv as (Hwf & Hsame & Hfit & Hout & _).
  pose proof Hf0 as Hf. rewrite <- Hsame in Hf. rewrite app_assoc in Hf.
  assert (node_at (fs w) ((public sb ++ r) ++ [f]) = Some (File c)) as Hf' by by rewrite node_at_snoc.
  destruct (Hwf _ _ Hf) as (_ & Hpd & Hnf). rewrite removelast_last in Hpd.
  assert (f <> "..") by (intros ->; apply Hnf; set_solver).
  assert (fs w !! (out sb ++ r ++ [f]) <> Some Dir) as Hnd.
  { rewrite <- app_assoc in Hf. destruct (below_lookup _ _ _ _ _ Hfit Hf) as [_ HF];
      [by destruct r|]. by destruct (HF ltac:(done)). }
  assert (locate (fs w) ((public sb ++ r) ++ [f]) = inr ((public sb ++ r) ++ [f])) as Ls
    by (apply locate_child; auto with build; set_solver).
  assert (locate (fs w) ((out sb ++ r) ++ [f]) = inr ((out sb ++ r) ++ [f])) as Ld
    by (apply locate_child; auto with build; set_solver).
  assert ((public sb ++ r) ++ [f] <> (out sb ++ r) ++ [f]) as Hne.
  { intros E. apply app_inv_tail, app_inv_tail in E. apply Hpub_out. by rewrite E. }
  rewrite (copyfile_Ok w _ _ c Ls Ld Hne ltac:(by destruct (public sb ++ r)) Hf
             ltac:(by destruct (out sb ++ r)) ltac:(by rewrite <- app_assoc)).
  eexists _, _. split; [done|]. simpl. rewrite <- app_assoc. split_and!; simpl.
  - apply walk_inv_insert; [done| |by destruct r|by right|].
    + rewrite app_assoc. apply wf_insert_child; [done|done|set_solver|done|by left; rewrite <- app_assoc].
    + intros n0 _ Hl. rewrite app_assoc, Hf in Hl. by injection Hl as <-.
  - rewrite node_at_insert by len_neq. rewrite decide_False; [done|len_neq].
  - by apply mirrors_insert_all.
Qed.

Lemma node_at_cons m p : p <> [] -> node_at m p = m !! p.
Proof. by destruct p. Qed.

Lemma print_fs_ok (P : gmap path node -> Prop) s :
  ok_spec (fun w => P (fs w)) (print s) (fun _ w => P (fs w)).
Proof. intros w Hw. by exists tt, (mk_world (fs w) (stdout w ++ [Text s])). Qed.

(** [outpath.mkdir(exist_ok=True)] for a directory [public/r] reached by
    the walk. *)
Lemma mkdir_outpath_ok m1 r S :
  ".." ∉ r -> node_at m1 (public sb ++ r) = Some Dir ->
  ok_spec (walk_mir m1 S (removelast (out sb ++ r))) (mkdir (out sb ++ r))
    (fun _ => walk_mir m1 (fun y => S y \/ y = r) (out sb ++ r)).
Proof.
  intros Hr Hpd w (Hinv & Hpar & Hm). pose proof Hinv as (Hwf & Hsame & Hfit & Hout & _).
  pose proof (out_nonempty sb Hout_pub) as Hon.
  assert (out sb ++ r <> []) by (by destruct (out sb)).
  assert (public sb ++ r <> []) as Hpn.
  { intros E. apply app_eq_nil in E as [E _]. apply Hpub_out. rewrite E. apply prefix_nil. }
  rewrite node_at_cons in Hpd by done.
  assert (forall t, fs w !! (out sb ++ r) <> Some (File t)) as Hnf.
  { intros t E. destruct (decide (r = [])) as [->|Hne].
    - rewrite app_nil_r in E. rewrite node_at_cons in Hout by done. congruence.
    - assert (fs w !! (public sb ++ r) = Some Dir) as Hp by by rewrite Hsame.
      destruct (below_lookup _ _ _ _ _ Hfit Hp Hne) as [HD _].
      by destruct (HD eq_refl) as [_ Hno]; apply (Hno t). }
  rewrite mkdir_self by (done || set_solver). eexists _, _. split; [done|]. split_and!; simpl.
  - apply walk_inv_insert; [done| |done| |].
    + apply wf_insert; [done|done|done|set_solver|by right].
    + destruct (decide (r = [])); [by left|right]. by rewrite Hpd.
    + intros n0 Hne Hl. rewrite Hsame, Hpd in Hl. by injection Hl as <-.
  - rewrite node_at_insert by done. by rewrite decide_True.
  - by apply mirrors_insert_all.
Qed.

(** After a level: the paths mirrored before, [r] itself, the files of
    [public/r] and everything below its subdirectories cover every path
    below [r]. *)
Lemma walk_level_covers m1 m r (dirs files : list string) (S : path -> Prop) :
  walk_inv m1 m ->
  (forall x n, m1 !! (public sb ++ r ++ [x]) = Some n ->
     (n = Dir -> x ∈ dirs) /\ (n <> Dir -> x ∈ files)) ->
  (forall y, ((S y \/ y = r) \/ (exists f, f ∈ files /\ y = r ++ [f])) \/
             (exists d, d ∈ dirs /\ (r ++ [d]) `prefix_of` y) -> mirrors m1 m y) ->
  forall y, S y \/ r `prefix_of` y -> mirrors m1 m y.
Proof.
  intros (Hwf & Hsame & _) Hcomp Hm y [Hs|[z ->]]; [apply Hm; by left; left; left|].
  intros Hy n Hl. destruct z as [|x z'].
  - apply Hm; [left; left; right; by rewrite app_nil_r|done|done].
  - assert (m1 !! (public sb ++ r ++ [x]) = Some Dir \/ z' = [])
      as [Hd| ->]; [|apply Hm; [right; exists x|done|done]|].
    + destruct z' as [|x' z'']; [by right|left].
      rewrite <- Hsame in Hl. rewrite <- Hsame, <- node_at_cons by len_neq.
      apply (wf_ancestor _ _ (x' :: z'') n Hwf); [|done].
      rewrite node_at_cons by len_neq. by rewrite <- !app_assoc.
    + split; [by apply (Hcomp x Dir Hd)|]. exists z'. by rewrite <- app_assoc.
    + apply Hm; [|done|done]. destruct (decide (n = Dir)) as [->|Hn].
      * right. exists x. split; [by apply (Hcomp x Dir Hl)|done].
      * left. right. exists x. split; [by apply (Hcomp x n Hl)|done].
Qed.

(** One level of [os.walk]: create [out/r], copy the files of
    [public/r], walk its subdirectories; afterwards everything below [r]
    is mirrored. *)
Lemma walk_level_ok m1 r dirs files fuel S :
  ".." ∉ r -> node_at m1 (public sb ++ r) = Some Dir ->
  (forall x n, m1 !! (public sb ++ r ++ [x]) = Some n ->
     (n = Dir -> x ∈ dirs) /\ (n <> Dir -> x ∈ files)) ->
  (forall f, f ∈ files -> exists c, m1 !! (public sb ++ r ++ [f]) = Some (File c)) ->
  (forall d S', d ∈ dirs ->
     ok_spec (walk_mir m1 S' (out sb ++ r))
       (walk_copy sb fuel ((public sb ++ r) ++ [d]) (r ++ [d]))
       (fun _ w => walk_inv m1 (fs w) /\
          forall y, S' y \/ (r ++ [d]) `prefix_of` y -> mirrors m1 (fs w) y)) ->
  ok_spec (walk_mir m1 S (removelast (out sb ++ r)))
    (mkdir (out sb ++ r);;
     for_each (fun f => copyfile ((public sb ++ r) ++ [f]) ((out sb ++ r) ++ [f])) files;;
     for_each (fun d => walk_copy sb fuel ((public sb ++ r) ++ [d]) (r ++ [d])) dirs)
    (fun _ w => walk_inv m1 (fs w) /\ forall y, S y \/ r `prefix_of` y -> mirrors m1 (fs w) y).
Proof.
  intros Hr Hpd Hcomp Hfiles Hdirs.
  set (SF := fun (fl : list string) y => (S y \/ y = r) \/ exists f, f ∈ fl /\ y = r ++ [f]).
  set (SD := fun (dl : list string) y => SF files y \/ exists d, d ∈ dl /\ (r ++ [d]) `prefix_of` y).
  unfold mbind, st_bind.
  apply (ok_spec_bind _ (fun _ => walk_mir m1 (SF []) (out sb ++ r))).
  { eapply ok_spec_weaken; [by apply mkdir_outpath_ok|done|].
    intros _ w (? & ? & Hm). split_and!; [done|done|]. intros y [Hy|(f & Hf & _)]; [by apply Hm|].
    by apply not_elem_of_nil in Hf. }
  intros []. apply (ok_spec_bind _ (fun _ => walk_mir m1 (SD []) (out sb ++ r))).
  { eapply ok_spec_weaken; [apply (ok_spec_for_each_prefix (fun fl => walk_mir m1 (SF fl) (out sb ++ r)))|done|].
    - intros l1 f l2 El. destruct (Hfiles f) as [c Hc]; [rewrite El; set_solver|].
      eapply ok_spec_weaken; [by apply (copy_file_ok m1 r f c (SF l1))|done|].
      intros _ w (? & ? & Hm). split_and!; [done|done|]. intros y Hy. apply Hm.
      destruct Hy as [Hy|(f' & Hf' & ->)]; [by left; left|].
      apply elem_of_app in Hf' as [Hf'|Hf']; [left; right; eauto|].
      apply list_elem_of_singleton in Hf' as ->. by right.
    - intros _ w (? & ? & Hm). split_and!; [done|done|]. intros y [Hy|(d & Hd & _)]; [by apply Hm|].
      by apply not_elem_of_nil in Hd. }
  intros []. eapply ok_spec_weaken;
    [apply (ok_spec_for_each_prefix (fun dl => walk_mir m1 (SD dl) (out sb ++ r)))|done|].
  - intros l1 d l2 El.
    assert (d ∈ dirs) as Hd by (rewrite El; set_solver).
    pose proof (ok_spec_frame grows (fun w => node_at (fs w) (out sb ++ r) = Some Dir) _ _ _
      (Hdirs d (SD l1) Hd) (walk_copy_grows _ _ _ _) (fun s s' G => grows_dir s s' _ G)) as Hf.
    eapply ok_spec_weaken; [exact Hf|intros w Hw; split; [exact Hw|apply Hw]|].
    intros _ w [[Hi Hm] Hd']. split_and!; [done|done|]. intros y Hy. apply Hm.
    destruct Hy as [Hy|(d' & Hd'' & Hp)]; [by left; left|].
    apply elem_of_app in Hd'' as [Hd''|Hd'']; [left; right; eauto|].
    apply list_elem_of_singleton in Hd'' as ->. by right.
  - intros _ w (Hi & _ & Hm). split; [done|]. apply (walk_level_covers _ _ _ dirs files); [done|done|].
    intros y Hy. apply Hm. destruct Hy as [Hy|Hy]; [by left|by right].
Qed.

(** The walk of [public/r] returns when it has more fuel than there are
    directories below [public/r], and mirrors everything below [r]. *)
Lemma walk_copy_ok m1 fuel : forall r S,
  ".." ∉ r -> node_at m1 (public sb ++ r) = Some Dir -> dirs_below m1 (public sb ++ r) < fuel ->
  ok_spec (walk_mir m1 S (removelast (out sb ++ r)))
    (walk_copy sb fuel (public sb ++ r) r)
    (fun _ w => walk_inv m1 (fs w) /\ forall y, S y \/ r `prefix_of` y -> mirrors m1 (fs w) y).
Proof.
  assert (public sb <> []) as Hpn by (intros E; apply Hpub_out; rewrite E; apply prefix_nil).
  induction fuel as [|fuel IH]; intros r S Hr Hpd Hlt; [lia|].
  intros w Hw. pose proof Hw as ((Hwf & Hsame & _) & _). simpl.
  assert (node_at (fs w) (public sb ++ r) = Some Dir) as Hpw
    by (rewrite node_at_cons in * by (by destruct (public sb)); by rewrite Hsame).
  destruct (scandir_dir (fs w) (public sb ++ r) Hwf ltac:(set_solver) Hpw) as (dirs & files & Hsc).
  rewrite Hsc. pose proof Hsc as Hsc'.
  apply scandir_Some in Hsc' as (_ & Hdirs & Hfiles); [|set_solver].
  apply (walk_level_ok m1 r dirs files fuel S); [done|done| | | |done].
  - intros x n Hl. rewrite <- Hsame, app_assoc in Hl.
    apply (scandir_complete (fs w) (public sb ++ r) dirs files x n); [set_solver|done|done].
  - intros f Hf. destruct (Hfiles f Hf) as [c Hc]. exists c. by rewrite <- Hsame, app_assoc.
  - intros d S' Hd. pose proof (Hdirs d Hd) as Hdd.
    destruct (Hwf _ _ Hdd) as (_ & _ & Hnd).
    rewrite <- app_assoc, Hsame in Hdd. rewrite <- app_assoc.
    eapply ok_spec_weaken; [apply (IH (r ++ [d]) S')| |done].
    + intros Hin. apply Hnd. set_solver.
    + by rewrite node_at_cons by (by destruct (public sb)).
    + rewrite app_assoc in *. pose proof (dirs_below_child _ _ _ Hdd). lia.
    + intros w' (Hi & Hd' & Hm). split_and!; [done| |done]. by rewrite app_assoc, removelast_last.
Qed.

(** [copy_static] on a well-formed world where the static tree fits [out]
    and [out] is a directory: it returns, and [out] mirrors [public] as
    it was ([m1]). *)
Lemma copy_lookup_image m1 rel n :
  rel <> [] -> m1 !! (public sb ++ rel) = Some n -> copy_lookup m1 (out sb ++ rel) = Some n.
Proof.
  intros Hne Hl. unfold copy_lookup. rewrite decide_True by (by exists rel).
  rewrite drop_app_length, decide_False by done. by rewrite Hl.
Qed.

(** A state that mirrors [m1], has [out] as a directory and is [m1]
    everywhere the walk does not write is [copy_lookup m1]. *)
Lemma copy_lookup_frame m1 m :
  (forall k, ~ copy_target m1 k -> m !! k = m1 !! k) -> (forall y, mirrors m1 m y) ->
  node_at m (out sb) = Some Dir -> forall k, m !! k = copy_lookup m1 k.
Proof.
  intros Hfr Hm Hout k. unfold copy_lookup. case_decide as Hp.
  - destruct Hp as [rel ->]. rewrite drop_app_length. case_decide as Hr.
    + subst rel. rewrite app_nil_r. by rewrite node_at_cons in Hout by (apply out_nonempty, Hout_pub).
    + destruct (m1 !! (public sb ++ rel)) as [n|] eqn:E; [by apply Hm|].
      apply Hfr. intros (rel' & E' & Ht). apply app_inv_head in E'. subst rel'.
      destruct Ht as [|[? E']]; [done|congruence].
  - apply Hfr. intros (rel & -> & _). apply Hp. by exists rel.
Qed.

Lemma copy_lookup_outside m1 k : ~ out sb `prefix_of` k -> copy_lookup m1 k = m1 !! k.
Proof. intros Hk. unfold copy_lookup. by rewrite decide_False. Qed.

Lemma copy_lookup_public m1 rel : copy_lookup m1 (public sb ++ rel) = m1 !! (public sb ++ rel).
Proof.
  apply copy_lookup_outside. intros Hp.
  destruct (prefix_weak_total (out sb) (public sb) (public sb ++ rel)) as [|];
    [done|by exists rel|done|done].
Qed.

(** Writing a map [D] that holds no copy and then copying is idempotent:
    [public] is the same after the first round, so the second copies the
    same entries over the same pages. *)
Lemma copy_lookup_idem D m m1 :
  (forall k, m1 !! k = copy_lookup (D ∪ m) k) -> forall k, copy_lookup (D ∪ m1) k = m1 !! k.
Proof.
  intros Hm1.
  assert (forall k, (D ∪ m1) !! k = D !! k ∪ copy_lookup (D ∪ m) k) as Hu
    by (intros; by rewrite lookup_union, Hm1).
  assert (forall rel, (D ∪ m1) !! (public sb ++ rel) = (D ∪ m) !! (public sb ++ rel)) as Hp.
  { intros rel. rewrite Hu, copy_lookup_public, !lookup_union. by destruct (D !! (public sb ++ rel)), (m !! (public sb ++ rel)). }
  intros k. rewrite Hm1. unfold copy_lookup at 1 2. case_decide as Ho.
  - case_decide; [done|]. rewrite Hp. destruct ((D ∪ m) !! _) as [n|] eqn:E; [done|].
    rewrite Hu. unfold copy_lookup. rewrite decide_True, decide_False, E by done.
    rewrite !lookup_union. by destruct (D !! k), (m !! k).
  - rewrite Hu, copy_lookup_outside, !lookup_union by done. by destruct (D !! k), (m !! k).
Qed.

(** The walk keeps the world ready: the copies have the kinds the static
    tree was checked to fit, and nothing outside [out] changes. *)
Lemma ready_copy m m' :
  (forall name, name ∈ "palette-rendered.html" :: template_names ->
     ~ out sb `prefix_of` templates sb ++ [name]) ->
  ready sb m -> wf m' -> (forall k, m' !! k = copy_lookup m k) -> ready sb m'.
Proof.
  intros Htpl (Hwf & Hcf & Ht & Hp & Hs) Hwf' Hm'.
  assert (forall rel, m' !! (public sb ++ rel) = m !! (public sb ++ rel)) as Hpub
    by (intros; by rewrite Hm', copy_lookup_public).
  split_and!; [done| | | |].
  - apply below_intro. intros rel n Hl. rewrite Hm' in Hl. unfold copy_lookup in Hl.
    rewrite decide_True, drop_app_length in Hl by (by exists rel).
    case_decide as Hr; [injection Hl as <-; by subst rel|].
    destruct (m !! (public sb ++ rel)) as [n0|] eqn:E; [|exact (below_lookup _ _ _ _ _ Hcf Hl)].
    injection Hl as <-. destruct (below_lookup _ _ _ _ _ Hs E Hr) as [HD HF].
    split; intros Hsl.
    + destruct (decide (n0 = Dir)) as [|Hn]; [done|]. destruct (HF Hn) as [Hd _]. by rewrite Hd in Hsl.
    + intros ->. destruct (HD eq_refl) as [Hf _]. by rewrite Hf in Hsl.
  - intros name Hn. destruct (Ht name Hn) as (src & Hsrc & Hok). exists src.
    rewrite Hm', copy_lookup_outside; [done|]. apply Htpl. set_solver.
  - rewrite Hm', copy_lookup_outside; [done|]. apply Htpl. set_solver.
  - apply below_intro. intros rel n Hl Hr. rewrite Hpub in Hl.
    destruct (below_lookup _ _ _ _ _ Hs Hl Hr) as [HD HF].
    rewrite Hm', (copy_lookup_image m rel n Hr Hl).
    split; intros Hn; (split; [by (apply HD || apply HF)|]); [intros t|]; congruence.
Qed.

(** The walk from [public], with any fuel above the number of
    directories below it. *)
Lemma walk_top_ok m1 fuel :
  dirs_below m1 (public sb) < fuel ->
  ok_spec (fun w => fs w = m1 /\ wf (fs w) /\ below (public sb) (fs w) (static_fit sb (fs w)) /\
                    node_at (fs w) (out sb) = Some Dir)
    (walk_copy sb fuel (public sb) [])
    (fun _ w => wf (fs w) /\ forall k, fs w !! k = copy_lookup m1 k).
Proof.
  intros Hfuel w (<- & Hwf & Hfit & Hout).
  destruct (decide (node_at (fs w) (public sb) = Some Dir)) as [Hp|Hp].
  - rewrite <- (app_nil_r (public sb)).
    edestruct (walk_copy_ok (fs w) fuel [] (fun _ => False)) as (a & w' & E & Hi & Hm).
    + set_solver.
    + by rewrite app_nil_r.
    + by rewrite app_nil_r.
    + split_and!; [by split_and!| |done]. rewrite app_nil_r. by apply wf_parent_dir.
    + exists a, w'. split; [exact E|]. destruct Hi as (Hwf' & _ & _ & Hout' & Hfr). split; [done|].
      apply copy_lookup_frame; [done| |done]. intros y. apply Hm. right. apply prefix_nil.
  - assert (scandir (fs w) (public sb) = None) as Hsc.
    { destruct (scandir (fs w) (public sb)) as [[dirs files]|] eqn:E; [|done].
      by apply scandir_Some in E as (? & _). }
    destruct fuel as [|fuel]; [lia|]. simpl. rewrite Hsc. exists tt, w. split; [done|]. split; [done|].
    apply copy_lookup_frame; [done| |done]. intros y Hy n Hl. exfalso. apply Hp.
    apply (wf_ancestor _ _ y n Hwf); [|done]. by rewrite node_at_cons by (by destruct (public sb)).
Qed.

Lemma copy_static_mirror m1 :
  ok_spec (fun w => fs w = m1 /\ wf (fs w) /\ below (public sb) (fs w) (static_fit sb (fs w)) /\
                    node_at (fs w) (out sb) = Some Dir)
    (copy_static sb) (fun _ w => wf (fs w) /\ forall k, fs w !! k = copy_lookup m1 k).
Proof.
  unfold copy_static, mbind, st_bind.
  eapply ok_spec_bind; [apply (print_fs_ok (fun m => m = m1 /\ wf m /\ below (public sb) m (static_fit sb m) /\
                                              node_at m (out sb) = Some Dir))|intros []].
  intros w (<- & Hw). pose proof (dirs_below_size (fs w) (public sb)).
  exact (walk_top_ok (fs w) (S (size (fs w))) ltac:(lia) w (conj eq_refl Hw)).
Qed.

Lemma copy_static_ok :
  ok_spec (fun w => wf (fs w) /\ below (public sb) (fs w) (static_fit sb (fs w)) /\
                    node_at (fs w) (out sb) = Some Dir)
    (copy_static sb) (fun _ w => wf (fs w)).
Proof.
  intros w Hw. destruct (copy_static_mirror (fs w) w ltac:(by split)) as (a & w' & E & Hwf' & _).
  eauto.
Qed.

Lemma copy_static_ready m1 :
  (forall name, name ∈ "palette-rendered.html" :: template_names ->
     ~ out sb `prefix_of` templates sb ++ [name]) ->
  ok_spec (fun w => fs w = m1 /\ ready sb (fs w) /\ node_at (fs w) (out sb) = Some Dir)
    (copy_static sb)
    (fun _ w => (ready sb (fs w) /\ node_at (fs w) (out sb) = Some Dir) /\
                forall k, fs w !! k = copy_lookup m1 k).
Proof.
  intros Htpl w (<- & Hr & Hout). pose proof Hr as (Hwf & _ & _ & _ & Hfit).
  destruct (copy_static_mirror (fs w) w ltac:(by split_and!)) as (a & w' & E & Hwf' & Hm).
  exists a, w'. split; [done|]. split; [split|done]; [by eapply ready_copy|].
  rewrite node_at_cons, Hm by (apply out_nonempty, Hout_pub).
  unfold copy_lookup. rewrite decide_True by done. by rewrite drop_all, decide_True.
Qed.

(** C18: the static copy terminates.  When [public] and [out] do not
    overlap and the static tree fits [out], the walk of [copy_static]
    never runs out of its fuel [S (size fs)] and raises nothing: every
    directory of [public] is walked and copied. *)
Theorem copy_static_terminates w :
  wf (fs w) -> below (public sb) (fs w) (static_fit sb (fs w)) -> node_at (fs w) (out sb) = Some Dir ->
  exists w', copy_static sb w = Ok tt w'.
Proof.
  intros Hwf Hfit Hout. destruct (copy_static_ok w) as ([] & w' & E & _); [by split_and!|]. eauto.
Qed.

(** C21: the static copy reproduces [public] in [out].  After
    [copy_static] returns on a world where [public] and [out] do not
    overlap and the static tree fits [out], every entry [public/rel] is
    at [out/rel] with the same kind, and every file with the same
    contents. *)
Theorem copy_static_mirrors w w' :
  wf (fs w) -> below (public sb) (fs w) (static_fit sb (fs w)) -> node_at (fs w) (out sb) = Some Dir ->
  copy_static sb w = Ok tt w' ->
  forall rel n, rel <> [] -> fs w !! (public sb ++ rel) = Some n -> fs w' !! (out sb ++ rel) = Some n.
Proof.
  intros Hwf Hfit Hout E rel n Hrel Hl.
  destruct (copy_static_mirror (fs w) w ltac:(by split_and!)) as (a & w'' & E' & _ & Hm).
  rewrite E in E'. injection E' as _ <-. rewrite Hm. by apply copy_lookup_image.
Qed.

(** C24: the static copy writes nothing but its copies.  After
    [copy_static] returns, every entry that is neither [out] nor the copy
    [out/rel] of an entry [public/rel] is as it was: the templates, the
    palette, the pages already rendered and files left in [out] by an
    earlier build all survive. *)
Theorem copy_static_frame w w' :
  wf (fs w) -> below (public sb) (fs w) (static_fit sb (fs w)) -> node_at (fs w) (out sb) = Some Dir ->
  copy_static sb w = Ok tt w' ->
  forall k, ~ copy_target (fs w) k -> fs w' !! k = fs w !! k.
Proof.
  intros Hwf Hfit Hout E k Hk.
  destruct (copy_static_mirror (fs w) w ltac:(by split_and!)) as (a & w'' & E' & _ & Hm).
  rewrite E in E'. injection E' as _ <-. rewrite Hm. unfold copy_lookup.
  case_decide as Hp; [|done]. destruct Hp as [rel ->]. rewrite drop_app_length.
  case_decide; [destruct Hk; exists rel; by split; [|left]|].
  destruct (fs w !! (public sb ++ rel)) eqn:El; [|done].
  destruct Hk. exists rel. split; [done|right]. by rewrite El.
Qed.

End Copy.

(** ** [out] two levels inside [public]

    With [out = public/a/b], walking [public/a] copies it to
    [public/a/b/a], walking [public/a/b] copies it to [public/a/b/a/b],
    and each directory the walk lists is one it created a level above:
    the walk reaches [public ++ zigzag n] for every [n].  No fuel is
    enough: the model always stops with [RecursionBound], the program
    recurses until the operating system refuses the path. *)
Section Nested.
Context {engine : TemplateEngine} {formatter : HtmlFormatter}
        {event_repo : EventRepository} {group_repo : GroupRepository}
        {hackathon_repo : HackathonRepository}.
Context (sb : SiteBuilder) (a b : string).

Hypothesis Hnest : out sb = public sb ++ [a; b].
Hypothesis Ha : a <> "..".
Hypothesis Hb : b <> "..".
Hypothesis Hpub_n : ".." ∉ public sb.

(** [a], [a/b], [a/b/a], ...: the relative paths the walk reaches. *)
Fixpoint zigzag (n : nat) : path :=
  match n with
  | O => []
  | S n' => zigzag n' ++ [if Nat.even n' then a else b]
  end.

Lemma zigzag_SS n : zigzag (S (S n)) = a :: b :: zigzag n.
Proof.
  induction n as [|n IH]; [done|].
  change (zigzag (S (S (S n)))) with (zigzag (S (S n)) ++ [if Nat.even (S (S n)) then a else b]).
  by rewrite IH.
Qed.

Lemma zigzag_no_dotdot n : ".." ∉ zigzag n.
Proof.
  induction n as [|n IH]; simpl; [set_solver|]. rewrite elem_of_app.
  destruct (Nat.even n); set_solver.
Qed.

Lemma walk_relation fuel p rel : respects (both grows (preserved wf_world)) (walk_copy sb fuel p rel).
Proof. apply respects_both; [apply walk_copy_grows|apply walk_copy_wf]. Qed.

(** The walk of [public ++ zigzag n], when the next directory of the
    chain exists, does not return, whatever its fuel. *)
Lemma walk_zigzag_diverges fuel : forall n w w',
  wf (fs w) -> fs w !! (public sb ++ zigzag (S n)) = Some Dir ->
  walk_copy sb fuel (public sb ++ zigzag n) (zigzag n) w <> Ok tt w'.
Proof.
  induction fuel as [|fuel IH]; intros n w w' Hwf Hd; simpl; [discriminate|].
  set (c := if Nat.even n then a else b).
  assert (zigzag (S n) = zigzag n ++ [c]) as Ez by reflexivity.
  assert (".." ∉ public sb ++ zigzag n) as Hn.
  { rewrite elem_of_app. pose proof (zigzag_no_dotdot n). tauto. }
  rewrite Ez, app_assoc in Hd.
  destruct (scandir_dir (fs w) (public sb ++ zigzag n)) as (dirs & files & Hs); [done|done| |].
  { eapply (wf_ancestor _ _ [c] Dir); [done| |done]. rewrite node_at_cons; [done|by intros (_ & ?)%app_eq_nil]. }
  rewrite Hs. intros H. cbv zeta in H. unfold mbind, st_bind in H. inv_ok.
  assert (c ∈ dirs) as Hc by (by eapply (scandir_complete _ _ dirs files c Dir)).
  assert (out sb ++ zigzag n <> []) as Hne by (rewrite Hnest, <- app_assoc; by intros (_ & ?)%app_eq_nil).
  assert (fs s !! (out sb ++ zigzag n) = Some Dir) as Hs1.
  { rewrite (mkdir_Ok_inv _ w s Hne); [by rewrite lookup_insert_eq| |done].
    rewrite Hnest, <- app_assoc, elem_of_app. pose proof (zigzag_no_dotdot n). set_solver. }
  assert (both grows (preserved wf_world) w s) as G1.
  { eapply Ok_respects; [|eassumption]. apply respects_both; [apply mkdir_grows|apply mkdir_wf]. }
  assert (both grows (preserved wf_world) s s0) as G2.
  { eapply Ok_respects; [|eassumption].
    apply respects_for_each; [apply _|]. intros f _. apply respects_both; [apply copyfile_grows|apply copyfile_wf]. }
  destruct (for_each_Ok_visit _ _ _ _ _ c (fun d => walk_relation fuel _ _) H2 Hc)
    as (t1 & t2 & [G3 W3] & Ht & _).
  rewrite <- app_assoc, <- Ez in Ht. apply (IH (S n) t1 t2); [apply W3, G2, G1, Hwf| |exact Ht].
  rewrite zigzag_SS. change (a :: b :: zigzag n) with ([a; b] ++ zigzag n).
  rewrite app_assoc, <- Hnest. apply (grows_lookup_dir s0); [done|]. by apply (grows_lookup_dir s); [apply G2|].
Qed.

(** C19: with [out] two levels inside [public] ([public/a/b], an existing
    directory), [copy_static] never completes, whatever the world: the
    walk of [public/a/b/a] lists the [b] that the walk of [public/a/b]
    created, and so on without end.  The model stops with
    [RecursionBound] at every fuel; the program recurses until the
    operating system refuses the path. *)
Theorem copy_static_out_in_public w :
  wf (fs w) -> fs w !! out sb = Some Dir -> is_ok (copy_static sb w) = false.
Proof.
  intros Hwf Hd. destruct (copy_static sb w) as [[] w'|] eqn:E; [exfalso|done].
  unfold copy_static, mbind, st_bind in E. inv_ok. unfold print in H. injection H as <-.
  eapply (walk_zigzag_diverges _ 0 _ w'); [| |rewrite app_nil_r; exact H0]; simpl; [done|].
  rewrite <- node_at_cons by (by intros (_ & ?)%app_eq_nil).
  eapply (wf_ancestor _ _ [b] Dir); [done| |done].
  rewrite <- app_assoc. simpl. rewrite <- Hnest, node_at_cons; [done|].
  rewrite Hnest. by intros (_ & ?)%app_eq_nil.
Qed.
End Nested.

(** ** [out] one level inside [public]

    With [out = public/a], the walk copies [public/a^j] to
    [public/a^(j+1)] for every [j] it reaches, and it reaches
    [public/a^(j+1)] when that directory was listed: a run extends the
    chain [public/a/a/...] of directories by one. *)
Section Chain.
Context {engine : TemplateEngine} {formatter : HtmlFormatter}
        {event_repo : EventRepository} {group_repo : GroupRepository}
        {hackathon_repo : HackathonRepository}.
Context (sb : SiteBuilder) (a : string).

Hypothesis Hnest : out sb = public sb ++ [a].
Hypothesis Ha : a <> "..".
Hypothesis Hpub_n : ".." ∉ public sb.

Lemma replicate_no_dotdot j : ".." ∉ public sb ++ replicate j a.
Proof. rewrite elem_of_app, elem_of_replicate. naive_solver. Qed.

Lemma chain_nonempty j : public sb ++ replicate (S j) a <> [].
Proof. by intros (_ & ?)%app_eq_nil. Qed.

(** Every directory of the chain up to an existing one exists. *)
Lemma chain_ancestor m j i :
  wf m -> j <= i -> node_at m (public sb ++ replicate i a) = Some Dir ->
  node_at m (public sb ++ replicate j a) = Some Dir.
Proof.
  intros Hwf Hji Hi. destruct (decide (j = i)) as [->|Hne]; [done|].
  apply (wf_ancestor _ _ (replicate (i - j) a) Dir Hwf); [|by destruct (i - j) eqn:?; [lia|]].
  by rewrite <- app_assoc, <- replicate_add, Nat.add_sub_assoc, Nat.add_sub_swap, Nat.sub_diag by lia.
Qed.

(** The chain is shorter than the file system has entries. *)
Lemma chain_bounded m : wf m -> node_at m (public sb ++ replicate (S (size m)) a) <> Some Dir.
Proof.
  intros Hwf Htop.
  set (keys := (fun k => public sb ++ replicate (S k) a) <$> seq 0 (S (size m))).
  assert (NoDup keys) as Hnd.
  { apply NoDup_fmap_2_strong; [|apply NoDup_seq]. intros x y _ _ E.
    apply (f_equal length) in E. rewrite !length_app, !length_replicate in E. lia. }
  assert (list_to_set keys ⊆ dom m) as Hsub.
  { intros k Hk. apply elem_of_list_to_set, list_elem_of_fmap in Hk as (j & -> & Hj).
    apply elem_of_seq in Hj. apply elem_of_dom.
    rewrite <- node_at_cons by apply chain_nonempty.
    erewrite (chain_ancestor m (S j) (S (size m))); [by eexists|done|lia|done]. }
  apply subseteq_size in Hsub. rewrite size_list_to_set, size_dom in Hsub by done.
  unfold keys in Hsub. rewrite length_fmap, length_seq in Hsub. lia.
Qed.

Lemma walk_chain_relation fuel p rel : respects (both grows (preserved wf_world)) (walk_copy sb fuel p rel).
Proof. apply respects_both; [apply walk_copy_grows|apply walk_copy_wf]. Qed.

(** A walk of [public/a^j] that returns leaves [public/a^(i+1)] a
    directory for every [i >= j] for which [public/a^i] was one. *)
Lemma walk_chain fuel : forall j s s' i,
  walk_copy sb fuel (public sb ++ replicate j a) (replicate j a) s = Ok tt s' ->
  wf (fs s) -> j <= i -> node_at (fs s) (public sb ++ replicate i a) = Some Dir ->
  fs s' !! (public sb ++ replicate (S i) a) = Some Dir.
Proof.
  induction fuel as [|fuel IH]; intros j s s' i H Hwf Hji Hi; simpl in H; [discriminate|].
  destruct (scandir_dir (fs s) (public sb ++ replicate j a)) as (dirs & files & Hs);
    [done|apply replicate_no_dotdot|by apply (chain_ancestor _ _ i)|].
  rewrite Hs in H. cbv zeta in H. unfold mbind, st_bind in H. inv_ok.
  assert (out sb ++ replicate j a = public sb ++ replicate (S j) a) as Eo by (by rewrite Hnest, <- app_assoc).
  assert (fs s0 !! (public sb ++ replicate (S j) a) = Some Dir) as Hm.
  { rewrite <- Eo, (mkdir_Ok_inv (out sb ++ replicate j a) s s0); [by rewrite lookup_insert_eq|rewrite Eo..|done].
    apply chain_nonempty. apply replicate_no_dotdot. }
  assert (both grows (preserved wf_world) s s0) as G1.
  { eapply Ok_respects; [|eassumption]. apply respects_both; [apply mkdir_grows|apply mkdir_wf]. }
  assert (both grows (preserved wf_world) s0 s1) as G2.
  { eapply Ok_respects; [|eassumption].
    apply respects_for_each; [apply _|]. intros f _. apply respects_both; [apply copyfile_grows|apply copyfile_wf]. }
  assert (both grows (preserved wf_world) s1 s') as [G3 _].
  { eapply Ok_respects; [|eassumption].
    apply respects_for_each; [apply _|]. intros d _. apply walk_chain_relation. }
  destruct (decide (j = i)) as [<-|Hne].
  { apply (grows_lookup_dir s1); [done|]. by apply (grows_lookup_dir s0); [apply G2|]. }
  assert (a ∈ dirs) as Hd.
  { eapply (scandir_complete _ _ dirs files a Dir); [apply replicate_no_dotdot|done| |done].
    rewrite <- app_assoc, <- replicate_S_end, <- node_at_cons by apply chain_nonempty.
    apply (chain_ancestor _ _ i); [done|lia|done]. }
  destruct (for_each_Ok_visit _ _ _ _ _ a (fun d => walk_chain_relation fuel _ _) H2 Hd)
    as (u1 & u2 & [G4 W4] & Hu & [G5 _]).
  rewrite <- app_assoc, <- replicate_S_end in Hu.
  apply (grows_lookup_dir u2); [done|]. apply (IH (S j) u1 u2 i Hu); [|lia|].
  - apply W4, G2, G1, Hwf.
  - apply (grows_dir s1); [done|]. apply (grows_dir s0); [apply G2|]. by apply (grows_dir s); [apply G1|].
Qed.
End Chain.

Module CopyExamples.
Import BuilderExamples.
#[local] Existing Instances demo_engine demo_formatter demo_events demo_groups demo_hackathons.

Lemma copy_static_terminates_witness : exists w', copy_static sb w1 = Ok tt w'.
Proof.
  eapply copy_static_terminates.
  all: try decide_by_eval.
  all: apply Forall_forall; decide_by_eval.
Defined.

(** [out] two levels inside [public]: [public/a/b]. *)
Definition sb_nested : SiteBuilder :=
  mk_builder 100 ["srv"; "public"; "a"; "b"] ["srv"; "templates"] ["srv"; "public"].
Definition w_nested : world :=
  mk_world (<[["srv"; "public"; "a"; "b"]:=Dir]> (<[["srv"; "public"; "a"]:=Dir]> fs0)) [].

Lemma copy_static_out_in_public_witness : is_ok (copy_static sb_nested w_nested) = false.
Proof.
  apply (copy_static_out_in_public sb_nested "a" "b"); try decide_by_eval; vm_compute; reflexivity.
Defined.

Definition w1_copied : world := state_of (copy_static sb w1).

Lemma copy_static_mirrors_witness :
  fs w1_copied !! (out sb ++ ["css"; "a.css"]) = Some (File "css").
Proof.
  apply (copy_static_mirrors sb ltac:(decide_by_eval) ltac:(decide_by_eval) ltac:(decide_by_eval)
           ltac:(decide_by_eval) w1 w1_copied);
    first [decide_by_eval | discriminate | vm_compute; reflexivity].
Defined.
Lemma copy_static_frame_witness :
  fs w1_copied !! ["srv"; "templates"; "index.html"] = fs w1 !! ["srv"; "templates"; "index.html"].
Proof.
  apply (copy_static_frame sb ltac:(decide_by_eval) ltac:(decide_by_eval) ltac:(decide_by_eval)
           ltac:(decide_by_eval) w1 w1_copied);
    [decide_by_eval|decide_by_eval|vm_compute; reflexivity|vm_compute; reflexivity|].
  intros (rel & E & _). simpl in E. discriminate E.
Defined.
End CopyExamples.
