(* ===== verification/Effect.v ===== *)
(** * Effect: what a pass writes when it returns

    A pass of the builder that returns leaves the file system [D ∪ fs]:
    it has written the entries of a map [D] over it and changed nothing
    else.  [D] depends only on the template files (as they are in [m0]),
    the repositories and the builder, not on the rest of the file system,
    so running the pass again writes the same [D] again.  [writes c D] is
    that statement for one computation, in the partial triples [on_ok] of
    [Prelude] (what a run that returns did); its rules follow [bind] and
    [for_each], and every pass gets its map from them.  The static copy's
    map is not of this form: [StaticCopy.copy_lookup] gives its result
    place by place. *)

From S2P Require Import Prelude Path Fs Domain Repos Partition Template Builder Ready.

Section Effect.
Context {engine : TemplateEngine} {formatter : HtmlFormatter}
        {event_repo : EventRepository} {group_repo : GroupRepository}
        {hackathon_repo : HackathonRepository}.
Context (sb : SiteBuilder) (m0 : gmap path node).

(** The template files are those of [m0]. *)
Definition tpl_as (w : world) : Prop :=
  forall name, name ∈ template_names ->
    fs w !! (templates sb ++ [name]) = m0 !! (templates sb ++ [name]).

(** The text the engine renders from the template [name] of [m0]. *)
Definition page_text (name : string) (ctx : context) : string :=
  match m0 !! (templates sb ++ [name]) with
  | Some (File src) => default "" (render_source src ctx)
  | _ => ""
  end.

(** A run of [c] from a state with the templates of [m0] that returns has
    written [D] and kept the templates. *)
Definition writes (c : M unit) (D : gmap path node) : Prop :=
  on_ok tpl_as (fun w w' => fs w' = D ∪ fs w) c.

Definition writes_some (c : M unit) : Prop := exists D, writes c D.

Lemma union_empty_l (m : gmap path node) : ∅ ∪ m = m.
Proof. apply (left_id_L _ _). Qed.

Lemma writes_bind (c : M unit) (k : unit -> M unit) D1 D2 :
  writes c D1 -> writes (k tt) D2 -> writes (bind c k) (D2 ∪ D1).
Proof.
  intros Hc Hk. eapply on_ok_bind; [exact Hc|intros []; exact Hk|].
  intros s1 s2 s3 H1 H2. rewrite H2, H1. by rewrite (assoc_L _).
Qed.

Lemma writes_print s : writes (print s) ∅.
Proof. intros w a w' Hw [= _ <-]. split; [by rewrite union_empty_l|done]. Qed.

Lemma writes_some_bind (c : M unit) (k : unit -> M unit) :
  writes_some c -> writes_some (k tt) -> writes_some (bind c k).
Proof. intros [D1 H1] [D2 H2]. exists (D2 ∪ D1). by apply writes_bind. Qed.

Lemma writes_some_for_each {A} (f : A -> M unit) l :
  (forall x, x ∈ l -> writes_some (f x)) -> writes_some (for_each f l).
Proof.
  induction l as [|x l IH]; intros Hf; simpl.
  - exists ∅. apply on_ok_ret. intros s. by rewrite union_empty_l.
  - apply writes_some_bind; [apply Hf; set_solver|apply IH; set_solver].
Qed.

Lemma writes_mkdir p :
  p <> [] -> ".." ∉ p -> (forall name, name ∈ template_names -> p <> templates sb ++ [name]) ->
  writes (mkdir p) {[p := Dir]}.
Proof.
  intros Hp Hn Ht w [] w' Hw H. apply mkdir_Ok_inv in H; [|done|done]. rewrite H.
  split; [by rewrite insert_union_singleton_l|].
  intros name Hname. rewrite H, lookup_insert_ne; [by apply Hw|]. by apply Ht.
Qed.

(** A total triple and the map a returning run writes, together. *)
Lemma ok_spec_writes (P : world -> Prop) (Q : unit -> world -> Prop) c D m :
  ok_spec P c Q -> writes c D ->
  ok_spec (fun w => P w /\ tpl_as w /\ fs w = m) c (fun a w' => Q a w' /\ tpl_as w' /\ fs w' = D ∪ m).
Proof.
  intros Hs Hw w (HP & Ht & <-). destruct (Hs w HP) as (a & w' & E & HQ).
  exists a, w'. split; [done|]. destruct (Hw w a w' Ht E). auto.
Qed.

Hypothesis Htpl_n : ".." ∉ templates sb.

Lemma writes_render p name ctx :
  name ∈ template_names -> p <> [] -> ".." ∉ p ->
  (forall name', name' ∈ template_names -> p <> templates sb ++ [name']) ->
  writes (render_at sb name ctx p) {[p := File (page_text name ctx)]}.
Proof.
  intros Hname Hp Hn Ht w [] w' Hw H.
  destruct (render_Ok_inv _ _ _ _ _ _ Hn H) as (src & text & Ts & Rs & Hf). rewrite Hf.
  eapply template_source_lookup in Ts; [|exact Htpl_n|by apply template_names_simple].
  assert (page_text name ctx = text) as ->.
  { unfold page_text. rewrite <- (Hw name Hname), Ts. by rewrite Rs. }
  split; [by rewrite insert_union_singleton_l|].
  intros name' Hn'. rewrite Hf, lookup_insert_ne; [by apply Hw|]. by apply Ht.
Qed.

Hypothesis Hout_n : ".." ∉ out sb.
Hypothesis Hout_pub : ~ out sb `prefix_of` public sb.
Hypothesis Hout_tpl : forall name, name ∈ "palette-rendered.html" :: template_names ->
  ~ out sb `prefix_of` templates sb ++ [name].
Hypothesis Hev : forall e, e ∈ events_all -> simple_name (Event.id e).
Hypothesis Hgr : forall g, g ∈ groups_all -> simple_name (Group.slug g).
Hypothesis Hhk : forall h, h ∈ hackathons_all -> simple_name (Hackathon.slug h).

Lemma out_not_template rel name : name ∈ template_names -> out sb ++ rel <> templates sb ++ [name].
Proof. intros Hn E. apply (Hout_tpl name); [set_solver|]. rewrite <- E. by exists rel. Qed.

Lemma out_app_nonempty rel : out sb ++ rel <> [].
Proof. pose proof (out_nonempty sb Hout_pub). by destruct (out sb). Qed.

Lemma writes_mkdir_out rel : ".." ∉ rel -> writes_some (mkdir (out sb ++ rel)).
Proof.
  intros Hr. eexists. apply writes_mkdir; [apply out_app_nonempty|set_solver|].
  intros name Hn. by apply out_not_template.
Qed.

Lemma writes_render_out rel name ctx :
  name ∈ template_names -> ".." ∉ rel -> writes_some (render_at sb name ctx (out sb ++ rel)).
Proof.
  intros Hname Hr. eexists. apply writes_render; [done|apply out_app_nonempty|set_solver|].
  intros name' Hn. by apply out_not_template.
Qed.

Lemma writes_some_print s : writes_some (print s).
Proof. exists ∅. apply writes_print. Qed.

(** The steps of a pass: its messages, its directories and its pages below
    [out], in order. *)
Ltac pass_steps :=
  unfold mbind, st_bind; cbv beta zeta; rewrite ?join_simple by auto with build;
  rewrite <- ?app_assoc;
  repeat first [ apply writes_some_bind | apply writes_some_print
               | apply writes_mkdir_out; set_solver
               | apply writes_render_out; [tname|set_solver] ].

Lemma render_index_writes : writes_some (render_index sb).
Proof. unfold render_index. pass_steps. Qed.

Lemma render_event_writes e :
  e ∈ events_all -> writes_some (render_event sb (out sb /ₚ "events") e).
Proof.
  intros He. pose proof (Hev e He). pose proof (simple_not_dotdot _ (Hev e He)).
  unfold render_event. pass_steps.
Qed.

Lemma render_events_writes : writes_some (render_events sb).
Proof.
  unfold render_events, mbind, st_bind. cbv beta zeta.
  apply writes_some_bind; [apply writes_some_print|].
  apply writes_some_bind; [rewrite join_simple by auto with build; apply writes_mkdir_out; set_solver|].
  apply writes_some_for_each. apply render_event_writes.
Qed.

Lemma render_groups_writes : writes_some (render_groups sb).
Proof.
  unfold render_groups, mbind, st_bind. cbv beta zeta.
  rewrite join_simple at 1 by auto with build.
  apply writes_some_bind; [apply writes_mkdir_out; set_solver|].
  apply writes_some_for_each. intros g Hg. pose proof (Hgr g Hg).
  pose proof (simple_not_dotdot _ (Hgr g Hg)).
  apply writes_some_bind; [unfold render_group|unfold render_group_events]; pass_steps.
Qed.

Lemma render_hackathons_writes : writes_some (render_hackathons sb).
Proof.
  unfold render_hackathons, mbind, st_bind. cbv beta zeta.
  rewrite join_simple at 1 by auto with build.
  apply writes_some_bind; [apply writes_mkdir_out; set_solver|].
  apply writes_some_for_each. intros h Hh. pose proof (Hhk h Hh).
  pose proof (simple_not_dotdot _ (Hhk h Hh)). unfold render_hackathon. pass_steps.
Qed.

Lemma render_palette_writes : writes_some (render_palette sb).
Proof.
  unfold render_palette. rewrite join_simple by auto with build. eexists.
  apply writes_render; [tname|by destruct (templates sb)|set_solver|].
  intros name Hn E. apply app_inv_head in E as [= <-]. by apply palette_not_template.
Qed.
End Effect.
