(* ===== verification/Progress.v ===== *)
(** * Progress: when a build completes, what it leaves, and when it cannot

    [build] runs [print], [mkdir out], the five rendering passes and
    [copy_static].  [Ready] shows that each pass returns from a [ready]
    world and keeps it ready; [Effect] gives the map each returning pass
    writes; [StaticCopy] shows that the copy returns when the static tree
    fits [out], keeps the world ready, and what it leaves place by place.
    Chained here ([build_ok]), they give that [build] completes (C17),
    and, since its result is the static copy over one map of pages that
    depends only on the templates and the repositories, that a second
    build over the first one's output leaves the file system unchanged
    (C22); the entry point [build()] completes with the site's layout
    (C25).  Section [Overlap] takes a returning build apart down to the
    walk of [public] ([build_Ok_copy]) and shows what goes wrong when
    [public] and [out] overlap: with [public = out] no build completes
    (C20), and with [out] one level inside [public] every completed build
    changes the file system (C23). *)

From S2P Require Import Prelude Path Fs Domain Repos Partition Template Builder Ready StaticCopy Effect.

(** Two paths neither of which lies inside the other. *)
Definition apart (a b : path) : Prop := ~ a `prefix_of` b /\ ~ b `prefix_of` a.

#[export] Instance apart_dec a b : Decision (apart a b).
Proof. unfold apart. apply _. Defined.

Lemma apart_app a b l : apart a b -> ~ a `prefix_of` b ++ l /\ ~ b ++ l `prefix_of` a.
Proof.
  intros [Hab Hba]. split.
  - intros H. destruct (prefix_weak_total a b (b ++ l)) as [|]; [done|by exists l|done|done].
  - intros [k E]. apply Hba. exists (l ++ k). by rewrite E, app_assoc.
Qed.

Section Live.
Context {engine : TemplateEngine} {formatter : HtmlFormatter}
        {event_repo : EventRepository} {group_repo : GroupRepository}
        {hackathon_repo : HackathonRepository}.
Context (sb : SiteBuilder).

Hypothesis Hout_n : ".." ∉ out sb.
Hypothesis Htpl_n : ".." ∉ templates sb.
Hypothesis Hout_tpl : forall name, name ∈ "palette-rendered.html" :: template_names ->
  ~ out sb `prefix_of` templates sb ++ [name].
Hypothesis Hpub_out : ~ public sb `prefix_of` out sb.
Hypothesis Hout_pub : ~ out sb `prefix_of` public sb.

Hypothesis Hev : forall e, e ∈ events_all -> simple_name (Event.id e).
Hypothesis Hgr : forall g, g ∈ groups_all -> simple_name (Group.slug g).
Hypothesis Hhk : forall h, h ∈ hackathons_all -> simple_name (Hackathon.slug h).
Hypothesis Hpub_pal : ~ public sb `prefix_of` palette_out sb.
Hypothesis Hpub_n : ".." ∉ public sb.

(** [self.out.mkdir(exist_ok=True)] from a ready world whose [out] has a
    parent directory and is not a file. *)
Lemma mkdir_out_ok :
  ok_spec (fun w => ready sb (fs w) /\ node_at (fs w) (removelast (out sb)) = Some Dir /\
                    forall t, fs w !! out sb <> Some (File t))
    (mkdir (out sb)) (fun _ => ready_with sb [out sb]).
Proof.
  intros w (Hr & Hp & Hnf). pose proof Hr as (Hwf & _). pose proof (out_nonempty sb Hout_pub).
  rewrite mkdir_self by done. eexists _, _. split; [done|]. split; simpl.
  - pose proof (ready_insert_out sb Hout_n Htpl_n Hout_tpl Hpub_out Hout_pub (fs w) [] Dir Hr) as Hi. rewrite app_nil_r in Hi. apply Hi.
    + apply wf_insert; [done|done|done|done|by right].
    + by split.
    + done.
  - constructor; [|done]. rewrite node_at_insert by done. by rewrite decide_True.
Qed.

(** The static copy from a ready world with the templates of [m0]. *)
Lemma copy_step m0 M :
  ok_spec (fun w => (ready sb (fs w) /\ node_at (fs w) (out sb) = Some Dir) /\
                    tpl_as sb m0 w /\ fs w = M)
    (copy_static sb)
    (fun _ w => (ready sb (fs w) /\ node_at (fs w) (out sb) = Some Dir) /\ tpl_as sb m0 w /\
                forall k, fs w !! k = copy_lookup sb M k).
Proof.
  intros w ((Hr & Ho) & Ht & HM).
  destruct (copy_static_ready sb Hout_n Hpub_out Hout_pub Hpub_n M Hout_tpl w ltac:(done))
    as (a & w' & E & Hrd & Hk).
  exists a, w'. split; [done|]. split; [apply Hrd|split; [|done]]. intros name Hn.
  rewrite Hk, copy_lookup_outside, <- HM; [by apply Ht|]. apply Hout_tpl. set_solver.
Qed.

(** The build from a ready world with the templates of [m0] returns,
    leaves the world ready with [out] a directory, and its result is the
    static copy over the pages: one map [D] of pages and directories,
    the same for every such world, written over the file system. *)
Lemma build_ok m0 : exists D, forall end_time m,
  ok_spec (fun w => (ready sb (fs w) /\ node_at (fs w) (removelast (out sb)) = Some Dir /\
                     forall t, fs w !! out sb <> Some (File t)) /\ tpl_as sb m0 w /\ fs w = m)
    (build sb end_time)
    (fun _ w => (ready sb (fs w) /\ node_at (fs w) (out sb) = Some Dir) /\ tpl_as sb m0 w /\
                forall k, fs w !! k = copy_lookup sb (D ∪ m) k).
Proof.
  assert (writes sb m0 (mkdir (out sb)) {[out sb := Dir]}) as H1.
  { apply writes_mkdir; [by apply out_nonempty|done|].
    intros name Hn. rewrite <- (app_nil_r (out sb)). by apply out_not_template. }
  assert (writes_some sb m0 (render_index sb)) as [D2 H2] by (by apply render_index_writes).
  assert (writes_some sb m0 (render_events sb)) as [D3 H3] by (by apply render_events_writes).
  assert (writes_some sb m0 (render_groups sb)) as [D4 H4] by (by apply render_groups_writes).
  assert (writes_some sb m0 (render_hackathons sb)) as [D5 H5] by (by apply render_hackathons_writes).
  assert (writes_some sb m0 (render_palette sb)) as [D6 H6] by (by apply render_palette_writes).
  exists (D6 ∪ D5 ∪ D4 ∪ D3 ∪ D2 ∪ {[out sb := Dir]}). intros end_time m.
  unfold build, mbind, st_bind.
  eapply ok_spec_bind; [apply (ok_spec_writes sb m0 (fun w => ready sb (fs w) /\
      node_at (fs w) (removelast (out sb)) = Some Dir /\ forall t, fs w !! out sb <> Some (File t)));
      [apply (print_fs_ok (fun m => ready sb m /\ node_at m (removelast (out sb)) = Some Dir /\
                                    forall t, m !! out sb <> Some (File t)))|apply writes_print]|intros []].
  eapply ok_spec_bind; [eapply ok_spec_writes; [apply mkdir_out_ok|exact H1]|intros []].
  eapply ok_spec_bind; [eapply ok_spec_writes; [eapply render_index_ok; try eassumption; side|exact H2]|intros []].
  eapply ok_spec_bind; [eapply ok_spec_writes; [eapply render_events_ok; try eassumption; side|exact H3]|intros []].
  eapply ok_spec_bind; [eapply ok_spec_writes; [eapply render_groups_ok; try eassumption; side|exact H4]|intros []].
  eapply ok_spec_bind; [eapply ok_spec_writes; [eapply render_hackathons_ok; try eassumption; side|exact H5]|intros []].
  eapply ok_spec_bind; [eapply ok_spec_writes; [eapply render_palette_ok; eassumption|exact H6]|intros []].
  eapply ok_spec_bind; [eapply ok_spec_weaken; [apply copy_step| |done]|intros []].
  - intros w' ([Hr Hds] & Ht & HM). split_and!; [done| |done|exact HM].
    rewrite Forall_forall in Hds. apply Hds. set_solver.
  - intros w' (Hr & Ht & Hk). exists tt, (mk_world (fs w') (stdout w' ++ [Elapsed (end_time - now sb)])).
    split; [done|]. split_and!; [apply Hr|apply Hr|done|]. intros k. simpl. rewrite Hk.
    by rewrite union_empty_l, !(assoc_L (∪)).
Qed.

(** C17: [build] completes on a world that is ready for it: the
    templates are files the engine renders on the contexts of their
    schema, [out]'s parent exists and [out] is not a file, every entry
    already in [out] has the kind its place in the layout needs, the
    static tree fits that layout, every identifier is a simple name, and
    [out], [templates] and [public] do not overlap.  The build then
    returns without raising, and leaves a well-formed file system. *)
Theorem build_completes end_time w :
  ready sb (fs w) -> node_at (fs w) (removelast (out sb)) = Some Dir ->
  (forall t, fs w !! out sb <> Some (File t)) ->
  exists w', build sb end_time w = Ok tt w' /\ wf (fs w').
Proof.
  intros Hr Hp Hnf. destruct (build_ok (fs w)) as [D HD].
  destruct (HD end_time (fs w) w ltac:(done)) as ([] & w' & E & ((Hw' & _) & _) & _).
  exists w'. split; [done|]. apply Hw'.
Qed.

(** C22: the build is idempotent.  Run again over its own output, with
    any [now] in the second clock reading and the same repositories, the
    build returns and leaves the file system exactly as the first run
    left it: every page, directory and static copy byte for byte (only
    the printed elapsed time differs). *)
Theorem build_idempotent end1 end2 w w1 :
  ready sb (fs w) -> node_at (fs w) (removelast (out sb)) = Some Dir ->
  (forall t, fs w !! out sb <> Some (File t)) ->
  build sb end1 w = Ok tt w1 ->
  exists w2, build sb end2 w1 = Ok tt w2 /\ fs w2 = fs w1.
Proof.
  intros Hr Hp Hnf E1. destruct (build_ok (fs w)) as [D HD].
  destruct (HD end1 (fs w) w ltac:(done)) as ([] & w1' & E1' & ((Hr1 & Ho1) & Ht1 & Hk1)).
  rewrite E1 in E1'. injection E1' as <-.
  pose proof (out_nonempty sb Hout_pub) as Hon. pose proof Hr1 as (Hwf1 & _).
  destruct (HD end2 (fs w1) w1) as ([] & w2 & E2 & _ & _ & Hk2).
  { split_and!; [done| |intros t; rewrite <- node_at_cons by done; congruence|done|done].
    apply (wf_parent _ _ _ Hwf1 Ho1 Hon). }
  exists w2. split; [done|]. apply map_eq. intros k. rewrite Hk2.
  by apply (copy_lookup_idem sb Hpub_out Hout_pub D (fs w)).
Qed.

End Live.

(** ** [public] and [out] that overlap *)
Section Overlap.
Context {engine : TemplateEngine} {formatter : HtmlFormatter}
        {event_repo : EventRepository} {group_repo : GroupRepository}
        {hackathon_repo : HackathonRepository}.
Context (sb : SiteBuilder).

#[local] Hint Resolve render_index_grows render_events_grows render_groups_grows
  render_hackathons_grows render_palette_grows render_index_wf render_events_wf
  render_groups_wf render_hackathons_wf render_palette_wf : build.

(** A build that returns has run the walk of [public] from a well-formed
    world that contains the world it started from and [out/index.html],
    and its result is the walk's. *)
Lemma build_Ok_copy end_time w w' :
  ".." ∉ out sb -> wf (fs w) -> build sb end_time w = Ok tt w' ->
  exists s s', grows w s /\ wf (fs s) /\ has_file s (out sb ++ ["index.html"]) /\
    walk_copy sb (S (size (fs s))) (public sb) [] s = Ok tt s' /\ fs w' = fs s'.
Proof.
  intros Hn Hwf H. unfold build, mbind, st_bind in H. inv_ok.
  unfold copy_static, mbind, st_bind in H6. inv_ok.
  unfold print_elapsed in H8. injection H8 as <-.
  apply render_index_file in H1 as Hi; [|done].
  repeat match goal with
  | Hx : ?m _ = Ok _ _ |- _ =>
      lazymatch m with walk_copy _ _ _ _ => fail | _ => idtac end;
      let G := fresh "G" in
      assert (both grows (preserved wf_world) _ _) as G
        by (eapply Ok_respects; [|exact Hx]; apply respects_both; eauto with build);
      clear Hx
  end.
  assert (both grows (preserved wf_world) s1 s7) as [G17 _] by (do 5 (etrans; [eassumption|]); done).
  assert (both grows (preserved wf_world) w s7) as [Gw Ww] by (do 8 (etrans; [eassumption|]); done).
  exists s7, s6. split_and!; [done|by apply Ww|by apply (has_file_grows s1)|done|done].
Qed.
(** [shutil.copyfile(p, p)] never returns: it raises [SameFileError]
    when [p] exists and the error of reading it otherwise. *)
Lemma copyfile_same p w w' : copyfile p p w <> Ok tt w'.
Proof.
  unfold copyfile, mbind, st_bind, bind, read_file.
  destruct (locate (fs w) p) as [e|q]; [done|].
  case_decide as Hs; [done|]. destruct (node_at (fs w) q) as [[]|]; [done| |done].
  exfalso. apply Hs. split; [done|]. by eexists.
Qed.

(** C20: with [public] equal to [out], [build] never completes, whatever
    the world: [copy_static] lists [out/index.html], rendered by the same
    build, among the files of [public] and copies it onto itself, and
    [shutil.copyfile] raises [SameFileError]. *)
Theorem build_public_is_out end_time w :
  public sb = out sb -> ".." ∉ out sb -> wf (fs w) -> is_ok (build sb end_time w) = false.
Proof.
  intros Hpo Hn Hwf. destruct (build sb end_time w) as [[] w'|] eqn:E; [exfalso|done].
  destruct (build_Ok_copy _ _ _ Hn Hwf E) as (s & s' & _ & Hs & [c Hi] & Hw & _).
  assert (out sb ++ ["index.html"] <> []) as Hne by (by intros (_ & ?)%app_eq_nil).
  assert (node_at (fs s) (out sb) = Some Dir) as Ho.
  { eapply (wf_ancestor _ _ ["index.html"]); [done| |done]. by rewrite node_at_cons. }
  destruct (scandir_dir (fs s) (out sb)) as (dirs & files & Hsc); [done|done|done|].
  assert ("index.html" ∈ files) as Hf.
  { by eapply (scandir_complete _ _ dirs files _ (File c)). }
  simpl in Hw. rewrite Hpo, Hsc in Hw. cbv zeta in Hw. unfold mbind, st_bind in Hw. inv_ok.
  destruct files as [|f files]; [set_solver|].
  apply for_each_Ok_inv in H1 as (s2 & Hc & _). rewrite app_nil_r in Hc.
  by apply copyfile_same in Hc.
Qed.
(** C23: with [out] one level inside [public] ([public/a]), a build that
    returns always changes the file system, so the build is never
    idempotent: the static copy lengthens the chain of directories
    [public/a/a/...] by one, copying the output of the runs before into
    itself once more. *)
Theorem build_out_in_public_grows a end_time w w' :
  out sb = public sb ++ [a] -> a <> ".." -> ".." ∉ public sb -> wf (fs w) ->
  build sb end_time w = Ok tt w' -> fs w' <> fs w.
Proof.
  intros Hnest Ha Hpn Hwf E Heq.
  assert (".." ∉ out sb) as Hon by (rewrite Hnest; set_solver).
  destruct (build_Ok_copy _ _ _ Hon Hwf E) as (s & s' & G & Hs & [c Hi] & Hw & Hfs).
  assert (node_at (fs s) (public sb ++ replicate 1 a) = Some Dir) as H1.
  { simpl. rewrite <- Hnest. eapply (wf_ancestor _ _ ["index.html"]); [done| |done].
    rewrite node_at_cons; [done|]. by intros (_ & ?)%app_eq_nil. }
  destruct (last_holds (fun k => node_at (fs s) (public sb ++ replicate k a) = Some Dir)
              (S (size (fs s)))) as (k & Hk & Hk1).
  - cbv beta. apply (chain_ancestor sb a _ 0 1); [done|lia|done].
  - by apply chain_bounded.
  - apply Hk1. rewrite node_at_cons by apply chain_nonempty.
    apply (grows_lookup_dir w); [done|]. rewrite <- Heq, Hfs.
    apply (walk_chain sb a Hnest Ha Hpn (S (size (fs s))) 0 s s' k); [by rewrite app_nil_r|done|lia|done].
Qed.
End Overlap.

Section Main.
Context {engine : TemplateEngine} {formatter : HtmlFormatter}
        {event_repo : EventRepository} {group_repo : GroupRepository}
        {hackathon_repo : HackathonRepository}.

(** C25: the entry point [build()] completes.  With the templates and
    the static tree beside the module ([SiteBuilder.__init__]), the
    conditions of C17 on [out], [templates] and [public] reduce to one
    on [out]: it lies neither inside nor above [service/templates] and
    [service/public].  From a world ready for that builder, [build()]
    returns and leaves a well-formed file system with the pages of the
    layout in [out_dir] and the rendered palette in [service/templates]. *)
Theorem main_build_completes clock end_time out_dir service w :
  ".." ∉ out_dir -> ".." ∉ service ->
  apart out_dir (service ++ ["templates"]) -> apart out_dir (service ++ ["public"]) ->
  (forall e, e ∈ events_all -> simple_name (Event.id e)) ->
  (forall g, g ∈ groups_all -> simple_name (Group.slug g)) ->
  (forall h, h ∈ hackathons_all -> simple_name (Hackathon.slug h)) ->
  let sb := new_site_builder clock out_dir service in
  ready sb (fs w) -> node_at (fs w) (removelast out_dir) = Some Dir ->
  (forall t, fs w !! out_dir <> Some (File t)) ->
  exists w', main_build clock end_time out_dir service w = Ok tt w' /\ wf (fs w') /\
    site_layout sb w' /\ has_file w' (service ++ ["templates"; "palette-rendered.html"]).
Proof.
  intros Hon Hsn Htp Hpb Hev Hgr Hhk sb Hr Hp Hnf.
  assert (templates sb = service ++ ["templates"] /\ public sb = service ++ ["public"]) as [Ht Hpu]
    by (split; apply join_simple; decide_by_eval).
  assert (forall l, ~ out_dir `prefix_of` (service ++ ["templates"]) ++ l) as Hot
    by (intros l; apply (apart_app _ _ l Htp)).
  assert (".." ∉ templates sb) as H2 by (rewrite Ht; set_solver).
  assert (forall name, name ∈ "palette-rendered.html" :: template_names ->
            ~ out_dir `prefix_of` templates sb ++ [name]) as H3
    by (intros name _; rewrite Ht; apply Hot).
  assert (~ public sb `prefix_of` out_dir) as H4 by (rewrite Hpu; apply Hpb).
  assert (~ out_dir `prefix_of` public sb) as H5 by (rewrite Hpu; apply Hpb).
  assert (~ public sb `prefix_of` palette_out sb) as H9.
  { rewrite Hpu. unfold palette_out. rewrite Ht, <- !app_assoc.
    intros [l E]. rewrite <- app_assoc in E. apply app_inv_head in E. discriminate E. }
  assert (".." ∉ public sb) as H10 by (rewrite Hpu; set_solver).
  destruct (build_ok sb Hon H2 H3 H4 H5 Hev Hgr Hhk H9 H10 (fs w)) as [D HD].
  destruct (HD end_time (fs w) w ltac:(done)) as ([] & w' & E & ((Hw' & _) & _) & _).
  exists w'. split_and!; [exact E|apply Hw'|by apply (build_Ok_layout sb Hon end_time w)|].
  destruct (build_Ok_layout sb Hon end_time w w' H2 E) as (_ & _ & _ & _ & Hpal).
  by rewrite Ht, <- app_assoc in Hpal.
Qed.
End Main.

Module ProgressExamples.
Import BuilderExamples.
#[local] Existing Instances demo_engine demo_formatter demo_events demo_groups demo_hackathons.

Ltac forall_in := apply Forall_forall; decide_by_eval.

Lemma demo_templates_ok : templates_ok sb fs0.
Proof.
  intros name Hn. unfold template_names in Hn.
  repeat (apply elem_of_cons in Hn as [->|Hn];
          [eexists; split; [reflexivity|intros ctx; vm_compute; eexists; reflexivity]|]).
  by apply not_elem_of_nil in Hn.
Qed.

Lemma build_completes_witness : exists w', build sb 130 w0 = Ok tt w' /\ wf (fs w').
Proof.
  eapply build_completes.
  all: try decide_by_eval.
  all: try forall_in.
  split_and!; [decide_by_eval|decide_by_eval|apply demo_templates_ok|decide_by_eval|decide_by_eval].
Defined.

Lemma build_public_is_out_witness :
  is_ok (build (mk_builder 100 ["srv"; "public"] ["srv"; "templates"] ["srv"; "public"]) 130 w0) = false.
Proof. apply build_public_is_out; [reflexivity|decide_by_eval|decide_by_eval]. Defined.

Lemma main_build_completes_witness :
  exists w', main_build 100 130 ["srv"; "out"] ["srv"] w0 = Ok tt w' /\ wf (fs w') /\
    site_layout (new_site_builder 100 ["srv"; "out"] ["srv"]) w' /\
    has_file w' ["srv"; "templates"; "palette-rendered.html"].
Proof.
  apply main_build_completes.
  all: try decide_by_eval.
  all: try forall_in.
  split_and!; [decide_by_eval|decide_by_eval|apply demo_templates_ok|decide_by_eval|decide_by_eval].
Defined.

Definition w0_built : world := state_of (build sb 130 w0).

Lemma build_idempotent_witness :
  exists w2, build sb 200 w0_built = Ok tt w2 /\ fs w2 = fs w0_built.
Proof.
  eapply (build_idempotent sb) with (end1 := 130%Z) (w := w0); [..|vm_compute; reflexivity].
  all: try decide_by_eval.
  all: try forall_in.
  split_and!; [decide_by_eval|decide_by_eval|apply demo_templates_ok|decide_by_eval|decide_by_eval].
Defined.

(** [out] one level inside [public]: [public/site]. *)
Definition sb_site : SiteBuilder :=
  mk_builder 100 ["srv"; "public"; "site"] ["srv"; "templates"] ["srv"; "public"].

Definition w_site : world := state_of (build sb_site 130 w0).

Lemma build_out_in_public_grows_witness : fs (state_of (build sb_site 200 w_site)) <> fs w_site.
Proof.
  apply (build_out_in_public_grows sb_site "site" 200 w_site);
    [decide_by_eval..|vm_compute; reflexivity].
Defined.
End ProgressExamples.
